(** * Airdrop assistant: eligibility engine, retry, cache and share report

    A shallow embedding of the diamond-hands analysis tool
    (src/config.js, src/services/solana-service.js,
    src/analyzers/diamond-hands-analyzer.js, src/utils/cache-manager.js,
    src/utils/csv-writer.js, the batch processor and [withRetry]) together
    with the properties of its natural-language specification.

    Conventions of the embedding.
    - JavaScript numbers that hold token amounts, balances and millisecond
      timestamps are integers of [Z]; the comparisons, [Math.max],
      [Math.floor] of a quotient and the sums the program performs on
      them are the ones of [Z]. The one quotient that is not floored, the
      airdrop share, is rounded to four decimals from its exact value.
      Amounts are whole numbers below 2^53.
    - Number formatting is the one of the en-US locale.
    - A [Date] is its millisecond time value; [null] is [None].
    - Asynchronous code is run to completion one call at a time, as a
      state-and-exception monad over [World]; the remote chain is an
      oracle indexed by the number of requests served so far. The workers
      of one batch run in list order, their interleaving is not
      modelled; batches follow each other as in the source.
    - The trace of a run records the timers awaited between the attempts
      of a retried operation and after each batch of the share pass, and,
      as ghost events, the attempts and the failures caught; the pacing
      pauses inside a request to the chain are not recorded.
    - In the run the cache is the in-memory map of a [CacheManager]
      whose [init] has loaded the file, and holds values of the shapes
      the run itself stores; the file, the failing [init], the timer and
      the JSON round trip are modelled apart, in [CacheManager]. *)

From Stdlib Require Import ZArith List Bool Lia Ascii String DecimalString Sorted.
From stdpp Require Import base option list strings gmap.

Local Open Scope Z_scope.

(** ** Configuration (src/config.js) *)

Module CONFIG.
Definition MIN_TOKENS : Z := 50000000.
Definition MAX_TOKENS : Z := 40000000000.
Definition KOKO_TOKEN : string := "FsA54yL49WKs7rWoGv9sUcbSGWCWV756jTD349e6H2yW".
Definition BATCH_SIZE : nat := 50.
Definition MONTHS_REQUIRED : Z := 3.
Definition CONCURRENT_LIMIT : nat := 5.
Definition RETRY_LIMIT : nat := 3.
Definition RETRY_DELAY : Z := 2000.

Record RetryOptions := {
  retries : nat;
  minTimeout : Z;
  maxTimeout : Z
}.

Definition RETRY_OPTIONS : RetryOptions :=
  {| retries := 3; minTimeout := 1000; maxTimeout := 3000 |}.
End CONFIG.

(** ** Number formatting

    Numbers are the integers [Z]: balances are whole numbers of tokens,
    below 2^53, where the arithmetic of doubles is exact. A balance with
    a fractional part, which [uiAmount] may carry and [toLocaleString]
    prints with up to three fraction digits, is outside the embedding.

    [Number.prototype.toString] on an integer, [toLocaleString] on an
    integer for a process running in the en-US locale (groups of three
    digits separated by commas), and [parseFloat] on the text of an
    integer. *)

Definition toString (n : Z) : string := NilZero.string_of_int (Z.to_int n).

Fixpoint group3 (rev_digits : list ascii) (k : nat) : list ascii :=
  match rev_digits with
  | [] => []
  | d :: rest =>
      match k, rest with
      | 2%nat, _ :: _ => d :: ","%char :: group3 rest 0
      | _, _ => d :: group3 rest (S k)
      end
  end.

Definition string_of_chars (l : list ascii) : string :=
  fold_right String EmptyString l.

Definition toLocaleString (n : Z) : string :=
  let digits := list_ascii_of_string (toString (Z.abs n)) in
  let grouped := string_of_chars (rev (group3 (rev digits) 0)) in
  if n <? 0 then "-" +:+ grouped else grouped.

(** [s.replace(/,/g, '')] *)
Definition removeCommas (s : string) : string :=
  string_of_chars (filter (fun c => negb (Ascii.eqb c ","%char)) (list_ascii_of_string s)).

(** [parseFloat] on the decimal text of an integer, which is what the
    embedding feeds it; [None] is [NaN]. A text with a fraction or an
    exponent, which [parseFloat] reads as well, is not in its domain
    here. *)
Definition parseFloat (s : string) : option Z :=
  match NilZero.int_of_string s with
  | Some i => Some (Z.of_int i)
  | None => None
  end.

(** [String.prototype.padStart(width, '0')] on the decimal text of [n]. *)
Definition pad (width : nat) (n : Z) : string :=
  let s := toString n in
  string_of_chars (replicate (width - String.length s) "0"%char) +:+ s.

(** [Date.prototype.toISOString] for a time value in the years 0000 to
    9999: the civil date of the day number, then the time of day. *)
Definition toISOString (t : Z) : string :=
  let ms := t mod 86400000 in
  let z := t / 86400000 + 719468 in
  let era := z / 146097 in
  let doe := z - era * 146097 in
  let yoe := (doe - doe / 1460 + doe / 36524 - doe / 146096) / 365 in
  let doy := doe - (365 * yoe + yoe / 4 - yoe / 100) in
  let mp := (5 * doy + 2) / 153 in
  let d := doy - (153 * mp + 2) / 5 + 1 in
  let m := if mp <? 10 then mp + 3 else mp - 9 in
  let y := yoe + era * 400 + (if m <=? 2 then 1 else 0) in
  pad 4 y +:+ "-" +:+ pad 2 m +:+ "-" +:+ pad 2 d +:+ "T" +:+
  pad 2 (ms / 3600000) +:+ ":" +:+ pad 2 (ms / 60000 mod 60) +:+ ":" +:+
  pad 2 (ms / 1000 mod 60) +:+ "." +:+ pad 3 (ms mod 1000) +:+ "Z".

(** ** Truth values

    What the [&&] chain of the eligibility test evaluates to. Its
    operands are comparisons and, in the middle, [firstAcquired], a [Date]
    or [null]: the chain yields its first falsy operand, so it is [true],
    [false] or [null]. *)
Inductive Flag := FlagTrue | FlagFalse | FlagNull.

(** A boolean as such a value; [isEligible a = true] reads
    [isEligible a === true]. *)
Definition of_bool (b : bool) : Flag := if b then FlagTrue else FlagFalse.
Coercion of_bool : bool >-> Flag.

(** [ToBoolean]: what [if (x)], [x ? .. : ..] and [x || ..] look at. *)
Definition truthy (f : Flag) : bool :=
  match f with FlagTrue => true | FlagFalse | FlagNull => false end.

(** An object or [null] as an operand that is not the last of the chain:
    a truthy operand is never what the chain yields there. *)
Definition present {A} (x : option A) : Flag :=
  match x with Some _ => FlagTrue | None => FlagNull end.

(** [a && b]: [a] when [a] is falsy, [b] otherwise. *)
Definition js_and (a b : Flag) : Flag := if truthy a then b else a.

(** ** Data model *)

(** An entry of [meta.preTokenBalances] / [meta.postTokenBalances]. *)
Record TokenBalance := {
  mint : string;
  tb_owner : string;
  uiTokenAmount : Z          (* Number(b.uiTokenAmount.amount) *)
}.

Record TxMeta := {
  preTokenBalances : option (list TokenBalance);
  postTokenBalances : option (list TokenBalance)
}.

Record Tx := {
  blockTime : Z;             (* seconds *)
  meta : option TxMeta
}.

Record Holder := {
  owner : string;
  amount : Z
}.

(** The object returned by [analyzeTransaction]. *)
Record TxChange := {
  acquired : bool;
  sold : bool;
  date : Z;                  (* new Date(tx.blockTime * 1000) *)
  post_amount : Z            (* field [amount] *)
}.

(** WalletAnalysis. *)
Record Analysis := {
  isEligible : Flag;
  reason : string;
  firstAcquired : option Z;
  maxHeld : Z;
  hasSold : bool;
  holdingDays : Z
}.

(** ** SolanaService: the pure part of the eligibility engine *)

Definition tracks (wallet : string) (b : TokenBalance) : bool :=
  String.eqb (mint b) CONFIG.KOKO_TOKEN && String.eqb (tb_owner b) wallet.

(** solana-service.js, [analyzeTransaction].
    [Number(uiTokenAmount.amount)] is the integer the text denotes: raw
    amounts are taken below 2^53, where no two of them round to the same
    double. *)
Definition analyzeTransaction (tx : Tx) (wallet : string) : TxChange :=
  let result :=
    {| acquired := false; sold := false; date := blockTime tx * 1000; post_amount := 0 |} in
  match meta tx with
  | Some {| preTokenBalances := Some pres; postTokenBalances := Some posts |} =>
      let preBalance := List.find (tracks wallet) pres in
      let postBalance := List.find (tracks wallet) posts in
      match preBalance, postBalance with
      | Some preB, Some postB =>
          let pre := uiTokenAmount preB in
          let post := uiTokenAmount postB in
          {| acquired := pre <? post;
             sold := post <? pre;
             date := date result;
             post_amount := post |}
      | _, _ => result
      end
  | _ => result
  end.

(** solana-service.js, [getEligibilityReason]. *)
Definition getEligibilityReason
    (currentBalance : Z) (hasSold : bool) (firstAcquired : option Z) (holdingDays : Z)
    : string :=
  if currentBalance <? CONFIG.MIN_TOKENS then
    "Insufficient balance (" +:+ toLocaleString currentBalance +:+ " < "
      +:+ toLocaleString CONFIG.MIN_TOKENS +:+ ")"
  else if CONFIG.MAX_TOKENS <? currentBalance then
    "Balance exceeds maximum limit (" +:+ toLocaleString currentBalance +:+ " > "
      +:+ toLocaleString CONFIG.MAX_TOKENS +:+ ")"
  else if hasSold then
    "Has sold KOKO in the past"
  else if negb (bool_decide (is_Some firstAcquired)) then
    "Unable to determine first acquisition"
  else if holdingDays <? CONFIG.MONTHS_REQUIRED * 30 then
    "Insufficient holding time (" +:+ toString holdingDays +:+ " days < "
      +:+ toString (CONFIG.MONTHS_REQUIRED * 30) +:+ " days)"
  else
    "Meets all eligibility criteria".

(** The three variables the scan loop of [processWalletTransactions]
    mutates. *)
Record Scan := {
  s_firstAcquired : option Z;
  s_maxHeld : Z;
  s_hasSold : bool
}.

(** [acquired && (!firstAcquired || date < firstAcquired)] *)
Definition earlier (date : Z) (firstAcquired : option Z) : bool :=
  match firstAcquired with
  | None => true
  | Some f => date <? f
  end.

(** The [for (const tx of transactions)] loop of
    [processWalletTransactions], with its [break]. *)
Fixpoint scan (wallet : string) (transactions : list Tx) (st : Scan) : Scan :=
  match transactions with
  | [] => st
  | tx :: rest =>
      let c := analyzeTransaction tx wallet in
      let maxHeld := Z.max (s_maxHeld st) (post_amount c) in
      let firstAcquired :=
        if acquired c && earlier (date c) (s_firstAcquired st)
        then Some (date c) else s_firstAcquired st in
      if sold c then
        {| s_firstAcquired := firstAcquired; s_maxHeld := maxHeld; s_hasSold := true |}
      else
        scan wallet rest
          {| s_firstAcquired := firstAcquired; s_maxHeld := maxHeld;
             s_hasSold := s_hasSold st |}
  end.

Definition msPerDay : Z := 1000 * 60 * 60 * 24.

(** [firstAcquired ? Math.floor((Date.now() - firstAcquired.getTime()) / msPerDay) : 0] *)
Definition holdingDaysOf (now : Z) (firstAcquired : option Z) : Z :=
  match firstAcquired with
  | Some f => (now - f) / msPerDay
  | None => 0
  end.

(** solana-service.js, [processWalletTransactions]; [now] is the value
    [Date.now()] returns when the loop is over. *)
Definition processWalletTransactions
    (now : Z) (wallet : string) (currentBalance : Z) (transactions : list Tx) : Analysis :=
  match transactions with
  | [] =>
      {| isEligible := false;
         reason := "No transaction history found";
         firstAcquired := None;
         maxHeld := currentBalance;
         hasSold := false;
         holdingDays := 0 |}
  | _ =>
      let st := scan wallet transactions
        {| s_firstAcquired := None; s_maxHeld := currentBalance; s_hasSold := false |} in
      let holdingDays := holdingDaysOf now (s_firstAcquired st) in
      let isEligible :=
        js_and (js_and (js_and (js_and
          (CONFIG.MIN_TOKENS <=? currentBalance)
          (currentBalance <=? CONFIG.MAX_TOKENS))
          (present (s_firstAcquired st)))
          (negb (s_hasSold st)))
          (CONFIG.MONTHS_REQUIRED * 30 <=? holdingDays) in
      {| isEligible := isEligible;
         reason := getEligibilityReason currentBalance (s_hasSold st)
                     (s_firstAcquired st) holdingDays;
         firstAcquired := s_firstAcquired st;
         maxHeld := s_maxHeld st;
         hasSold := s_hasSold st;
         holdingDays := holdingDays |}
  end.

(** The object built by the [catch] block of [analyzeWallet]. *)
Definition errorAnalysis (currentBalance : Z) : Analysis :=
  {| isEligible := false;
     reason := "Error during analysis";
     firstAcquired := None;
     maxHeld := currentBalance;
     hasSold := false;
     holdingDays := 0 |}.

(** ** The world the asynchronous code runs in *)

(** A thrown JavaScript value: [undefined], or an [Error] with its message. *)
Inductive JSError :=
  | EUndefined
  | EError (message : string).

Inductive Result (A : Type) :=
  | Ok (a : A)
  | Throw (e : JSError).
Arguments Ok {A} a.
Arguments Throw {A} e.

(** What a remote request answers. *)
Inductive Reply (A : Type) :=
  | Served (a : A)
  | Refused (e : JSError).
Arguments Served {A} a.
Arguments Refused {A} e.

(** The timers the code sets ([Sleep], the delay of the [setTimeout] it
    awaits) and, as ghost events, the attempts of the retried operations
    and the failures they caught. *)
Inductive Event :=
  | Invoke (attempt : nat)
  | Failed (attempt : nat) (e : JSError)
  | Sleep (ms : Z).

(** The values the program stores in the cache: the holder list under
    [all_holders], transaction lists under [tx_history_<wallet>], analyses
    under [analysis_<wallet>] and under the bare owner address. *)
Inductive CacheValue :=
  | CHolders (l : list Holder)
  | CTransactions (l : list Tx)
  | CAnalysis (a : Analysis).

(** [DiamondHandsAnalyzer.stats] (without [startTime]). *)
Record Stats := {
  processed : nat;
  eligible : nat;
  errors : nat
}.

(** A row of the report (csv-writer.js header ids). *)
Record CsvRecord := {
  status : string;
  r_owner : string;
  currentAmount : string;
  r_maxHeld : string;
  airdropShare : string;
  r_holdingDays : Z;
  r_firstAcquired : string;
  everSold : string;
  r_reason : string;
  verdict : string
}.

Record World := {
  (* the remote chain: the answer to the n-th request *)
  transactionsOf : nat -> string -> Reply (list Tx);
  programAccounts : nat -> Reply (list Holder);
  requests : nat;
  (* Date.now(), timers, Logger *)
  clock : Z;
  trace : list Event;
  console : list string;
  (* CacheManager.cache of an instance whose init has loaded the file *)
  cache : gmap string CacheValue;
  (* SolanaService.processedWallets *)
  processedWallets : gset string;
  (* DiamondHandsAnalyzer: stats, the locals of analyze(), csvWriter.records *)
  stats : Stats;
  eligibleHolders : list (Holder * Analysis);
  totalEligibleKoko : Z;
  records : list (string * CsvRecord)
}.

Definition set_requests (f : nat -> nat) (w : World) : World :=
  {| transactionsOf := transactionsOf w; programAccounts := programAccounts w;
     requests := f (requests w); clock := clock w; trace := trace w;
     console := console w; cache := cache w; processedWallets := processedWallets w;
     stats := stats w; eligibleHolders := eligibleHolders w;
     totalEligibleKoko := totalEligibleKoko w; records := records w |}.

Definition set_clock (f : Z -> Z) (w : World) : World :=
  {| transactionsOf := transactionsOf w; programAccounts := programAccounts w;
     requests := requests w; clock := f (clock w); trace := trace w;
     console := console w; cache := cache w; processedWallets := processedWallets w;
     stats := stats w; eligibleHolders := eligibleHolders w;
     totalEligibleKoko := totalEligibleKoko w; records := records w |}.

Definition set_trace (f : list Event -> list Event) (w : World) : World :=
  {| transactionsOf := transactionsOf w; programAccounts := programAccounts w;
     requests := requests w; clock := clock w; trace := f (trace w);
     console := console w; cache := cache w; processedWallets := processedWallets w;
     stats := stats w; eligibleHolders := eligibleHolders w;
     totalEligibleKoko := totalEligibleKoko w; records := records w |}.

Definition set_console (f : list string -> list string) (w : World) : World :=
  {| transactionsOf := transactionsOf w; programAccounts := programAccounts w;
     requests := requests w; clock := clock w; trace := trace w;
     console := f (console w); cache := cache w; processedWallets := processedWallets w;
     stats := stats w; eligibleHolders := eligibleHolders w;
     totalEligibleKoko := totalEligibleKoko w; records := records w |}.

Definition set_cache (f : gmap string CacheValue -> gmap string CacheValue) (w : World)
    : World :=
  {| transactionsOf := transactionsOf w; programAccounts := programAccounts w;
     requests := requests w; clock := clock w; trace := trace w;
     console := console w; cache := f (cache w); processedWallets := processedWallets w;
     stats := stats w; eligibleHolders := eligibleHolders w;
     totalEligibleKoko := totalEligibleKoko w; records := records w |}.

Definition set_processedWallets (f : gset string -> gset string) (w : World) : World :=
  {| transactionsOf := transactionsOf w; programAccounts := programAccounts w;
     requests := requests w; clock := clock w; trace := trace w;
     console := console w; cache := cache w; processedWallets := f (processedWallets w);
     stats := stats w; eligibleHolders := eligibleHolders w;
     totalEligibleKoko := totalEligibleKoko w; records := records w |}.

Definition set_stats (f : Stats -> Stats) (w : World) : World :=
  {| transactionsOf := transactionsOf w; programAccounts := programAccounts w;
     requests := requests w; clock := clock w; trace := trace w;
     console := console w; cache := cache w; processedWallets := processedWallets w;
     stats := f (stats w); eligibleHolders := eligibleHolders w;
     totalEligibleKoko := totalEligibleKoko w; records := records w |}.

Definition set_eligibleHolders
    (f : list (Holder * Analysis) -> list (Holder * Analysis)) (w : World) : World :=
  {| transactionsOf := transactionsOf w; programAccounts := programAccounts w;
     requests := requests w; clock := clock w; trace := trace w;
     console := console w; cache := cache w; processedWallets := processedWallets w;
     stats := stats w; eligibleHolders := f (eligibleHolders w);
     totalEligibleKoko := totalEligibleKoko w; records := records w |}.

Definition set_totalEligibleKoko (f : Z -> Z) (w : World) : World :=
  {| transactionsOf := transactionsOf w; programAccounts := programAccounts w;
     requests := requests w; clock := clock w; trace := trace w;
     console := console w; cache := cache w; processedWallets := processedWallets w;
     stats := stats w; eligibleHolders := eligibleHolders w;
     totalEligibleKoko := f (totalEligibleKoko w); records := records w |}.

Definition set_records
    (f : list (string * CsvRecord) -> list (string * CsvRecord)) (w : World) : World :=
  {| transactionsOf := transactionsOf w; programAccounts := programAccounts w;
     requests := requests w; clock := clock w; trace := trace w;
     console := console w; cache := cache w; processedWallets := processedWallets w;
     stats := stats w; eligibleHolders := eligibleHolders w;
     totalEligibleKoko := totalEligibleKoko w; records := f (records w) |}.

(** ** State-and-exception monad

    A computation runs from a world to a result and the world it leaves;
    what was mutated before a [throw] stays mutated. *)

Definition M (A : Type) : Type := World -> Result A * World.

Definition ret {A} (a : A) : M A := fun w => (Ok a, w).

Definition bind {A B} (m : M A) (k : A -> M B) : M B :=
  fun w =>
    match m w with
    | (Ok a, w') => k a w'
    | (Throw e, w') => (Throw e, w')
    end.

Definition throw {A} (e : JSError) : M A := fun w => (Throw e, w).

(** [try { m } catch (error) { h error }] *)
Definition try_catch {A} (m : M A) (h : JSError -> M A) : M A :=
  fun w =>
    match m w with
    | (Ok a, w') => (Ok a, w')
    | (Throw e, w') => h e w'
    end.

Definition gets {A} (f : World -> A) : M A := fun w => (Ok (f w), w).
Definition modify (f : World -> World) : M unit := fun w => (Ok tt, f w).

Notation "'let*' x ':=' c 'in' k" := (bind c (fun x => k))
  (at level 10, x name, c at level 100, k at level 200).
Notation "c ';;' k" := (bind c (fun _ => k))
  (at level 100, k at level 200, right associativity).

(** [await new Promise(resolve => setTimeout(resolve, ms))] *)
Definition sleep (ms : Z) : M unit :=
  modify (fun w => set_clock (fun t => t + ms) (set_trace (fun tr => tr ++ [Sleep ms]) w)).

Definition ghost (e : Event) : M unit :=
  modify (set_trace (fun tr => tr ++ [e])).

(** [Logger.error] / [Logger.info]: one line on the console. *)
Definition Logger (line : string) : M unit :=
  modify (set_console (fun c => c ++ [line])).

(** [Logger.warn]. The class [Logger] (utils/logger.js) defines
    [showWelcome], [success], [error], [info] and [progress] and no
    [warn]: the call throws a [TypeError] and prints nothing. *)
Definition Logger_warn (line : string) : M unit :=
  throw (EError "TypeError: Logger.warn is not a function").

Definition when (b : bool) (m : M unit) : M unit := if b then m else ret tt.

(** [Array.prototype.slice] in steps of [size]: the successive batches
    [items.slice(i, i + size)] for [i = 0, size, 2 size, ...]. *)
Fixpoint batches_fuel {A} (fuel : nat) (size : nat) (items : list A) : list (list A) :=
  match fuel, items with
  | _, [] => []
  | O, _ => []
  | S fuel', _ => take size items :: batches_fuel fuel' size (drop size items)
  end.

Definition batches {A} (size : nat) (items : list A) : list (list A) :=
  batches_fuel (length items) size items.

(** Running a list of computations one after the other. *)
Fixpoint mapM {A B} (f : A -> M B) (l : list A) : M (list B) :=
  match l with
  | [] => ret []
  | x :: rest =>
      let* y := f x in
      let* ys := mapM f rest in
      ret (y :: ys)
  end.

(** ** RetryExecutor: [withRetry] *)

(** [Math.min(minTimeout * Math.pow(2, attempt - 1), maxTimeout)] *)
Definition backoff (options : CONFIG.RetryOptions) (attempt : nat) : Z :=
  Z.min (CONFIG.minTimeout options * 2 ^ Z.of_nat (attempt - 1)) (CONFIG.maxTimeout options).

(** The [for (let attempt = 1; attempt <= options.retries; attempt++)] loop
    of [withRetry]; [remaining] counts the iterations still to run, and
    the [throw lastError] after the loop is its base case. *)
Fixpoint withRetry_loop {A} (fn : M A) (options : CONFIG.RetryOptions)
    (remaining : nat) (attempt : nat) (lastError : JSError) : M A :=
  match remaining with
  | O => throw lastError
  | S remaining' =>
      ghost (Invoke attempt) ;;
      try_catch fn (fun error =>
        ghost (Failed attempt error) ;;
        when (attempt <? CONFIG.retries options)%nat (sleep (backoff options attempt)) ;;
        withRetry_loop fn options remaining' (S attempt) error)
  end.

Definition withRetry {A} (fn : M A) (options : CONFIG.RetryOptions) : M A :=
  withRetry_loop fn options (CONFIG.retries options) 1 EUndefined.

(** ** SolanaService *)

(** The fields the constructor sets: [this.retryLimit], [this.retryDelay]. *)
Definition retryLimit : nat := 3.
Definition retryDelay : Z := 2000.

Definition cacheManager_get (key : string) : M (option CacheValue) :=
  gets (fun w => cache w !! key).

Definition cacheManager_set (key : string) (value : CacheValue) : M unit :=
  modify (set_cache (fun c => <[key := value]> c)).

(** The cache holds under each key a value of the shape the program wrote
    there. An entry of another shape is not produced by the program; the
    embedding raises a [TypeError] where such an entry is read. *)
Definition asHolders (v : CacheValue) : M (list Holder) :=
  match v with CHolders l => ret l | _ => throw (EError "TypeError") end.
Definition asTransactions (v : CacheValue) : M (list Tx) :=
  match v with CTransactions l => ret l | _ => throw (EError "TypeError") end.
Definition asAnalysis (v : CacheValue) : M Analysis :=
  match v with CAnalysis a => ret a | _ => throw (EError "TypeError") end.

(** The [catch] block shared, word for word, by [fetchHoldersWithRetry]
    and [fetchTransactionsWithRetry]: while [attempt < this.retryLimit],
    the call of [Logger.warn], the linear delay and the recursive call
    with [attempt + 1]; the error rethrown otherwise. [fuel] bounds the
    recursion depth by the attempts that remain. *)
Fixpoint retryFrom {A} (what : string) (request : M A) (fuel : nat) (attempt : nat) : M A :=
  ghost (Invoke attempt) ;;
  try_catch request (fun error =>
    ghost (Failed attempt error) ;;
    if (attempt <? retryLimit)%nat then
      Logger_warn ("Retry attempt " +:+ toString (Z.of_nat attempt) +:+ " for " +:+ what) ;;
      sleep (retryDelay * Z.of_nat attempt) ;;
      match fuel with
      | S fuel' => retryFrom what request fuel' (S attempt)
      | O => throw error
      end
    else throw error).

(** [getParsedProgramAccounts] answers the token accounts of the mint as
    (owner, uiAmount) pairs; the [filter] keeps those of at least
    [MIN_TOKENS]. *)
Definition requestHolders : M (list Holder) :=
  fun w =>
    let w' := set_requests S w in
    match programAccounts w (requests w) with
    | Served accounts =>
        (Ok (filter (fun acc => bool_decide (CONFIG.MIN_TOKENS <= amount acc)) accounts), w')
    | Refused e => (Throw e, w')
    end.

Definition fetchHoldersWithRetry (attempt : nat) : M (list Holder) :=
  retryFrom "fetchHolders" requestHolders (retryLimit - attempt) attempt.

Definition getAllHolders : M (list Holder) :=
  let* holders := cacheManager_get "all_holders" in
  match holders with
  | Some v => Logger "Using cached holders list" ;; asHolders v
  | None =>
      try_catch
        (let* holders := fetchHoldersWithRetry 1 in
         cacheManager_set "all_holders" (CHolders holders) ;;
         ret holders)
        (fun error => Logger "Error fetching holders:" ;; throw error)
  end.

(** [tx.meta?.preTokenBalances || []] *)
Definition balancesOrEmpty (l : option (list TokenBalance)) : list TokenBalance :=
  default [] l.

Definition filterRelevantTransactions (transactions : list Tx) : list Tx :=
  filter (fun tx =>
    let tokenBalances :=
      balancesOrEmpty (meta tx ≫= preTokenBalances) ++
      balancesOrEmpty (meta tx ≫= postTokenBalances) in
    Is_true (existsb (fun balance => String.eqb (mint balance) CONFIG.KOKO_TOKEN)
               tokenBalances))
    transactions.

(** The [try] block of [fetchTransactionsWithRetry], as one request to
    the chain: the relevant transactions of the wallet, or the error the
    signature listing threw. The requests the block is made of (a page of
    signatures per thousand, a request per signature) and its pauses of
    100 ms are those of [fetchAllSignatures] and
    [fetchTransactionDetails] below; here an attempt counts as one
    request and takes no time, so the worlds of this level tell which
    attempts were made and what they answered, not how many requests or
    how much time an attempt took. *)
Definition requestTransactions (pubKey : string) : M (list Tx) :=
  fun w =>
    let w' := set_requests S w in
    match transactionsOf w (requests w) pubKey with
    | Served transactions => (Ok (filterRelevantTransactions transactions), w')
    | Refused e => (Throw e, w')
    end.

Definition fetchTransactionsWithRetry (pubKey : string) (attempt : nat) : M (list Tx) :=
  retryFrom ("wallet " +:+ pubKey) (requestTransactions pubKey) (retryLimit - attempt) attempt.

(** [getTransactionHistory]. The wallet is taken to be a well-formed
    address: [new PublicKey(wallet)] does not throw. *)
Definition getTransactionHistory (wallet : string) : M (list Tx) :=
  let cacheKey := "tx_history_" +:+ wallet in
  let* cachedHistory := cacheManager_get cacheKey in
  match cachedHistory with
  | Some v => asTransactions v
  | None =>
      try_catch
        (let* transactions := fetchTransactionsWithRetry wallet 1 in
         (* Only cache if we got meaningful results *)
         when (0 <? length transactions)%nat
           (cacheManager_set cacheKey (CTransactions transactions)) ;;
         ret transactions)
        (fun error =>
           Logger ("Error fetching history for " +:+ wallet +:+ ":") ;;
           ret [])
  end.

(** [analyzeWallet]; [None] is the [null] it returns for a wallet already
    in [processedWallets]. *)
Definition analyzeWallet (wallet : string) (currentBalance : Z) : M (option Analysis) :=
  try_catch
    (let* seen := gets (fun w => bool_decide (wallet ∈ processedWallets w)) in
     if seen : bool then ret None
     else
       modify (set_processedWallets (fun s => s ∪ {[wallet]})) ;;
       let cacheKey := "analysis_" +:+ wallet in
       let* cachedAnalysis := cacheManager_get cacheKey in
       match cachedAnalysis with
       | Some v => let* a := asAnalysis v in ret (Some a)
       | None =>
           let* transactions := getTransactionHistory wallet in
           let* now := gets clock in
           let analysis :=
             processWalletTransactions now wallet currentBalance transactions in
           when (truthy (isEligible analysis) || (0 <? length transactions)%nat)
             (cacheManager_set cacheKey (CAnalysis analysis)) ;;
           ret (Some analysis)
       end)
    (fun error =>
       Logger ("Error analyzing " +:+ wallet +:+ ":") ;;
       ret (Some (errorAnalysis currentBalance))).

(** ** BatchProcessor

    [process] awaits each batch before it starts the next one: workers of
    different batches never overlap. Inside a batch the source starts up
    to [CONCURRENT_LIMIT] workers at once and interleaves them at their
    [await]s, and a worker that throws rejects [Promise.all] while the
    limiter goes on with the queue. The embedding runs the workers of a
    batch one after the other in list order and stops at the first throw;
    how the workers of one batch interleave is not modelled. *)
Definition process {A B} (batchSize : nat) (items : list A) (processFn : A -> M B)
    : M (list B) :=
  let* results := mapM (fun batch => mapM processFn batch) (batches batchSize items) in
  ret (concat results).

(** ** EnhancedCsvWriter *)

(** [Map.prototype.set] on an insertion-ordered map. *)
Fixpoint map_set {V} (key : string) (value : V) (m : list (string * V)) : list (string * V) :=
  match m with
  | [] => [(key, value)]
  | (k, v) :: rest =>
      if String.eqb k key then (k, value) :: rest
      else (k, v) :: map_set key value rest
  end.

(** [updateRecord]: [{...this.records.get(key), ...data}] is [data], the
    only caller passing every field of the row. The write of the file
    that follows ([scheduleWrite]) is outside the embedding and taken to
    succeed; where it rejects, the source leaves the row in the map and
    throws to the worker. *)
Definition updateRecord (key : string) (data : CsvRecord) : M unit :=
  modify (set_records (map_set key data)).

(** ** DiamondHandsAnalyzer *)

Definition ELIGIBLE : string := "💎 ELIGIBLE".
Definition INELIGIBLE : string := "❌ INELIGIBLE".

(** [updateCsvRecord], for an analysis made or cached by this run:
    [firstAcquired] is [null] or a [Date]. An analysis the cache loaded
    from its file carries the ISO text of the date instead, on which
    [toISOString] is not a function: the source then throws a [TypeError]
    to the worker, a case the typed cache of the embedding leaves out. *)
Definition updateCsvRecord (holder : Holder) (analysis : Analysis) : M unit :=
  updateRecord (owner holder)
    {| status := if truthy (isEligible analysis) then ELIGIBLE else INELIGIBLE;
       r_owner := owner holder;
       currentAmount := toLocaleString (amount holder);
       r_maxHeld := toLocaleString (maxHeld analysis);
       airdropShare := if truthy (isEligible analysis) then "0" else "N/A";
       r_holdingDays := holdingDays analysis;
       r_firstAcquired :=
         match firstAcquired analysis with
         | Some t => toISOString t
         | None => "Unknown"
         end;
       everSold := if hasSold analysis then "❌ YES" else "✅ NO";
       r_reason := reason analysis;
       verdict := if truthy (isEligible analysis) then "✅ YES" else "❌ NO" |}.

Definition bump_processed (s : Stats) : Stats :=
  {| processed := S (processed s); eligible := eligible s; errors := errors s |}.
Definition bump_eligible (s : Stats) : Stats :=
  {| processed := processed s; eligible := S (eligible s); errors := errors s |}.
Definition bump_errors (s : Stats) : Stats :=
  {| processed := processed s; eligible := eligible s; errors := S (errors s) |}.

(** The worker [processBatch] of [analyze]; [None] is [null]. *)
Definition processBatch (holder : Holder) : M (option Analysis) :=
  try_catch
    ((* Check cache first *)
     let* cachedAnalysis := cacheManager_get (owner holder) in
     let* analysis :=
       match cachedAnalysis with
       | Some v => let* a := asAnalysis v in ret (Some a)
       | None =>
           let* analysis := analyzeWallet (owner holder) (amount holder) in
           match analysis with
           | Some a => cacheManager_set (owner holder) (CAnalysis a)
           | None => ret tt
           end ;;
           ret analysis
       end in
     match analysis with
     | None => ret None
     | Some analysis =>
         when (truthy (isEligible analysis))
           (modify (set_eligibleHolders (fun l => l ++ [(holder, analysis)])) ;;
            modify (set_totalEligibleKoko (fun t => t + amount holder)) ;;
            modify (set_stats bump_eligible)) ;;
         updateCsvRecord holder analysis ;;
         modify (set_stats bump_processed) ;;
         ret (Some analysis)
     end)
    (fun error =>
       modify (set_stats bump_errors) ;;
       Logger ("Error analyzing " +:+ owner holder +:+ ":") ;;
       ret None).

(** [Number.prototype.toFixed(4)] of the quotient [num / den], computed
    on the exact quotient: the nearest multiple of 0.0001, ties away from
    zero. [toFixed4_units] is the magnitude of the result in units of
    0.0001. The source applies [toFixed(4)] to the double
    [(amount / total) * 100]; the two agree where that double is the
    exact quotient, as for 60,000,000 of 120,000,000, and may differ by
    one unit where the exact quotient is a tie: 60,000,000 of
    320,000,000,000 is 0.01875 and prints as [0.0188] here, while the
    double lies below it and prints as [0.0187]. *)
Definition toFixed4_units (num den : Z) : Z :=
  (2 * Z.abs num * 10000 + Z.abs den) / (2 * Z.abs den).

Definition toFixed4 (num den : Z) : string :=
  let units := toFixed4_units num den in
  let text := toString (units / 10000) +:+ "." +:+ pad 4 (units mod 10000) in
  if num * den <? 0 then "-" +:+ text else text.

(** [((amount / totalEligibleKoko) * 100).toFixed(4)], [amount] being the
    result of [parseFloat]. *)
Definition shareText (amount : option Z) (totalEligibleKoko : Z) : string :=
  match amount with
  | None => "NaN"
  | Some a =>
      if totalEligibleKoko =? 0 then
        (if a =? 0 then "NaN" else if 0 <? a then "Infinity" else "-Infinity")
      else toFixed4 (a * 100) totalEligibleKoko
  end.

(** The body of [batch.forEach] in [updateAirdropShares]. *)
Definition updateShare (totalEligibleKoko : Z) (record : CsvRecord) : CsvRecord :=
  if String.eqb (status record) ELIGIBLE then
    let amount := parseFloat (removeCommas (currentAmount record)) in
    {| status := status record; r_owner := r_owner record;
       currentAmount := currentAmount record; r_maxHeld := r_maxHeld record;
       airdropShare := shareText amount totalEligibleKoko;
       r_holdingDays := r_holdingDays record; r_firstAcquired := r_firstAcquired record;
       everSold := everSold record; r_reason := r_reason record;
       verdict := verdict record |}
  else record.

(** One round of the loop of [updateAirdropShares]: the record objects of
    the batch are mutated in place (a record is found again in the map by
    its key, unique there), then the loop pauses for 100 ms. *)
Definition updateBatch (totalEligibleKoko : Z) (batch : list (string * CsvRecord))
    : M unit :=
  modify (set_records (fun rs =>
    map (fun kv => if existsb (String.eqb kv.1) (map fst batch)
                   then (kv.1, updateShare totalEligibleKoko kv.2) else kv) rs)) ;;
  sleep 100.

(** [updateAirdropShares]: the batches of 1000 records, then
    [this.csvWriter.flush()], a method [EnhancedCsvWriter] does not
    define: the call throws a [TypeError]. *)
Definition updateAirdropShares (totalEligibleKoko : Z) : M unit :=
  let batchSize := 1000%nat in
  let* records := gets records in
  mapM (updateBatch totalEligibleKoko) (batches batchSize records) ;;
  throw (EError "TypeError: this.csvWriter.flush is not a function").

(** [analyze], from the holder list to the share pass. The welcome banner,
    the spinner and [displayResults] are presentation and left out. *)
Definition analyze : M unit :=
  try_catch
    (let* holders := getAllHolders in
     (* this.csvWriter = new EnhancedCsvWriter(..) *)
     modify (set_records (fun _ => [])) ;;
     (* let totalEligibleKoko = 0; const eligibleHolders = []; *)
     modify (set_totalEligibleKoko (fun _ => 0)) ;;
     modify (set_eligibleHolders (fun _ => [])) ;;
     (* Process all holders in batches *)
     process 50 holders processBatch ;;
     (* Update airdrop shares *)
     let* totalEligibleKoko := gets totalEligibleKoko in
     when (0 <? totalEligibleKoko) (updateAirdropShares totalEligibleKoko))
    (fun error => Logger "Fatal error:" ;; throw error).

(** diamond-hands-analyzer.js, [analyzeTransaction]. *)
Definition tracks' (walletAddress : string) (b : TokenBalance) : bool :=
  String.eqb (tb_owner b) walletAddress && String.eqb (mint b) CONFIG.KOKO_TOKEN.

Definition analyzeTransaction' (tx : Tx) (walletAddress : string) : TxChange :=
  let result :=
    {| acquired := false; sold := false; date := blockTime tx * 1000; post_amount := 0 |} in
  let preBalance := (meta tx ≫= preTokenBalances) ≫= List.find (tracks' walletAddress) in
  let postBalance := (meta tx ≫= postTokenBalances) ≫= List.find (tracks' walletAddress) in
  match preBalance, postBalance with
  | Some preB, Some postB =>
      let pre := uiTokenAmount preB in
      let post := uiTokenAmount postB in
      {| acquired := pre <? post;
         sold := post <? pre;
         date := date result;
         post_amount := post |}
  | _, _ => result
  end.

(** diamond-hands-analyzer.js, [getStatusReason]. *)
Definition getStatusReason (holder : Holder)
    (firstAcquired : option Z) (hasSold : bool) (holdingDays : Z) : string :=
  if amount holder <? CONFIG.MIN_TOKENS then
    "Insufficient balance (" +:+ toLocaleString (amount holder) +:+ " < "
      +:+ toLocaleString CONFIG.MIN_TOKENS +:+ ")"
  else if CONFIG.MAX_TOKENS <? amount holder then
    "Balance exceeds maximum limit (" +:+ toLocaleString (amount holder) +:+ " > "
      +:+ toLocaleString CONFIG.MAX_TOKENS +:+ ")"
  else if hasSold then
    "Has sold KOKO in the past"
  else if negb (bool_decide (is_Some firstAcquired)) then
    "No acquisition history found"
  else if holdingDays <? CONFIG.MONTHS_REQUIRED * 30 then
    "Insufficient holding time (" +:+ toString holdingDays +:+ " days < "
      +:+ toString (CONFIG.MONTHS_REQUIRED * 30) +:+ " days)"
  else
    "Meets all eligibility criteria".

(** The loop of [analyzeHolder]: the [break] comes before the update of
    [maxHeld]. *)
Fixpoint scan' (walletAddress : string) (transactions : list Tx) (st : Scan) : Scan :=
  match transactions with
  | [] => st
  | tx :: rest =>
      let changes := analyzeTransaction' tx walletAddress in
      let firstAcquired :=
        if acquired changes && earlier (date changes) (s_firstAcquired st)
        then Some (date changes) else s_firstAcquired st in
      if sold changes then
        {| s_firstAcquired := firstAcquired; s_maxHeld := s_maxHeld st; s_hasSold := true |}
      else
        scan' walletAddress rest
          {| s_firstAcquired := firstAcquired;
             s_maxHeld := if s_maxHeld st <? post_amount changes
                          then post_amount changes else s_maxHeld st;
             s_hasSold := s_hasSold st |}
  end.

(** diamond-hands-analyzer.js, [analyzeHolder]. *)
Definition analyzeHolder (holder : Holder) : M Analysis :=
  let* transactions := getTransactionHistory (owner holder) in
  let st := scan' (owner holder) transactions
    {| s_firstAcquired := None; s_maxHeld := amount holder; s_hasSold := false |} in
  let* now := gets clock in
  let holdingDays := holdingDaysOf now (s_firstAcquired st) in
  let isEligible :=
    js_and (js_and (js_and
      (CONFIG.MIN_TOKENS <=? amount holder)
      (present (s_firstAcquired st)))
      (negb (s_hasSold st)))
      (CONFIG.MONTHS_REQUIRED * 30 <=? holdingDays) in
  ret {| isEligible := isEligible;
         firstAcquired := s_firstAcquired st;
         maxHeld := s_maxHeld st;
         hasSold := s_hasSold st;
         holdingDays := holdingDays;
         reason := getStatusReason holder (s_firstAcquired st) (s_hasSold st) holdingDays |}.

(** ** The eligibility rule and the reason priority, in the words of the
    specification *)

(** Written after the specification's wording, for comparison with the
    source: balance in
    [MIN_TOKENS, MAX_TOKENS], first acquisition known, never sold, held
    for at least [MONTHS_REQUIRED * 30] days. *)
Definition eligible_spec (currentBalance : Z) (a : Analysis) : Prop :=
  CONFIG.MIN_TOKENS <= currentBalance /\
  currentBalance <= CONFIG.MAX_TOKENS /\
  firstAcquired a <> None /\
  hasSold a = false /\
  CONFIG.MONTHS_REQUIRED * 30 <= holdingDays a.



(** The five failing conditions, in the priority order of the spec. *)
Inductive Condition :=
  | BalanceTooLow
  | BalanceTooHigh
  | HasSold
  | NoAcquisitionFound
  | HoldingPeriodTooShort.

Definition priority : list Condition :=
  [BalanceTooLow; BalanceTooHigh; HasSold; NoAcquisitionFound; HoldingPeriodTooShort].

Definition fails (currentBalance : Z) (hasSold : bool) (firstAcquired : option Z)
    (holdingDays : Z) (c : Condition) : bool :=
  match c with
  | BalanceTooLow => currentBalance <? CONFIG.MIN_TOKENS
  | BalanceTooHigh => CONFIG.MAX_TOKENS <? currentBalance
  | HasSold => hasSold
  | NoAcquisitionFound => negb (bool_decide (is_Some firstAcquired))
  | HoldingPeriodTooShort => holdingDays <? CONFIG.MONTHS_REQUIRED * 30
  end.

(** The text reported for a failing condition; [noAcquisition] is the
    wording of the function at hand. *)
Definition reasonText (noAcquisition : string) (currentBalance holdingDays : Z)
    (c : Condition) : string :=
  match c with
  | BalanceTooLow =>
      "Insufficient balance (" +:+ toLocaleString currentBalance +:+ " < "
        +:+ toLocaleString CONFIG.MIN_TOKENS +:+ ")"
  | BalanceTooHigh =>
      "Balance exceeds maximum limit (" +:+ toLocaleString currentBalance +:+ " > "
        +:+ toLocaleString CONFIG.MAX_TOKENS +:+ ")"
  | HasSold => "Has sold KOKO in the past"
  | NoAcquisitionFound => noAcquisition
  | HoldingPeriodTooShort =>
      "Insufficient holding time (" +:+ toString holdingDays +:+ " days < "
        +:+ toString (CONFIG.MONTHS_REQUIRED * 30) +:+ " days)"
  end.

(** Written after the specification's wording, for comparison with the
    source: the first failing condition in priority order, else the success text. *)
Definition reason_by_priority (noAcquisition : string) (currentBalance : Z)
    (hasSold : bool) (firstAcquired : option Z) (holdingDays : Z) : string :=
  match List.find (fails currentBalance hasSold firstAcquired holdingDays) priority with
  | Some c => reasonText noAcquisition currentBalance holdingDays c
  | None => "Meets all eligibility criteria"
  end.

(** ** CacheManager (src/utils/cache-manager.js)

    The cache file is a JSON text. A text is identified with the document
    it denotes: [JSON.parse] of the text [JSON.stringify] printed gives
    back the printed document. *)

Module CacheManager.

#[local] Set Warnings "-register-all".

(** JSON documents. *)
Inductive JSON :=
  | JNull
  | JBool (b : bool)
  | JNum (n : Z)
  | JStr (s : string)
  | JArr (items : list JSON)
  | JObj (fields : list (string * JSON)).

(** The JavaScript values the program hands to the cache: JSON data, and
    also [undefined], [NaN] and [Date] objects. *)
Inductive JSValue :=
  | VUndefined
  | VNull
  | VBool (b : bool)
  | VNumber (n : Z)
  | VNaN
  | VString (s : string)
  | VDate (t : Z)
  | VArray (items : list JSValue)
  | VObject (fields : list (string * JSValue)).

(** [JSON.stringify], to the document it prints; [None] where it
    prints nothing ([undefined]). A [Date] is printed through its
    [toJSON], the ISO string; [NaN] and an [undefined] array element as
    [null]; an [undefined] object property is left out. *)
Fixpoint stringify (v : JSValue) : option JSON :=
  match v with
  | VUndefined => None
  | VNull => Some JNull
  | VBool b => Some (JBool b)
  | VNumber n => Some (JNum n)
  | VNaN => Some JNull
  | VString s => Some (JStr s)
  | VDate t => Some (JStr (toISOString t))
  | VArray items => Some (JArr (map (fun x => default JNull (stringify x)) items))
  | VObject fields =>
      Some (JObj (flat_map (fun kv =>
                    match kv with
                    | (k, x) => match stringify x with
                                | Some d => [(k, d)]
                                | None => []
                                end
                    end) fields))
  end.

(** [JSON.parse], from the document. *)
Fixpoint parse (d : JSON) : JSValue :=
  match d with
  | JNull => VNull
  | JBool b => VBool b
  | JNum n => VNumber n
  | JStr s => VString s
  | JArr items => VArray (map parse items)
  | JObj fields => VObject (map (fun kv => match kv with (k, x) => (k, parse x) end) fields)
  end.

(** JSON-serializable values: no [undefined], [NaN] or [Date] anywhere
    inside. *)
Fixpoint serializable (v : JSValue) : bool :=
  match v with
  | VUndefined | VNaN | VDate _ => false
  | VNull | VBool _ | VNumber _ | VString _ => true
  | VArray items => forallb serializable items
  | VObject fields => forallb (fun kv => match kv with (_, x) => serializable x end) fields
  end.

(** What [readFile] finds: a text that is no JSON, or a JSON text. *)
Inductive FileText :=
  | Garbled
  | Text (d : JSON).

(** The cache directory: whether [mkdir] and [writeFile] succeed there,
    and the content of [transactions.json] when the file exists. *)
Record Disk := {
  usable : bool;
  content : option FileText
}.

(** The fields of a [CacheManager]; [writeTimeout] is the time at which
    the pending timer fires, [None] when no timer is pending. *)
Record Instance := {
  cache : gmap string JSValue;
  initialized : bool;
  writeTimeout : option Z
}.

(** [new CacheManager(cacheDir)] *)
Definition new : Instance :=
  {| cache := ∅; initialized := false; writeTimeout := None |}.

Fixpoint indexed {A} (i : Z) (l : list A) : list (string * A) :=
  match l with
  | [] => []
  | x :: rest => (toString i, x) :: indexed (i + 1) rest
  end.

(** [Object.entries]; [None] where it throws a [TypeError]. *)
Definition entries (v : JSValue) : option (list (string * JSValue)) :=
  match v with
  | VUndefined | VNull => None
  | VObject fields => Some fields
  | VArray items => Some (indexed 0 items)
  | VString s =>
      Some (indexed 0 (map (fun c => VString (String c EmptyString))
                           (list_ascii_of_string s)))
  | _ => Some []
  end.

(** [new Map(entries)]: a later entry replaces an earlier one with the
    same key. *)
Definition Map_of (es : list (string * JSValue)) : gmap string JSValue :=
  foldl (fun m kv => <[kv.1 := kv.2]> m) ∅ es.

(** The [try] block of [init]: the map read from the file, [None] where
    the block throws: a failing [mkdir], a text that does not parse or a
    document [Object.entries] rejects. A file that cannot be read reads as
    ['{}']. *)
Definition load (disk : Disk) : option (gmap string JSValue) :=
  if usable disk then
    match default (Text (JObj [])) (content disk) with
    | Text d => Map_of <$> entries (parse d)
    | Garbled => None
    end
  else None.

(** cache-manager.js imports [mkdir], [readFile], [writeFile] and [join]
    and no [Logger]: the [Logger.error] of its two [catch] blocks throws
    this error. *)
Definition LoggerNotDefined : JSError :=
  EError "ReferenceError: Logger is not defined".

(** The methods return their outcome and the instance they leave. *)

(** [init]. Where the [try] block throws, the [catch] block throws in its
    turn: [init] rejects and the instance stays as it was, not
    initialized. *)
Definition init (disk : Disk) (c : Instance) : Result unit * Instance :=
  if initialized c then (Ok tt, c)
  else
    match load disk with
    | Some loaded =>
        (Ok tt,
         {| cache := loaded; initialized := true; writeTimeout := writeTimeout c |})
    | None => (Throw LoggerNotDefined, c)
    end.

(** [get]: the value under the key, [undefined] when there is none. *)
Definition get (disk : Disk) (key : string) (c : Instance) : Result JSValue * Instance :=
  match init disk c with
  | (Ok _, c) => (Ok (default VUndefined (cache c !! key)), c)
  | (Throw e, c) => (Throw e, c)
  end.

(** [scheduleWrite] at time [now]: the pending timer, if any, is
    cleared and a new one set 5000 ms ahead. *)
Definition scheduleWrite (now : Z) (c : Instance) : Instance :=
  {| cache := cache c; initialized := initialized c; writeTimeout := Some (now + 5000) |}.

(** [set] at time [now]. *)
Definition set (disk : Disk) (now : Z) (key : string) (value : JSValue) (c : Instance)
    : Result unit * Instance :=
  match init disk c with
  | (Ok _, c) =>
      (Ok tt,
       scheduleWrite now
         {| cache := <[key := value]> (cache c);
            initialized := initialized c;
            writeTimeout := writeTimeout c |})
  | (Throw e, c) => (Throw e, c)
  end.

(** [Object.fromEntries(this.cache)] *)
Definition fromEntries (m : gmap string JSValue) : JSValue :=
  VObject (map_to_list m).

(** The timer callback, with the disk it leaves: the whole map is written
    to the file. Where the write throws, the [catch] block throws in its
    turn: the promise of the callback, which nothing awaits, is
    rejected. *)
Definition flush (disk : Disk) (c : Instance) : Result unit * Disk :=
  if usable disk then
    match stringify (fromEntries (cache c)) with
    | Some d => (Ok tt, {| usable := usable disk; content := Some (Text d) |})
    | None => (Throw LoggerNotDefined, disk)
    end
  else (Throw LoggerNotDefined, disk).

(** Time passes until [now]: a pending timer whose time has come fires. *)
Definition elapse (now : Z) (disk : Disk) (c : Instance)
    : Result unit * (Disk * Instance) :=
  match writeTimeout c with
  | Some due =>
      if due <=? now then
        let written := flush disk c in
        (written.1,
         (written.2,
          {| cache := cache c; initialized := initialized c; writeTimeout := None |}))
      else (Ok tt, (disk, c))
  | None => (Ok tt, (disk, c))
  end.

End CacheManager.


(** ** What a retried operation leaves in the trace *)

(** The value a computation returned, if it returned. *)
Definition value_of {A} (r : Result A) : option A :=
  match r with Ok a => Some a | Throw _ => None end.

(** An operation that sets no timer and leaves the trace alone. *)
Definition quiet {A} (fn : M A) : Prop :=
  forall w, trace (fn w).2 = trace w.

(** The events of the failed attempts [attempt], [attempt + 1], ... with
    the errors they threw: each attempt below [limit] is followed by the
    sleep of its delay, the attempt number [limit] by none. *)
Fixpoint retry_events (delay : nat -> Z) (limit : nat) (attempt : nat)
    (failures : list JSError) : list Event :=
  match failures with
  | [] => []
  | e :: rest =>
      Invoke attempt :: Failed attempt e ::
      (if (attempt <? limit)%nat then [Sleep (delay attempt)] else []) ++
      retry_events delay limit (S attempt) rest
  end.

(** The delays slept in a trace. *)
Definition sleeps (tr : list Event) : list Z :=
  flat_map (fun ev => match ev with Sleep ms => [ms] | _ => [] end) tr.

(** Written after the claim on the retry, for comparison with the loop of
    [withRetry]: the runs the claim allows for a retried operation that
    is at attempt [k] in world [w], with the number of times they invoke
    the operation. The operation is invoked; what it returns is returned;
    its failure is, at an attempt below [retries], followed by a sleep of
    [min (minTimeout * 2 ^ (k - 1)) maxTimeout] and by the next attempt,
    and at the attempt number [retries] thrown as it is. *)
Inductive Retried {A} (fn : M A) (options : CONFIG.RetryOptions)
    : nat -> World -> nat -> Result A * World -> Prop :=
  | Retried_returned k w a w1 :
      (k <= CONFIG.retries options)%nat ->
      fn (set_trace (fun tr => tr ++ [Invoke k]) w) = (Ok a, w1) ->
      Retried fn options k w 1 (Ok a, w1)
  | Retried_again k w e w1 n out :
      (k < CONFIG.retries options)%nat ->
      fn (set_trace (fun tr => tr ++ [Invoke k]) w) = (Throw e, w1) ->
      Retried fn options (S k)
        (sleep (Z.min (CONFIG.minTimeout options * 2 ^ (Z.of_nat k - 1))
                      (CONFIG.maxTimeout options))
           (set_trace (fun tr => tr ++ [Failed k e]) w1)).2
        n out ->
      Retried fn options k w (S n) out
  | Retried_exhausted k w e w1 :
      k = CONFIG.retries options ->
      fn (set_trace (fun tr => tr ++ [Invoke k]) w) = (Throw e, w1) ->
      Retried fn options k w 1 (Throw e, set_trace (fun tr => tr ++ [Failed k e]) w1).

(** The number of times the operation was invoked in a trace. *)
Definition invocations (tr : list Event) : nat :=
  length (List.filter (fun ev => match ev with Invoke _ => true | _ => false end) tr).

(** ** Sample runs *)

Definition day : Z := 86400000.

(** A time of day on 2024-10-27, in milliseconds. *)
Definition now0 : Z := 1730000000000.

Definition wallet1 : string := "So11111111111111111111111111111111111111112".
Definition wallet2 : string := "Vote111111111111111111111111111111111111111".

Definition kokoBalance (who : string) (n : Z) : TokenBalance :=
  {| mint := CONFIG.KOKO_TOKEN; tb_owner := who; uiTokenAmount := n |}.

(** A transaction that moves the wallet's balance from [pre] to [post],
    [daysAgo] days before [now0]. *)
Definition transfer (daysAgo : Z) (who : string) (pre post : Z) : Tx :=
  {| blockTime := (now0 - daysAgo * day) / 1000;
     meta := Some {| preTokenBalances := Some [kokoBalance who pre];
                     postTokenBalances := Some [kokoBalance who post] |} |}.

(** A chain that answers every request with the history it is given. *)
Definition chainOf (history : string -> list Tx) : nat -> string -> Reply (list Tx) :=
  fun _ wallet => Served (history wallet).

(** A chain that refuses every request. *)
Definition deadChain : nat -> string -> Reply (list Tx) :=
  fun _ _ => Refused (EError "429 Too Many Requests").

Definition noAccounts : nat -> Reply (list Holder) := fun _ => Served [].

(** The world at the start of a run at time [now0]: nothing cached,
    nothing processed. *)
Definition startWorld (chain : nat -> string -> Reply (list Tx))
    (accounts : nat -> Reply (list Holder)) : World :=
  {| transactionsOf := chain; programAccounts := accounts; requests := 0;
     clock := now0; trace := []; console := [];
     cache := ∅; processedWallets := ∅;
     stats := {| processed := 0; eligible := 0; errors := 0 |};
     eligibleHolders := []; totalEligibleKoko := 0; records := [] |}.

(** One acquisition 200 days ago, nothing since. *)
Definition longHeld (who : string) (n : Z) : list Tx := [transfer 200 who 0 n].

(** Forty-nine further owners: 31 digits [1] and one more base-58 digit. *)
Definition fillerOwners : list string :=
  map (fun c => "1111111111111111111111111111111" +:+ String c EmptyString)
      (list_ascii_of_string "23456789ABCDEFGHJKLMNPQRSTUVWXYZabcdefghijkmnopqr").

(** Fifty-one token accounts: [wallet1] owns the first and the last one,
    which therefore fall into different batches of 50. *)
Definition duplicateAccounts : list Holder :=
  {| owner := wallet1; amount := 60000000 |}
  :: map (fun o => {| owner := o; amount := 50000000 |}) fillerOwners
  ++ [{| owner := wallet1; amount := 60000000 |}].

Definition duplicateWorld : World :=
  startWorld
    (chainOf (fun w => if String.eqb w wallet1 then longHeld wallet1 60000000 else []))
    (fun _ => Served duplicateAccounts).

(** The rows of the report that are marked eligible. *)
Definition eligibleRecords (w : World) : list CsvRecord :=
  filter (fun r => Is_true (String.eqb (status r) ELIGIBLE)) (map snd (records w)).

(** An airdrop share in units of 0.0001 (the text without its point). *)
Definition shareUnits (share : string) : option Z :=
  parseFloat (string_of_chars
                (filter (fun c => negb (Ascii.eqb c "."%char)) (list_ascii_of_string share))).

(** The sum of the shares of the eligible rows, in units of 0.0001; 100 %
    is 1000000. *)
Definition shareSum (w : World) : option Z :=
  foldr (fun r acc => x ← shareUnits (airdropShare r); s ← acc; Some (x + s))
        (Some 0) (eligibleRecords w).

(** Two owners, each with one token account. *)
Definition distinctWorld : World :=
  startWorld
    (chainOf (fun w => if String.eqb w wallet1 then longHeld wallet1 150000000
                       else if String.eqb w wallet2 then longHeld wallet2 50000000
                       else []))
    (fun _ => Served [{| owner := wallet1; amount := 150000000 |};
                      {| owner := wallet2; amount := 50000000 |}]).

(** ** SolanaService: one attempt of [fetchTransactionsWithRetry], request
    by request

    [requestTransactions] above takes the whole attempt as one answer of
    the chain. Here the attempt is unfolded into the requests it makes:
    the pages of signatures, then one request per signature. *)

(** What [fetchAllSignatures] keeps of a signature. *)
Record SignatureInfo := {
  signature : string;
  sig_blockTime : Z
}.

(** The two methods of [this.connection] the attempt calls; the first
    argument is the number of requests served so far. [getParsedTransaction]
    may answer [null] ([Served None]). *)
Record Connection := {
  getSignaturesForAddress : nat -> string -> option string -> Reply (list SignatureInfo);
  getParsedTransaction : nat -> string -> Reply (option Tx)
}.

(** [array.sort((a, b) => key(b) - key(a))]: a stable sort, largest key
    first. [insert_desc] puts an element in front of the first one whose
    key is not larger. *)
Fixpoint insert_desc {A} (key : A -> Z) (x : A) (l : list A) : list A :=
  match l with
  | [] => [x]
  | y :: rest => if key y <=? key x then x :: l else y :: insert_desc key x rest
  end.

Definition sort_desc {A} (key : A -> Z) (l : list A) : list A :=
  foldr (insert_desc key) [] l.

(** The [while (true)] loop of [fetchAllSignatures]: [before] is
    [options.before], [None] at the first request. [fuel] bounds the
    number of pages; the result is [None] when the loop has not ended
    within it. *)
Fixpoint fetchAllSignatures_loop (conn : Connection) (pubKey : string) (fuel : nat)
    (before : option string) (allSignatures : list SignatureInfo)
    : M (option (list SignatureInfo)) :=
  match fuel with
  | O => ret None
  | S fuel' =>
      let* signatures :=
        (fun w => match getSignaturesForAddress conn (requests w) pubKey before with
                  | Served page => (Ok page, set_requests S w)
                  | Refused e => (Throw e, set_requests S w)
                  end) in
      if (length signatures =? 0)%nat then ret (Some allSignatures)
      else
        let allSignatures := allSignatures ++ signatures in
        if (length signatures <? 1000)%nat then ret (Some allSignatures)
        else
          match last signatures with
          | Some oldest =>
              sleep 100 ;;
              fetchAllSignatures_loop conn pubKey fuel' (Some (signature oldest))
                allSignatures
          | None => throw (EError "TypeError")
          end
  end.

Definition fetchAllSignatures (conn : Connection) (pubKey : string) (fuel : nat)
    : M (option (list SignatureInfo)) :=
  let* allSignatures := fetchAllSignatures_loop conn pubKey fuel None [] in
  ret (sort_desc sig_blockTime <$> allSignatures).

(** [getParsedTransaction(sig.signature, ..).catch(() => null)] *)
Definition parsedOrNull (conn : Connection) (sig : SignatureInfo) : M (option Tx) :=
  fun w =>
    (Ok (match getParsedTransaction conn (requests w) (signature sig) with
         | Served tx => tx
         | Refused _ => None
         end),
     set_requests S w).

(** One round of the loop of [fetchTransactionDetails]: the requests of
    a batch, a pause of 100 ms, the [null] results filtered out. *)
Definition detailsBatch (conn : Connection) (batch : list SignatureInfo) : M (list Tx) :=
  let* batchResults := mapM (parsedOrNull conn) batch in
  sleep 100 ;;
  ret (omap id batchResults).

(** [fetchTransactionDetails]: batches of 50 signatures. *)
Definition fetchTransactionDetails (conn : Connection) (signatures : list SignatureInfo)
    : M (list Tx) :=
  let batchSize := 50%nat in
  let* allTransactions := mapM (detailsBatch conn) (batches batchSize signatures) in
  ret (concat allTransactions).

(** The [try] block of [fetchTransactionsWithRetry]. *)
Definition fetchTransactionsOnce (conn : Connection) (pubKey : string) (fuel : nat)
    : M (option (list Tx)) :=
  let* allSignatures := fetchAllSignatures conn pubKey fuel in
  match allSignatures with
  | Some allSignatures =>
      let* transactions := fetchTransactionDetails conn allSignatures in
      ret (Some (filterRelevantTransactions transactions))
  | None => ret None
  end.

(** A chain that holds the signatures [entries] of the address, newest
    first: a request gets the (at most 1000) entries that follow the
    signature [before], or the first ones without [before]; and the
    transaction [details] knows for a signature. *)
Fixpoint entriesAfter (before : string) (entries : list SignatureInfo) : list SignatureInfo :=
  match entries with
  | [] => []
  | x :: rest => if String.eqb (signature x) before then rest else entriesAfter before rest
  end.

Definition ledger (entries : list SignatureInfo) (details : string -> option Tx)
    : Connection :=
  {| getSignaturesForAddress := fun _ _ before =>
       Served (take 1000 (match before with
                          | None => entries
                          | Some s => entriesAfter s entries
                          end));
     getParsedTransaction := fun _ sig => Served (details sig) |}.

(** The transactions the chain serves for the signatures, asked one after
    the other from request number [n] on: a refused request and a [null]
    answer leave nothing. *)
Fixpoint servedFrom (conn : Connection) (n : nat) (signatures : list SignatureInfo)
    : list Tx :=
  match signatures with
  | [] => []
  | sig :: rest =>
      match getParsedTransaction conn n (signature sig) with
      | Served (Some tx) => tx :: servedFrom conn (S n) rest
      | _ => servedFrom conn (S n) rest
      end
  end.

(** The pauses of a trace, one [Sleep 100] after another. *)
Definition pauses (n : nat) : list Event := replicate n (Sleep 100).

(** [n] signatures [sig0], [sig1], ... with block times going down. *)
Definition sampleEntries (n : nat) : list SignatureInfo :=
  map (fun i => {| signature := "sig" +:+ toString (Z.of_nat i);
                   sig_blockTime := 1700000000 - Z.of_nat i |}) (seq 0 n).

(** ** A client of the cache

    A client that calls [set] at the given times, with the timers that
    have come due fired before each call, and stops at the first call or
    timer that fails. *)
Definition setAll (ops : list (Z * string * CacheManager.JSValue))
    (disk : CacheManager.Disk) (c : CacheManager.Instance)
    : Result unit * (CacheManager.Disk * CacheManager.Instance) :=
  foldl (fun run op =>
           match run with
           | (Ok _, (disk, c)) =>
               match CacheManager.elapse op.1.1 disk c with
               | (Ok _, (disk, c)) =>
                   let stored := CacheManager.set disk op.1.1 op.1.2 op.2 c in
                   (stored.1, (disk, stored.2))
               | (Throw e, dc) => (Throw e, dc)
               end
           | (Throw e, dc) => (Throw e, dc)
           end)
        (Ok tt, (disk, c)) ops.

(** Every call comes before the timer pending at that moment is due. *)
Fixpoint withinWindow (due : option Z) (times : list Z) : Prop :=
  match times with
  | [] => True
  | t :: rest =>
      match due with Some d => t < d | None => True end /\
      withinWindow (Some (t + 5000)) rest
  end.

(** ** What a computation leaves alone *)

(** A computation keeps a relation when every world it ends in, by a
    return or by a throw, is related to the one it started from. *)
Definition keeps {A} (R : World -> World -> Prop) (m : M A) : Prop :=
  forall w, R w (m w).2.

(** The accounting of a run (counters, eligible holders, their total and
    the report) is as it was. *)
Definition accountingUntouched (w w' : World) : Prop :=
  stats w' = stats w /\
  eligibleHolders w' = eligibleHolders w /\
  totalEligibleKoko w' = totalEligibleKoko w /\
  records w' = records w.

(** The world has only moved forward: no processed wallet and no cache
    key forgotten, no request, time, trace or console line taken back,
    the same chain. *)
Definition grows (w w' : World) : Prop :=
  processedWallets w ⊆ processedWallets w' /\
  dom (cache w) ⊆ dom (cache w') /\
  (requests w <= requests w')%nat /\
  clock w <= clock w' /\
  (exists tr, trace w' = trace w ++ tr) /\
  (exists lines, console w' = console w ++ lines) /\
  transactionsOf w' = transactionsOf w /\
  programAccounts w' = programAccounts w.

(** The accounting of a run is consistent: the total is the sum of the
    balances of the listed eligible holders, every listed analysis is an
    eligible one, and the report has one row per key. *)
Definition accounted (w : World) : Prop :=
  totalEligibleKoko w = foldr Z.add 0 (map (fun ha => amount ha.1) (eligibleHolders w)) /\
  Forall (fun ha => isEligible ha.2 = true) (eligibleHolders w) /\
  NoDup (records w).*1.

(** A step that does not break the consistency of the accounting. *)
Definition accountedAfter (w w' : World) : Prop := accounted w -> accounted w'.

(** * Properties *)

(** ** Formatting *)

Example toLocaleString_ex :
  toLocaleString 50000000 = "50,000,000" /\ toLocaleString 1234 = "1,234" /\
  toLocaleString 123 = "123" /\ toLocaleString (-1234567) = "-1,234,567" /\
  toLocaleString 0 = "0".
Proof. vm_compute. repeat split. Qed.

Example parseFloat_ex :
  parseFloat (removeCommas (toLocaleString 60000000)) = Some 60000000.
Proof. vm_compute. reflexivity. Qed.

Example toISOString_ex :
  toISOString 0 = "1970-01-01T00:00:00.000Z" /\
  toISOString 1700000000123 = "2023-11-14T22:13:20.123Z" /\
  toISOString 1709164800000 = "2024-02-29T00:00:00.000Z".
Proof. vm_compute. repeat split. Qed.

Example toFixed4_ex :
  toFixed4 (60000000 * 100) 120000000 = "50.0000" /\
  toFixed4 100 3 = "33.3333" /\ toFixed4 200 3 = "66.6667".
Proof. vm_compute. repeat split. Qed.

(** ** The scan loop *)

(** ** Truth values *)

Lemma of_bool_true (b : bool) : of_bool b = FlagTrue <-> b = true.
Proof. by destruct b. Qed.

Lemma js_and_true a b : js_and a b = FlagTrue <-> a = FlagTrue /\ b = FlagTrue.
Proof. destruct a, b; simpl; intuition discriminate. Qed.

Lemma present_true {A} (x : option A) : present x = FlagTrue <-> x <> None.
Proof. destruct x; simpl; split; try done. Qed.

Lemma truthy_true f : truthy f = true <-> f = FlagTrue.
Proof. by destruct f. Qed.

Lemma truthy_of_bool (b : bool) : truthy b = b.
Proof. by destruct b. Qed.

Lemma scan_nil wallet st : scan wallet [] st = st.
Proof. reflexivity. Qed.

(** The loop only ever raises [maxHeld]. *)
Lemma scan_maxHeld_ge wallet transactions :
  forall st, s_maxHeld st <= s_maxHeld (scan wallet transactions st).
Proof.
  induction transactions as [|tx rest IH]; intros st; simpl.
  - lia.
  - destruct (sold (analyzeTransaction tx wallet)); simpl.
    + lia.
    + etransitivity; [|apply IH]. simpl. lia.
Qed.

(** [maxHeld] is the initial value or a scanned post-balance. *)
Lemma scan_maxHeld_origin wallet transactions :
  forall st,
    s_maxHeld (scan wallet transactions st) = s_maxHeld st \/
    exists tx, In tx transactions /\
      s_maxHeld (scan wallet transactions st) = post_amount (analyzeTransaction tx wallet).
Proof.
  induction transactions as [|tx rest IH]; intros st; simpl.
  - by left.
  - destruct (sold (analyzeTransaction tx wallet)); simpl.
    + destruct (Z.max_spec (s_maxHeld st) (post_amount (analyzeTransaction tx wallet)))
        as [[_ ->]|[_ ->]]; [right; eauto | by left].
    + match goal with |- context [scan wallet rest ?st'] => destruct (IH st') as [->|(tx' & Hin & ->)] end;
        simpl.
      * destruct (Z.max_spec (s_maxHeld st) (post_amount (analyzeTransaction tx wallet)))
          as [[_ ->]|[_ ->]]; [right; eauto | by left].
      * right; eauto.
Qed.


(** Without a sale in the list the flag keeps its initial value. *)
Lemma scan_no_sale wallet transactions :
  Forall (fun tx => sold (analyzeTransaction tx wallet) = false) transactions ->
  forall st, s_hasSold (scan wallet transactions st) = s_hasSold st.
Proof.
  induction 1 as [|tx rest Htx _ IH]; intros st; simpl; [done|].
  rewrite Htx. by rewrite IH.
Qed.

(** A transaction is classified as sold exactly when both balance lists
    are present, each holds an entry of the wallet for the token, and the
    post-balance of the first such entry is below the pre-balance. *)
Lemma sold_iff tx wallet :
  sold (analyzeTransaction tx wallet) = true <->
  exists m pres posts preB postB,
    meta tx = Some m /\
    preTokenBalances m = Some pres /\ postTokenBalances m = Some posts /\
    List.find (tracks wallet) pres = Some preB /\
    List.find (tracks wallet) posts = Some postB /\
    uiTokenAmount postB < uiTokenAmount preB.
Proof.
  unfold analyzeTransaction. split.
  - destruct (meta tx) as [[[pres|] [posts|]]|]; simpl; try discriminate.
    destruct (List.find (tracks wallet) pres) as [preB|] eqn:Hpre; simpl; [|discriminate].
    destruct (List.find (tracks wallet) posts) as [postB|] eqn:Hpost; simpl; [|discriminate].
    intros Hlt%Z.ltb_lt. by eexists _, pres, posts, preB, postB.
  - intros (m & pres & posts & preB & postB & -> & Hp & Hq & Hpre & Hpost & Hlt).
    destruct m as [p q]. simpl in Hp, Hq. subst p q. rewrite Hpre, Hpost. simpl.
    by apply Z.ltb_lt.
Qed.

(** The two copies of [analyzeTransaction] agree. *)
Lemma analyzeTransaction_agree tx wallet :
  analyzeTransaction' tx wallet = analyzeTransaction tx wallet.
Proof.
  assert (Htr : forall l, List.find (tracks' wallet) l = List.find (tracks wallet) l).
  { intros l. induction l as [|b l IH]; simpl; [done|].
    rewrite IH. unfold tracks', tracks.
    by rewrite (andb_comm (String.eqb (tb_owner b) wallet)). }
  unfold analyzeTransaction', analyzeTransaction.
  destruct (meta tx) as [[[pres|] [posts|]]|]; simpl; rewrite ?Htr; try done.
  - by destruct (List.find (tracks wallet) pres).
Qed.

(** ** Eligibility *)

(** On the path the run takes ([analyzeWallet], then
    [processWalletTransactions]) the verdict is the conjunction of the
    five criteria. *)
Lemma processWalletTransactions_isEligible_iff now wallet currentBalance transactions :
  let a := processWalletTransactions now wallet currentBalance transactions in
  isEligible a = true <-> eligible_spec currentBalance a.
Proof.
  unfold eligible_spec. destruct transactions as [|tx rest]; cbn zeta.
  - cbn [processWalletTransactions isEligible firstAcquired]. split; [done|]. by intros (_ & _ & ? & _).
  - cbn [processWalletTransactions isEligible firstAcquired hasSold holdingDays].
    change (of_bool true) with FlagTrue.
    rewrite !js_and_true, !of_bool_true, present_true, !Z.leb_le, negb_true_iff. tauto.
Qed.







(** The acquisition 400 days back is never seen: the reported first
    acquisition is the one of 5 days ago. *)
Example short_circuit_hides_earlier_acquisition :
  let a := processWalletTransactions now0 wallet1 80000000
             [transfer 5 wallet1 70000000 80000000;
              transfer 10 wallet1 100000000 70000000;
              transfer 400 wallet1 0 100000000] in
  firstAcquired a = Some (now0 - 5 * day) /\ maxHeld a = 80000000 /\
  reason a = "Has sold KOKO in the past".
Proof. vm_compute. repeat split. Qed.

(** C10. The analysis [processWalletTransactions] produces, the
    empty-history one included, and the one of the error branch of
    [analyzeWallet] have [maxHeld >= currentBalance]: [maxHeld] starts at
    the current balance and is the current balance or a scanned
    post-balance above it. *)
Theorem maxHeld_ge_currentBalance now wallet currentBalance transactions :
  let a := processWalletTransactions now wallet currentBalance transactions in
  currentBalance <= maxHeld a /\
  (maxHeld a = currentBalance \/
   exists tx, In tx transactions /\ maxHeld a = post_amount (analyzeTransaction tx wallet)) /\
  maxHeld (errorAnalysis currentBalance) = currentBalance.
Proof.
  cbn zeta. destruct transactions as [|tx rest].
  - simpl. split; [lia|]. split; [by left | done].
  - cbn [processWalletTransactions maxHeld].
    match goal with |- context [scan wallet ?l ?st] =>
      pose proof (scan_maxHeld_ge wallet l st) as Hge;
      pose proof (scan_maxHeld_origin wallet l st) as Hor end.
    simpl s_maxHeld in Hge, Hor at 1. simpl in Hor.
    split; [exact Hge|]. split; [|done]. exact Hor.
Qed.

(** ** Reasons *)

Lemma getEligibilityReason_by_priority currentBalance hasSold firstAcquired holdingDays :
  getEligibilityReason currentBalance hasSold firstAcquired holdingDays =
  reason_by_priority "Unable to determine first acquisition"
    currentBalance hasSold firstAcquired holdingDays.
Proof.
  unfold getEligibilityReason, reason_by_priority, priority.
  cbn [List.find fails].
  destruct (currentBalance <? CONFIG.MIN_TOKENS); [done|].
  destruct (CONFIG.MAX_TOKENS <? currentBalance); [done|].
  destruct hasSold; [done|].
  destruct (negb (bool_decide (is_Some firstAcquired))); [done|].
  by destruct (holdingDays <? CONFIG.MONTHS_REQUIRED * 30).
Qed.

Lemma getStatusReason_by_priority holder firstAcquired hasSold holdingDays :
  getStatusReason holder firstAcquired hasSold holdingDays =
  reason_by_priority "No acquisition history found"
    (amount holder) hasSold firstAcquired holdingDays.
Proof.
  unfold getStatusReason, reason_by_priority, priority.
  cbn [List.find fails].
  destruct (amount holder <? CONFIG.MIN_TOKENS); [done|].
  destruct (CONFIG.MAX_TOKENS <? amount holder); [done|].
  destruct hasSold; [done|].
  destruct (negb (bool_decide (is_Some firstAcquired))); [done|].
  by destruct (holdingDays <? CONFIG.MONTHS_REQUIRED * 30).
Qed.

(** C6, as stated, fails on an empty history: a wallet above the ceiling
    with no transactions is reported as having no transaction history,
    where the priority order names the balance. *)
Lemma reason_priority_counterexample :
  let a := processWalletTransactions now0 wallet1 50000000000 [] in
  reason a = "No transaction history found" /\
  reason_by_priority "Unable to determine first acquisition"
    50000000000 (hasSold a) (firstAcquired a) (holdingDays a)
  = "Balance exceeds maximum limit (50,000,000,000 > 40,000,000,000)" /\
  reason a <> reason_by_priority "Unable to determine first acquisition"
                50000000000 (hasSold a) (firstAcquired a) (holdingDays a).
Proof. vm_compute. repeat split. discriminate. Qed.

(** C6, amended. The analysis of a non-empty transaction list reports the
    text of the first failing condition in the order balance too low,
    balance too high, has sold, no acquisition found, holding period too
    short, and the success text when none fails; [getEligibilityReason]
    and [getStatusReason] are that selection. An empty list is reported as
    [No transaction history found] before any condition is looked at. *)
Theorem reason_priority_order now wallet currentBalance transactions :
  let a := processWalletTransactions now wallet currentBalance transactions in
  reason a =
    match transactions with
    | [] => "No transaction history found"
    | _ => reason_by_priority "Unable to determine first acquisition"
             currentBalance (hasSold a) (firstAcquired a) (holdingDays a)
    end /\
  (forall hasSold firstAcquired holdingDays,
     getEligibilityReason currentBalance hasSold firstAcquired holdingDays =
     reason_by_priority "Unable to determine first acquisition"
       currentBalance hasSold firstAcquired holdingDays) /\
  (forall holder hasSold firstAcquired holdingDays,
     getStatusReason holder firstAcquired hasSold holdingDays =
     reason_by_priority "No acquisition history found"
       (amount holder) hasSold firstAcquired holdingDays).
Proof.
  cbn zeta. split; [|split].
  - destruct transactions as [|tx rest]; [done|].
    cbn [processWalletTransactions reason hasSold firstAcquired holdingDays].
    apply getEligibilityReason_by_priority.
  - intros. apply getEligibilityReason_by_priority.
  - intros. apply getStatusReason_by_priority.
Qed.

(** C5, as stated, fails twice over. With no acquisition found, a balance
    above the ceiling is reported before the missing acquisition; and for
    a balance within the floor and the ceiling the [&&] chain stops at
    [firstAcquired]: [isEligible] is [null], not [false]. *)
Lemma no_acquisition_reason_counterexample :
  let a := processWalletTransactions now0 wallet1 50000000000
             [transfer 10 wallet1 50000000000 50000000000] in
  let b := processWalletTransactions now0 wallet1 60000000
             [transfer 10 wallet1 60000000 60000000] in
  firstAcquired a = None /\
  reason a = "Balance exceeds maximum limit (50,000,000,000 > 40,000,000,000)" /\
  reason a <> "Unable to determine first acquisition" /\
  reason a <> "No acquisition history found" /\
  firstAcquired b = None /\
  isEligible b = FlagNull /\
  isEligible b <> false.
Proof. vm_compute. repeat split; discriminate. Qed.

(** C5, amended. An analysis with no acquisition found is never eligible.
    For an empty list it is the fixed analysis [isEligible = false],
    [No transaction history found]. For a list that is not empty,
    [isEligible] is [null] when the balance lies within the floor and the
    ceiling and [false] otherwise, and the reason is the first that
    applies of: balance too low, balance too high, has sold, unable to
    determine the first acquisition; so the no-acquisition reason is
    reported exactly for a balance in range and no sale. *)
Theorem no_acquisition_ineligible now wallet currentBalance transactions :
  let a := processWalletTransactions now wallet currentBalance transactions in
  firstAcquired a = None ->
  truthy (isEligible a) = false /\
  match transactions with
  | [] => isEligible a = false /\ reason a = "No transaction history found"
  | _ :: _ =>
      isEligible a =
        (if (CONFIG.MIN_TOKENS <=? currentBalance) && (currentBalance <=? CONFIG.MAX_TOKENS)
         then FlagNull else FlagFalse) /\
      reason a =
        (if currentBalance <? CONFIG.MIN_TOKENS then
           "Insufficient balance (" +:+ toLocaleString currentBalance +:+ " < "
             +:+ toLocaleString CONFIG.MIN_TOKENS +:+ ")"
         else if CONFIG.MAX_TOKENS <? currentBalance then
           "Balance exceeds maximum limit (" +:+ toLocaleString currentBalance +:+ " > "
             +:+ toLocaleString CONFIG.MAX_TOKENS +:+ ")"
         else if hasSold a then "Has sold KOKO in the past"
         else "Unable to determine first acquisition")
  end.
Proof.
  cbn zeta. destruct transactions as [|tx rest].
  - intros _. by repeat split.
  - cbn [processWalletTransactions firstAcquired isEligible reason hasSold].
    intros ->. cbn [present]. unfold getEligibilityReason.
    destruct (Z.leb_spec CONFIG.MIN_TOKENS currentBalance),
      (Z.leb_spec currentBalance CONFIG.MAX_TOKENS),
      (Z.ltb_spec currentBalance CONFIG.MIN_TOKENS),
      (Z.ltb_spec CONFIG.MAX_TOKENS currentBalance); try lia; done.
Qed.

Lemma no_acquisition_ineligible_witness :
  let transactions := [transfer 10 wallet1 60000000 60000000] in
  let a := processWalletTransactions now0 wallet1 60000000 transactions in
  firstAcquired a = None /\
  truthy (isEligible a) = false /\
  isEligible a = FlagNull /\
  reason a = "Unable to determine first acquisition".
Proof.
  cbn zeta.
  assert (Hnone : firstAcquired (processWalletTransactions now0 wallet1 60000000
                                   [transfer 10 wallet1 60000000 60000000]) = None)
    by reflexivity.
  destruct (no_acquisition_ineligible now0 wallet1 60000000
              [transfer 10 wallet1 60000000 60000000] Hnone) as (Hfalsy & Hflag & Hreason).
  split; [exact Hnone|]. split; [exact Hfalsy|]. split; [exact Hflag | exact Hreason].
Defined.

(** ** [analyzeHolder] *)

(** C1 at a balance above the ceiling. [analyzeHolder] leaves [MAX_TOKENS]
    out of its verdict: a holder of 50,000,000,000 tokens acquired 200
    days ago and never sold is returned eligible, with the reason its own
    [getStatusReason] gives for a balance over the limit;
    [processWalletTransactions] refuses the same wallet. *)
Theorem analyzeHolder_eligible_above_MAX_TOKENS :
  let holder := {| owner := wallet1; amount := 50000000000 |} in
  let w := startWorld (chainOf (fun _ => longHeld wallet1 50000000000)) noAccounts in
  let result := (analyzeHolder holder w).1 in
  CONFIG.MAX_TOKENS < amount holder /\
  isEligible <$> value_of result = Some FlagTrue /\
  reason <$> value_of result
    = Some "Balance exceeds maximum limit (50,000,000,000 > 40,000,000,000)" /\
  firstAcquired <$> value_of result = Some (Some (now0 - 200 * day)) /\
  hasSold <$> value_of result = Some false /\
  holdingDays <$> value_of result = Some 200 /\
  isEligible (processWalletTransactions now0 wallet1 50000000000
                (longHeld wallet1 50000000000)) = false.
Proof. vm_compute. repeat split. Qed.

(** What [analyzeHolder] decides, for every holder and history: the
    criteria of the eligibility rule but the ceiling. *)
Lemma analyzeHolder_isEligible_iff holder w a w' :
  analyzeHolder holder w = (Ok a, w') ->
  isEligible a = true <->
    CONFIG.MIN_TOKENS <= amount holder /\
    firstAcquired a <> None /\
    hasSold a = false /\
    CONFIG.MONTHS_REQUIRED * 30 <= holdingDays a.
Proof.
  unfold analyzeHolder, bind at 1.
  destruct (getTransactionHistory (owner holder) w) as [[transactions|e] w1]; [|done].
  unfold bind, gets, ret. intros [= <- _].
  cbn [isEligible firstAcquired hasSold holdingDays].
  change (of_bool true) with FlagTrue.
  rewrite !js_and_true, !of_bool_true, present_true, !Z.leb_le, negb_true_iff. tauto.
Qed.

(** The scenarios of the specification. *)
Example scenario_eligible :
  let a := processWalletTransactions now0 wallet1 60000000 (longHeld wallet1 60000000) in
  isEligible a = true /\ reason a = "Meets all eligibility criteria" /\
  holdingDays a = 200.
Proof. vm_compute. repeat split. Qed.

Example scenario_sold :
  let a := processWalletTransactions now0 wallet1 100000000
             [transfer 10 wallet1 120000000 100000000; transfer 300 wallet1 0 120000000] in
  truthy (isEligible a) = false /\ isEligible a = FlagNull /\
  reason a = "Has sold KOKO in the past" /\
  maxHeld a = 100000000 /\ firstAcquired a = None.
Proof. vm_compute. repeat split. Qed.

Example scenario_below_floor :
  let a := processWalletTransactions now0 wallet1 30000000 (longHeld wallet1 30000000) in
  isEligible a = false /\
  reason a = "Insufficient balance (30,000,000 < 50,000,000)".
Proof. vm_compute. repeat split. Qed.

(** ** Retry *)

Lemma last_cons_default {A} (a d : A) (l : list A) :
  List.last (a :: l) d = List.last l a.
Proof.
  revert a d. induction l as [|b l IH]; intros a d; [done|].
  change (List.last (a :: b :: l) d) with (List.last (b :: l) d).
  by rewrite (IH b d), (IH b a).
Qed.

(** One iteration of the loop of [withRetry]. *)
Lemma withRetry_loop_S {A} (fn : M A) options remaining attempt lastError w :
  withRetry_loop fn options (S remaining) attempt lastError w =
  match fn (set_trace (fun tr => tr ++ [Invoke attempt]) w) with
  | (Ok a, w1) => (Ok a, w1)
  | (Throw e, w1) =>
      let w2 := set_trace (fun tr => tr ++ [Failed attempt e]) w1 in
      withRetry_loop fn options remaining (S attempt) e
        (if (attempt <? CONFIG.retries options)%nat
         then set_clock (fun t => t + backoff options attempt)
                (set_trace (fun tr => tr ++ [Sleep (backoff options attempt)]) w2)
         else w2)
  end.
Proof.
  cbn [withRetry_loop]. unfold bind, ghost, modify, try_catch, when, sleep, ret.
  destruct (fn _) as [[a|e] w1]; [done|].
  by destruct (attempt <? CONFIG.retries options)%nat.
Qed.

Lemma withRetry_loop_outcome {A} (fn : M A) options :
  quiet fn ->
  forall remaining attempt lastError w,
    (attempt + remaining = S (CONFIG.retries options))%nat ->
    let out := withRetry_loop fn options remaining attempt lastError w in
    exists failures,
      match out.1 with
      | Ok _ =>
          (length failures < remaining)%nat /\
          trace out.2 = trace w
            ++ retry_events (backoff options) (CONFIG.retries options) attempt failures
            ++ [Invoke (attempt + length failures)]
      | Throw e =>
          length failures = remaining /\
          List.last failures lastError = e /\
          trace out.2 = trace w
            ++ retry_events (backoff options) (CONFIG.retries options) attempt failures
      end.
Proof.
  intros Hquiet. induction remaining as [|remaining IH]; intros attempt lastError w Hsum.
  - exists []. simpl. by rewrite app_nil_r.
  - cbn zeta. rewrite withRetry_loop_S.
    pose proof (Hquiet (set_trace (fun tr => tr ++ [Invoke attempt]) w)) as Hq.
    destruct (fn (set_trace (fun tr => tr ++ [Invoke attempt]) w)) as [[a|e] w1];
      simpl in Hq.
    + exists []. simpl. rewrite Hq, Nat.add_0_r. split; [lia|done].
    + cbn zeta.
      match goal with |- context [withRetry_loop fn options remaining (S attempt) e ?w3] =>
        assert (Htr : trace w3 = trace w ++ [Invoke attempt; Failed attempt e]
                   ++ (if (attempt <? CONFIG.retries options)%nat
                       then [Sleep (backoff options attempt)] else []));
        [ destruct (attempt <? CONFIG.retries options)%nat; simpl; rewrite Hq;
          by rewrite <- !app_assoc
        | destruct (IH (S attempt) e w3 ltac:(lia)) as (failures & Hout);
          cbn zeta in Hout;
          destruct (withRetry_loop fn options remaining (S attempt) e w3) as [[a|e'] w4] ]
      end; exists (e :: failures); cbn [fst snd length retry_events] in Hout |- *.
      * destruct Hout as [Hlen ->]. split; [lia|]. rewrite Htr.
        rewrite Nat.add_succ_r. simpl. by rewrite <- !app_assoc.
      * destruct Hout as (Hlen & Hlast & ->). split; [lia|]. split.
        { by rewrite last_cons_default. }
        rewrite Htr. by rewrite <- !app_assoc.
Qed.

(** One round of the retry shared by [fetchHoldersWithRetry] and
    [fetchTransactionsWithRetry]: a failed attempt below the limit ends in
    the [TypeError] of [Logger.warn], whatever the fuel. *)
Lemma retryFrom_unfold {A} what (request : M A) fuel attempt w :
  retryFrom what request fuel attempt w =
  match request (set_trace (fun tr => tr ++ [Invoke attempt]) w) with
  | (Ok a, w1) => (Ok a, w1)
  | (Throw e, w1) =>
      (Throw (if (attempt <? retryLimit)%nat
              then EError "TypeError: Logger.warn is not a function" else e),
       set_trace (fun tr => tr ++ [Failed attempt e]) w1)
  end.
Proof.
  destruct fuel; cbn [retryFrom];
    unfold bind, ghost, modify, try_catch, sleep, Logger_warn, throw;
    destruct (request _) as [[a|e] w1]; try done;
    by destruct (attempt <? retryLimit)%nat.
Qed.

(** C7 on the retry of the service. When the request of an attempt
    below the limit of three fails with an error, whatever that request
    did before, [fetchTransactionsWithRetry] and [fetchHoldersWithRetry]
    reach [Logger.warn], which [Logger] does not define: they throw that
    [TypeError] in place of the error of the request and end in the world
    the failed request left; no wait and no further attempt follows. *)
Theorem service_retry_stops_at_first_failure pubKey attempt w e w1 e' w1' :
  (attempt < retryLimit)%nat ->
  requestTransactions pubKey (set_trace (fun tr => tr ++ [Invoke attempt]) w) = (Throw e, w1) ->
  requestHolders (set_trace (fun tr => tr ++ [Invoke attempt]) w) = (Throw e', w1') ->
  fetchTransactionsWithRetry pubKey attempt w =
    (Throw (EError "TypeError: Logger.warn is not a function"),
     set_trace (fun tr => tr ++ [Failed attempt e]) w1) /\
  fetchHoldersWithRetry attempt w =
    (Throw (EError "TypeError: Logger.warn is not a function"),
     set_trace (fun tr => tr ++ [Failed attempt e']) w1').
Proof.
  intros Hlt Htx Hacc.
  unfold fetchTransactionsWithRetry, fetchHoldersWithRetry.
  rewrite !retryFrom_unfold, Htx, Hacc.
  apply Nat.ltb_lt in Hlt. by rewrite Hlt.
Qed.

Lemma service_retry_stops_at_first_failure_witness :
  let w := startWorld deadChain (fun _ => Refused (EError "503 Service Unavailable")) in
  let started := set_trace (fun tr => tr ++ [Invoke 1]) w in
  (1 < retryLimit)%nat /\
  requestTransactions wallet1 started =
    (Throw (EError "429 Too Many Requests"), set_requests S started) /\
  requestHolders started =
    (Throw (EError "503 Service Unavailable"), set_requests S started) /\
  fetchTransactionsWithRetry wallet1 1 w =
    (Throw (EError "TypeError: Logger.warn is not a function"),
     set_trace (fun tr => tr ++ [Failed 1 (EError "429 Too Many Requests")])
       (set_requests S started)) /\
  fetchHoldersWithRetry 1 w =
    (Throw (EError "TypeError: Logger.warn is not a function"),
     set_trace (fun tr => tr ++ [Failed 1 (EError "503 Service Unavailable")])
       (set_requests S started)).
Proof.
  cbn zeta.
  assert (Hlt : (1 < retryLimit)%nat) by (unfold retryLimit; lia).
  split; [exact Hlt|]. split; [reflexivity|]. split; [reflexivity|].
  exact (service_retry_stops_at_first_failure wallet1 1
           (startWorld deadChain (fun _ => Refused (EError "503 Service Unavailable")))
           (EError "429 Too Many Requests") _
           (EError "503 Service Unavailable") _ Hlt eq_refl eq_refl).
Defined.

(** Three failing attempts under the configured options: sleeps of 1000
    and 2000 ms, and the error of the operation comes out as it was. *)
Example withRetry_configured_schedule :
  let out := withRetry (throw (A := unit) (EError "ECONNRESET")) CONFIG.RETRY_OPTIONS
               (startWorld deadChain noAccounts) in
  out.1 = Throw (EError "ECONNRESET") /\
  sleeps (trace out.2) = [1000; 2000] /\
  invocations (trace out.2) = 3%nat.
Proof. vm_compute. repeat split. Qed.

(** With more attempts the ceiling is reached. *)
Example withRetry_ceiling :
  let options := {| CONFIG.retries := 5; CONFIG.minTimeout := 1000;
                    CONFIG.maxTimeout := 3000 |} in
  let out := withRetry (throw (A := unit) (EError "ECONNRESET")) options
               (startWorld deadChain noAccounts) in
  sleeps (trace out.2) = [1000; 2000; 3000; 3000] /\
  invocations (trace out.2) = 5%nat.
Proof. vm_compute. repeat split. Qed.

(** An operation that succeeds at its second attempt. *)
Example withRetry_second_attempt :
  let fn : M nat := fun w =>
    if (requests w =? 0)%nat then (Throw (EError "ECONNRESET"), set_requests S w)
    else (Ok 7%nat, set_requests S w) in
  let out := withRetry fn CONFIG.RETRY_OPTIONS (startWorld deadChain noAccounts) in
  out.1 = Ok 7%nat /\
  trace out.2 = [Invoke 1; Failed 1 (EError "ECONNRESET"); Sleep 1000; Invoke 2].
Proof. vm_compute. repeat split. Qed.

(** The retry of the service on a chain that refuses every request: one
    attempt, no sleep, and the [TypeError] in place of the error of the
    chain. *)
Example fetchTransactionsWithRetry_schedule :
  let out := fetchTransactionsWithRetry wallet1 1 (startWorld deadChain noAccounts) in
  out.1 = Throw (EError "TypeError: Logger.warn is not a function") /\
  sleeps (trace out.2) = [] /\
  invocations (trace out.2) = 1%nat /\
  trace out.2 = [Invoke 1; Failed 1 (EError "429 Too Many Requests")].
Proof. vm_compute. repeat split. Qed.

(** Called at the last attempt, as the recursive call would, the retry
    rethrows the error of the request. *)
Example fetchTransactionsWithRetry_last_attempt :
  let out := fetchTransactionsWithRetry wallet1 3 (startWorld deadChain noAccounts) in
  out.1 = Throw (EError "429 Too Many Requests") /\
  invocations (trace out.2) = 1%nat.
Proof. vm_compute. repeat split. Qed.

(** ** A retrieval that fails *)



(** The worker never throws: whatever happens to one holder, the batch
    goes on with the next. *)
Lemma processBatch_returns holder w :
  exists result, (processBatch holder w).1 = Ok result.
Proof.
  unfold processBatch, try_catch.
  match goal with |- context [match ?m w with _ => _ end] => destruct (m w) as [[r|e] w'] end.
  - eauto.
  - unfold bind, modify, Logger, ret. simpl. eauto.
Qed.

Lemma mapM_cons {A B} (f : A -> M B) x l w :
  mapM f (x :: l) w =
  match f x w with
  | (Ok y, w1) =>
      match mapM f l w1 with
      | (Ok ys, w2) => (Ok (y :: ys), w2)
      | (Throw e, w2) => (Throw e, w2)
      end
  | (Throw e, w1) => (Throw e, w1)
  end.
Proof. reflexivity. Qed.

Lemma mapM_returns {A B} (f : A -> M B) :
  (forall x w, exists r, (f x w).1 = Ok r) ->
  forall l w, exists rs, (mapM f l w).1 = Ok rs /\ length rs = length l.
Proof.
  intros Hf. induction l as [|x l IH]; intros w; simpl.
  - by exists [].
  - unfold bind at 1. destruct (Hf x w) as [r Hr].
    destruct (f x w) as [[r'|e] w1]; simpl in Hr; [|done].
    unfold bind at 1. destruct (IH w1) as (rs & Hrs & Hlen).
    destruct (mapM f l w1) as [[rs'|e] w2]; simpl in Hrs; [|done].
    injection Hrs as ->. exists (r' :: rs). simpl. by rewrite Hlen.
Qed.

Lemma batches_fuel_concat {A} (size : nat) :
  (1 <= size)%nat ->
  forall fuel (items : list A),
    (length items <= fuel)%nat -> concat (batches_fuel fuel size items) = items.
Proof.
  intros Hsize. induction fuel as [|fuel IH]; intros items Hlen.
  - destruct items; [done | simpl in Hlen; lia].
  - destruct items as [|x items]; [done|].
    cbn [batches_fuel concat]. rewrite IH.
    + apply take_drop.
    + rewrite length_drop. simpl in Hlen |- *. lia.
Qed.

Lemma process_returns {A B} (batchSize : nat) (f : A -> M B) :
  (1 <= batchSize)%nat ->
  (forall x w, exists r, (f x w).1 = Ok r) ->
  forall items w,
    exists results, (process batchSize items f w).1 = Ok results /\
                    length results = length items.
Proof.
  intros Hsize Hf items w. unfold process, bind.
  assert (Hall : forall bs w, exists rss,
             (mapM (fun batch => mapM f batch) bs w).1 = Ok rss /\
             length (concat rss) = length (concat bs)).
  { induction bs as [|b bs IH]; intros w0; simpl.
    - by exists [].
    - unfold bind at 1. destruct (mapM_returns f Hf b w0) as (rs & Hrs & Hlen).
      destruct (mapM f b w0) as [[rs'|e] w1]; simpl in Hrs; [|done].
      injection Hrs as ->. unfold bind at 1.
      destruct (IH w1) as (rss & Hrss & Hlens).
      destruct (mapM _ bs w1) as [[rss'|e] w2]; simpl in Hrss; [|done].
      injection Hrss as ->. exists (rs :: rss). simpl.
      by rewrite !length_app, Hlen, Hlens. }
  destruct (Hall (batches batchSize items) w) as (rss & Hrss & Hlen).
  destruct (mapM _ (batches batchSize items) w) as [[rss'|e] w1]; simpl in Hrss; [|done].
  injection Hrss as ->. exists (concat rss). simpl. split; [done|].
  rewrite Hlen. unfold batches. by rewrite batches_fuel_concat.
Qed.




(** ** Duplicate owners *)

Lemma analyzeWallet_seen wallet currentBalance w :
  wallet ∈ processedWallets w ->
  analyzeWallet wallet currentBalance w = (Ok None, w).
Proof.
  intros Hseen. unfold analyzeWallet, try_catch, bind, gets.
  by rewrite bool_decide_eq_true_2.
Qed.

(** An analysis found in the cache under the owner's address is accounted
    whether or not the wallet was processed before. *)
Lemma processBatch_cached holder a w :
  cache w !! owner holder = Some (CAnalysis a) ->
  isEligible a = true ->
  let out := processBatch holder w in
  out.1 = Ok (Some a) /\
  eligible (stats out.2) = S (eligible (stats w)) /\
  totalEligibleKoko out.2 = totalEligibleKoko w + amount holder /\
  eligibleHolders out.2 = eligibleHolders w ++ [(holder, a)] /\
  requests out.2 = requests w.
Proof.
  intros Hhit Helig.
  assert (Hworker : exists w2,
             processBatch holder w = (Ok (Some a), w2) /\
             eligible (stats w2) = S (eligible (stats w)) /\
             totalEligibleKoko w2 = totalEligibleKoko w + amount holder /\
             eligibleHolders w2 = eligibleHolders w ++ [(holder, a)] /\
             requests w2 = requests w).
  { unfold processBatch, try_catch, bind at 1, cacheManager_get at 1, gets at 1.
    rewrite Hhit. unfold asAnalysis, bind, ret, when. rewrite Helig.
    unfold updateCsvRecord, updateRecord, modify, bind.
    eexists. split; [reflexivity|]. done. }
  destruct Hworker as (w2 & -> & Hrest). exact (conj eq_refl Hrest).
Qed.

(** Called twice in a row, [analyzeWallet] answers the second call with
    the [null] sentinel. *)
Example analyzeWallet_twice :
  let w := startWorld (chainOf (fun _ => longHeld wallet1 60000000)) noAccounts in
  let first := analyzeWallet wallet1 60000000 w in
  isEligible <$> (value_of first.1 ≫= id) = Some FlagTrue /\
  (analyzeWallet wallet1 60000000 first.2).1 = Ok None.
Proof. vm_compute. repeat split. Qed.

(** C3 on a holder list of 51 token accounts, the first and the last of
    which belong to the same owner. The second occurrence, met in the
    second batch, finds the analysis the first one stored in the cache
    under the owner's address, never reaches the guard of [analyzeWallet]
    and is accounted again: the owner is counted twice as eligible and its
    balance enters the total twice, although its transactions were
    requested once. *)
Theorem duplicate_owner_counted_twice :
  let out := analyze duplicateWorld in
  length (List.filter (fun h => String.eqb (owner h) wallet1) duplicateAccounts) = 2%nat /\
  length duplicateAccounts = 51%nat /\
  requests out.2 = 51%nat /\
  processed (stats out.2) = 51%nat /\
  errors (stats out.2) = 0%nat /\
  eligible (stats out.2) = 2%nat /\
  map (fun p => (owner p.1, amount p.1)) (eligibleHolders out.2)
    = [(wallet1, 60000000); (wallet1, 60000000)] /\
  totalEligibleKoko out.2 = 120000000.
Proof. vm_compute. repeat split. Qed.

(** ** Shares *)

Lemma updateShare_idempotent total r :
  updateShare total (updateShare total r) = updateShare total r.
Proof.
  unfold updateShare. destruct (String.eqb (status r) ELIGIBLE) eqn:E; simpl; by rewrite E.
Qed.

(** The record update of one batch, on records some of which (those whose
    key satisfies [seen]) were updated before. *)
Lemma update_batch total (seen : string -> bool) (batch rs : list (string * CsvRecord)) :
  map (fun kv => if existsb (String.eqb kv.1) (map fst batch)
                 then (kv.1, updateShare total kv.2) else kv)
      (map (fun kv => if seen kv.1 then (kv.1, updateShare total kv.2) else kv) rs)
  = map (fun kv => if seen kv.1 || existsb (String.eqb kv.1) (map fst batch)
                   then (kv.1, updateShare total kv.2) else kv) rs.
Proof.
  rewrite map_map. apply map_ext. intros [k r]. cbn [fst snd].
  destruct (seen k); cbn [fst snd orb]; [|done].
  destruct (existsb _ _); [|done]. by rewrite updateShare_idempotent.
Qed.

Lemma update_batches total (bs : list (list (string * CsvRecord))) :
  forall (seen : string -> bool) rs w,
    records w = map (fun kv => if seen kv.1 then (kv.1, updateShare total kv.2) else kv) rs ->
    let out := mapM (updateBatch total) bs w in
    (exists us, out.1 = Ok us) /\
    records out.2 =
      map (fun kv => if seen kv.1 || existsb (String.eqb kv.1) (map fst (concat bs))
                     then (kv.1, updateShare total kv.2) else kv) rs /\
    totalEligibleKoko out.2 = totalEligibleKoko w /\ stats out.2 = stats w.
Proof.
  induction bs as [|b bs IH]; intros seen rs w Hrs; cbn zeta.
  - simpl. split; [by eexists|]. split; [|done]. rewrite Hrs. apply map_ext.
    intros [k r]. by rewrite orb_false_r.
  - rewrite mapM_cons.
    set (w1 := set_clock (fun t => t + 100)
                 (set_trace (fun tr => tr ++ [Sleep 100])
                    (set_records (fun rs0 =>
                       map (fun kv => if existsb (String.eqb kv.1) (map fst b)
                                      then (kv.1, updateShare total kv.2) else kv) rs0) w))).
    change (updateBatch total b w) with (Ok tt, w1).
    destruct (IH (fun k => seen k || existsb (String.eqb k) (map fst b)) rs w1)
      as ([us Hus] & Hrec & Htot & Hst).
    { subst w1. cbn [records set_records set_trace set_clock]. rewrite Hrs.
      apply update_batch. }
    destruct (mapM (updateBatch total) bs w1) as [[us'|e] w2]; [|done].
    cbn [fst snd] in *. split; [by eexists|]. split; [|done].
    rewrite Hrec. apply map_ext. intros [k r]. cbn [fst snd concat].
    by rewrite map_app, existsb_app, orb_assoc.
Qed.

Lemma existsb_key_self (rs : list (string * CsvRecord)) kv :
  In kv rs -> existsb (String.eqb kv.1) (map fst rs) = true.
Proof.
  intros Hin. apply existsb_exists. exists kv.1. split; [|apply String.eqb_refl].
  by apply in_map.
Qed.

(** After the pass every row is the row [updateShare] makes of it: an
    eligible row carries the share of its own balance in the total the
    pass was given, to four decimals. *)
Lemma updateAirdropShares_records total w :
  let out := updateAirdropShares total w in
  records out.2 = map (fun kv => (kv.1, updateShare total kv.2)) (records w) /\
  totalEligibleKoko out.2 = totalEligibleKoko w.
Proof.
  cbn zeta. unfold updateAirdropShares, bind, gets, throw.
  destruct (update_batches total (batches 1000 (records w)) (fun _ => false) (records w) w)
    as ([us Hus] & Hrec & Htot & _).
  { rewrite <- (map_id (records w)) at 1. apply map_ext. by intros [k r]. }
  cbn zeta in *.
  destruct (mapM _ (batches 1000 (records w)) w) as [[us'|e] w1]; [|done].
  cbn [fst snd throw] in *. split; [|done]. rewrite Hrec.
  apply map_ext_in. intros kv Hin. cbn [orb].
  unfold batches. rewrite batches_fuel_concat by lia.
  by rewrite existsb_key_self.
Qed.

(** Rounding to four decimals moves a share by at most half a unit. *)
Lemma toFixed4_units_error a total :
  0 <= a -> 0 < total ->
  Z.abs (2 * total * toFixed4_units (a * 100) total - 2 * (a * 1000000)) <= total.
Proof.
  intros Ha Htotal. unfold toFixed4_units.
  rewrite (Z.abs_eq (a * 100)), (Z.abs_eq total) by lia.
  pose proof (Z.div_mod (2 * (a * 100) * 10000 + total) (2 * total) ltac:(lia)) as Hdiv.
  pose proof (Z.mod_pos_bound (2 * (a * 100) * 10000 + total) (2 * total) ltac:(lia)) as Hmod.
  lia.
Qed.

(** When the total is the sum of the balances, the shares, in units of
    0.0001, add up to 1000000 (100 %) within half a unit per holder. *)
Lemma shares_sum_within_rounding (balances : list Z) total :
  Forall (fun a => 0 <= a) balances ->
  0 < total ->
  foldr Z.add 0 balances = total ->
  2 * Z.abs (foldr Z.add 0 (map (fun a => toFixed4_units (a * 100) total) balances)
             - 1000000)
  <= Z.of_nat (length balances).
Proof.
  intros Hpos Htotal Hsum.
  assert (Hgen : Z.abs (2 * total *
                          foldr Z.add 0 (map (fun a => toFixed4_units (a * 100) total) balances)
                        - 2 * (foldr Z.add 0 balances * 1000000))
                 <= Z.of_nat (length balances) * total).
  { clear Hsum. induction Hpos as [|a balances Ha _ IH]; [simpl; lia|].
    cbn [map foldr length]. pose proof (toFixed4_units_error a total Ha Htotal). lia. }
  rewrite Hsum in Hgen. nia.
Qed.

(** C8 on the same holder list. The report has one eligible row, the one
    of the owner met twice; its share is computed against a total that
    holds its balance twice, so the shares of the report add up to 50 %,
    not 100 %. The pass itself ends in the [TypeError] of the missing
    [flush]. *)
Theorem duplicate_owner_share_is_half :
  let out := analyze duplicateWorld in
  map (fun r => (r_owner r, currentAmount r, airdropShare r)) (eligibleRecords out.2)
    = [(wallet1, "60,000,000", "50.0000")] /\
  totalEligibleKoko out.2 = 120000000 /\
  shareSum out.2 = Some 500000 /\
  out.1 = Throw (EError "TypeError: this.csvWriter.flush is not a function").
Proof. vm_compute. repeat split. Qed.

(** Without a repeated owner the shares add up to 100 %. *)
Example distinct_owners_shares :
  let out := analyze distinctWorld in
  map (fun r => (r_owner r, currentAmount r, airdropShare r)) (eligibleRecords out.2)
    = [(wallet1, "150,000,000", "75.0000"); (wallet2, "50,000,000", "25.0000")] /\
  totalEligibleKoko out.2 = 200000000 /\
  shareSum out.2 = Some 1000000.
Proof. vm_compute. repeat split. Qed.

(** ** Cache round trip *)

Section CacheRoundTrip.
Import CacheManager.

Lemma JSValue_nested_ind (P : JSValue -> Prop) :
  P VUndefined -> P VNull -> (forall b, P (VBool b)) -> (forall n, P (VNumber n)) ->
  P VNaN -> (forall s, P (VString s)) -> (forall t, P (VDate t)) ->
  (forall items, Forall P items -> P (VArray items)) ->
  (forall fields, Forall (fun kv => P kv.2) fields -> P (VObject fields)) ->
  forall v, P v.
Proof.
  intros Hu Hn Hb Hnum Hnan Hs Hd Harr Hobj. fix IH 1.
  intros [ | | b | n | | s | t | items | fields];
    [exact Hu | exact Hn | apply Hb | apply Hnum | exact Hnan | apply Hs | apply Hd | | ].
  - apply Harr. induction items as [|x items IHitems]; constructor; [apply IH | exact IHitems].
  - apply Hobj. induction fields as [|[k x] fields IHfields]; constructor;
      [apply IH | exact IHfields].
Qed.

(** A JSON-serializable value is printed to a document that parses back
    to it. *)
Lemma stringify_parse v :
  serializable v = true -> exists d, stringify v = Some d /\ parse d = v.
Proof.
  induction v as [ | | b | n | | s | t | items IH | fields IH] using JSValue_nested_ind;
    simpl; try discriminate; try (by eexists).
  - intros Hall. eexists. split; [reflexivity|]. simpl. f_equal.
    induction IH as [|x items Hx _ IHitems]; simpl in *; [done|].
    apply andb_true_iff in Hall as [Hsx Hsi].
    destruct (Hx Hsx) as (d & Hprint & Hparse). rewrite Hprint. simpl.
    by rewrite Hparse, IHitems.
  - intros Hall. eexists. split; [reflexivity|]. simpl. f_equal.
    induction IH as [|[k x] fields Hx _ IHfields]; simpl in *; [done|].
    apply andb_true_iff in Hall as [Hsx Hsf].
    destruct (Hx Hsx) as (d & Hprint & Hparse). rewrite Hprint. simpl.
    by rewrite Hparse, IHfields.
Qed.

(** [new Map(entries)] on entries with distinct keys. *)
Lemma Map_of_lookup (es : list (string * JSValue)) (k : string) :
  NoDup es.*1 -> Map_of es !! k = (list_to_map es : gmap string JSValue) !! k.
Proof.
  unfold Map_of.
  assert (Hgen : forall (m : gmap string JSValue),
             NoDup es.*1 ->
             foldl (fun m kv => <[kv.1 := kv.2]> m) m es !! k =
             match (list_to_map es : gmap string JSValue) !! k with
             | Some v => Some v
             | None => m !! k
             end).
  { induction es as [|[k0 v0] es IH]; intros m Hnd; simpl.
    - by rewrite lookup_empty.
    - apply NoDup_cons in Hnd as [Hk0 Hnd]. rewrite IH by done.
      destruct (decide (k0 = k)) as [->|Hne].
      + rewrite !lookup_insert_eq. by rewrite (not_elem_of_list_to_map_1 _ _ Hk0).
      + rewrite !lookup_insert_ne by done. done. }
  intros Hnd. rewrite Hgen by done.
  rewrite lookup_empty. by destruct (_ !! k).
Qed.

(** The entries a reader finds are those the writer held whose value
    prints, each replaced by what its text parses to. *)
Lemma reload_keys (l : list (string * JSValue)) (k : string) :
  k ∈ (map (fun kv => match kv with (k, x) => (k, parse x) end)
         (flat_map (fun kv => match kv with
                              | (k, x) => match stringify x with
                                          | Some d => [(k, d)]
                                          | None => []
                                          end
                              end) l)).*1 ->
  k ∈ l.*1.
Proof.
  induction l as [|[k0 x] l IH]; simpl; [done|].
  destruct (stringify x); simpl; rewrite ?elem_of_cons; intuition.
Qed.

Lemma reload_NoDup (l : list (string * JSValue)) :
  NoDup l.*1 ->
  NoDup (map (fun kv => match kv with (k, x) => (k, parse x) end)
           (flat_map (fun kv => match kv with
                                | (k, x) => match stringify x with
                                            | Some d => [(k, d)]
                                            | None => []
                                            end
                                end) l)).*1.
Proof.
  induction l as [|[k0 x] l IH]; simpl; [done|].
  intros [Hk0 Hnd]%NoDup_cons. destruct (stringify x); simpl; [|by apply IH].
  apply NoDup_cons. split; [|by apply IH].
  intros Hin. by apply Hk0, reload_keys.
Qed.

Lemma reload_elem (l : list (string * JSValue)) k v d :
  (k, v) ∈ l -> stringify v = Some d ->
  (k, parse d) ∈ map (fun kv => match kv with (k, x) => (k, parse x) end)
                   (flat_map (fun kv => match kv with
                                        | (k, x) => match stringify x with
                                                    | Some d => [(k, d)]
                                                    | None => []
                                                    end
                                        end) l).
Proof.
  intros Hin Hprint. induction l as [|[k0 x] l IH]; [by apply elem_of_nil in Hin|].
  apply elem_of_cons in Hin as [Heq|Hin]; simpl.
  - injection Heq as <- <-. rewrite Hprint. simpl. apply elem_of_cons. by left.
  - destruct (stringify x); simpl; [apply elem_of_cons; right|]; by apply IH.
Qed.

Lemma reload_keys_printed (l : list (string * JSValue)) (k : string) :
  k ∈ (map (fun kv => match kv with (k, x) => (k, parse x) end)
         (flat_map (fun kv => match kv with
                              | (k, x) => match stringify x with
                                          | Some d => [(k, d)]
                                          | None => []
                                          end
                              end) l)).*1 ->
  exists x d, (k, x) ∈ l /\ stringify x = Some d.
Proof.
  induction l as [|[k0 x] l IH]; simpl; [by intros ?%elem_of_nil|].
  destruct (stringify x) as [d|] eqn:Hx; simpl.
  - intros [->|Hin]%elem_of_cons.
    + exists x, d. split; [apply elem_of_cons; by left | done].
    + destruct (IH Hin) as (x' & d' & Hin' & Hd'). exists x', d'.
      split; [apply elem_of_cons; by right | done].
  - intros Hin. destruct (IH Hin) as (x' & d' & Hin' & Hd'). exists x', d'.
    split; [apply elem_of_cons; by right | done].
Qed.

(** The outcomes of [init]. *)
Lemma init_returns disk c c1 :
  init disk c = (Ok tt, c1) ->
  initialized c1 = true /\ writeTimeout c1 = writeTimeout c /\
  (initialized c = true \/ is_Some (load disk)) /\
  forall disk', init disk' c1 = (Ok tt, c1).
Proof.
  unfold init. destruct (initialized c) eqn:E.
  - intros [= <-]. rewrite E. auto.
  - destruct (load disk) as [loaded|] eqn:Hload; [|done].
    intros [= <-]. cbn. eauto.
Qed.

Lemma init_throws disk c e c1 :
  init disk c = (Throw e, c1) ->
  e = LoggerNotDefined /\ c1 = c /\ initialized c = false /\ load disk = None.
Proof.
  unfold init. destruct (initialized c); [done|].
  destruct (load disk); [done|]. by intros [= <- <-].
Qed.

Lemma init_loadable disk c :
  initialized c = true \/ is_Some (load disk) -> exists c1, init disk c = (Ok tt, c1).
Proof.
  unfold init. intros [-> | [loaded ->]]; [eauto|].
  destruct (initialized c); eauto.
Qed.

(** The first access of a fresh instance. *)
Lemma get_new disk key :
  get disk key new =
  match load disk with
  | Some loaded =>
      (Ok (default VUndefined (loaded !! key)),
       {| cache := loaded; initialized := true; writeTimeout := None |})
  | None => (Throw LoggerNotDefined, new)
  end.
Proof. unfold get, init. cbn. by destruct (load disk). Qed.

(** [set] resolves exactly when the instance is initialized or the file
    can be loaded; [flush] writes exactly when the directory is usable. *)
Lemma set_resolves disk now key value c :
  (set disk now key value c).1 = Ok tt <-> initialized c = true \/ is_Some (load disk).
Proof.
  unfold set. split.
  - destruct (init disk c) as [[[]|e] c1] eqn:Hinit; [|done].
    intros _. by apply init_returns in Hinit as (_ & _ & ? & _).
  - intros [c1 ->]%(init_loadable disk). done.
Qed.

Lemma flush_writes disk c : (flush disk c).1 = Ok tt <-> usable disk = true.
Proof.
  unfold flush. destruct (usable disk); cbn; split; done.
Qed.

(** What a fresh instance loads after a flush. *)
Lemma flush_load disk c :
  usable disk = true ->
  exists loaded,
    load (flush disk c).2 = Some loaded /\
    forall key, loaded !! key = cache c !! key ≫= fun v => parse <$> stringify v.
Proof.
  intros Husable. unfold flush, load. rewrite Husable. cbn [stringify fromEntries].
  cbn [snd usable content default parse entries fmap option_fmap option_map].
  cbn [id parse entries fmap option_fmap option_map default].
  rewrite ?Husable.
  eexists. split; [reflexivity|]. intros key.
  rewrite Map_of_lookup by apply reload_NoDup, NoDup_fst_map_to_list.
  destruct (cache c !! key) as [v|] eqn:Hkey; cbn [mbind option_bind].
  - destruct (stringify v) as [d|] eqn:Hv; cbn [fmap option_fmap option_map].
    + apply elem_of_list_to_map_1; [apply reload_NoDup, NoDup_fst_map_to_list|].
      apply (reload_elem _ key v d); [|done]. by apply elem_of_map_to_list.
    + apply not_elem_of_list_to_map_1. intros Hin.
      destruct (reload_keys_printed _ _ Hin) as (x & d & Hx & Hd).
      apply elem_of_map_to_list in Hx. congruence.
  - apply not_elem_of_list_to_map_1. intros Hin%reload_keys.
    apply list_elem_of_fmap in Hin as ([k x] & -> & Hx).
    apply elem_of_map_to_list in Hx. simpl in Hx, Hkey. congruence.
Qed.

Lemma flush_get disk c key :
  usable disk = true ->
  (get (flush disk c).2 key new).1 =
  Ok (default VUndefined (cache c !! key ≫= fun v => parse <$> stringify v)).
Proof.
  intros Husable. destruct (flush_load disk c Husable) as (loaded & Hload & Hkeys).
  rewrite get_new, Hload. cbn [fst]. by rewrite Hkeys.
Qed.

(** C9. A value without [undefined], [NaN] or [Date] inside is written
    with [set]; when that call resolved, the timer it set (5000 ms) has
    fired and its write succeeded, [get] on a fresh instance reading the
    same file returns the value. *)
Theorem cache_round_trip disk c now later key value :
  serializable value = true ->
  (set disk now key value c).1 = Ok tt ->
  now + 5000 <= later ->
  (elapse later disk (set disk now key value c).2).1 = Ok tt ->
  (get (elapse later disk (set disk now key value c).2).2.1 key new).1 = Ok value.
Proof.
  intros Hser Hset Hlater.
  destruct (stringify_parse value Hser) as (d & Hprint & Hparse).
  unfold set in *. destruct (init disk c) as [[[]|e] c1]; [|done].
  unfold elapse, scheduleWrite. cbn [snd writeTimeout].
  destruct (Z.leb_spec (now + 5000) later) as [_|]; [|lia].
  cbn [fst snd]. intros Husable%flush_writes.
  rewrite flush_get by done. cbn [cache].
  rewrite lookup_insert_eq. cbn [mbind option_bind]. rewrite Hprint. cbn.
  by rewrite Hparse.
Qed.

Lemma cache_round_trip_witness :
  let disk := {| usable := true; content := None |} in
  let value := VObject [("owner", VString wallet1); ("amount", VNumber 60000000);
                        ("tags", VArray [VBool true; VNull])] in
  serializable value = true /\
  (set disk 0 "all_holders" value new).1 = Ok tt /\
  0 + 5000 <= 5000 /\
  (elapse 5000 disk (set disk 0 "all_holders" value new).2).1 = Ok tt /\
  (get (elapse 5000 disk (set disk 0 "all_holders" value new).2).2.1 "all_holders" new).1
  = Ok value.
Proof.
  cbn zeta.
  split; [reflexivity|]. split; [reflexivity|]. split; [lia|]. split; [reflexivity|].
  apply (cache_round_trip {| usable := true; content := None |} new 0 5000 "all_holders"
           (VObject [("owner", VString wallet1); ("amount", VNumber 60000000);
                     ("tags", VArray [VBool true; VNull])])).
  - reflexivity.
  - reflexivity.
  - lia.
  - reflexivity.
Defined.

(** A [Date] does not come back: the analysis the program caches holds
    its first acquisition as a [Date], and a fresh instance reads the ISO
    text of it. *)
Example cached_date_comes_back_as_text :
  let disk := {| usable := true; content := None |} in
  let value := VObject [("isEligible", VBool true); ("firstAcquired", VDate 1700000000123)] in
  (get (elapse 5000 disk (set disk 0 "analysis_w" value new).2).2.1 "analysis_w" new).1
  = Ok (VObject [("isEligible", VBool true);
                 ("firstAcquired", VString "2023-11-14T22:13:20.123Z")]).
Proof. vm_compute. reflexivity. Qed.

(** Before the timer fires the file does not hold the value; in a
    directory that cannot be used neither [set] nor [get] resolves. *)
Example cache_unflushed_or_unwritable :
  let value := VString "v" in
  let disk := {| usable := true; content := None |} in
  let locked := {| usable := false; content := None |} in
  (get (elapse 4999 disk (set disk 0 "k" value new).2).2.1 "k" new).1 = Ok VUndefined /\
  set locked 0 "k" value new = (Throw LoggerNotDefined, new) /\
  get locked "k" new = (Throw LoggerNotDefined, new).
Proof. vm_compute. repeat split. Qed.

(** A file that holds no JSON text, or the document [null]: [set] rejects
    with the [ReferenceError], stores nothing and sets no timer, so no
    write follows and a fresh instance rejects in its turn. *)
Example cache_garbled_file :
  let value := VString "v" in
  let garbled := {| usable := true; content := Some Garbled |} in
  let null := {| usable := true; content := Some (Text JNull) |} in
  set garbled 0 "k" value new = (Throw LoggerNotDefined, new) /\
  set null 0 "k" value new = (Throw LoggerNotDefined, new) /\
  elapse 5000 garbled (set garbled 0 "k" value new).2 = (Ok tt, (garbled, new)) /\
  get garbled "k" new = (Throw LoggerNotDefined, new).
Proof. vm_compute. repeat split. Qed.

(** A second [set] within the window postpones the write; the one flush
    then carries both values, next to what the file held before. *)
Example cache_debounce :
  let disk := {| usable := true; content := Some (Text (JObj [("old", JNum 1)])) |} in
  let c1 := (set disk 0 "a" (VNumber 2) new).2 in
  let c2 := (set disk 3000 "b" (VNumber 3) (elapse 3000 disk c1).2.2).2 in
  (elapse 5000 disk c2).2.1 = disk /\
  let disk' := (elapse 8000 disk (elapse 5000 disk c2).2.2).2.1 in
  (get disk' "old" new).1 = Ok (VNumber 1) /\
  (get disk' "a" new).1 = Ok (VNumber 2) /\
  (get disk' "b" new).1 = Ok (VNumber 3).
Proof. vm_compute. repeat split. Qed.

End CacheRoundTrip.

(** * Further properties of the code *)

(** ** The scan, read as a whole *)

Lemma scan_hasSold_iff wallet transactions :
  forall st,
    s_hasSold (scan wallet transactions st) = true <->
    s_hasSold st = true \/
    Exists (fun tx => sold (analyzeTransaction tx wallet) = true) transactions.
Proof.
  induction transactions as [|tx rest IH]; intros st; simpl.
  - split; [by left|]. intros [?|H]; [done | inversion H].
  - destruct (sold (analyzeTransaction tx wallet)) eqn:Hs; simpl.
    + split; [|done]. intros _. right. by left.
    + rewrite IH. simpl. split; (intros [?|H]; [by left|right]).
      * by right.
      * inversion H; subst; [congruence | done].
Qed.

Lemma scan_firstAcquired_origin wallet transactions :
  forall st f,
    s_firstAcquired (scan wallet transactions st) = Some f ->
    s_firstAcquired st = Some f \/
    exists tx, In tx transactions /\
               acquired (analyzeTransaction tx wallet) = true /\
               date (analyzeTransaction tx wallet) = f.
Proof.
  induction transactions as [|tx rest IH]; intros st f; simpl; [by left|].
  set (c := analyzeTransaction tx wallet).
  assert (Hstep : forall f',
             (if acquired c && earlier (date c) (s_firstAcquired st)
              then Some (date c) else s_firstAcquired st) = Some f' ->
             s_firstAcquired st = Some f' \/ (acquired c = true /\ date c = f')).
  { intros f'. destruct (acquired c); simpl; [|by left].
    destruct (earlier _ _); [|by left]. intros [= <-]. by right. }
  destruct (sold c); simpl.
  - intros H. destruct (Hstep f H) as [?|[? ?]]; [by left|]. right. exists tx. eauto.
  - intros H. destruct (IH _ _ H) as [H'|(tx' & Hin & Ha & Hd)]; simpl in *.
    + destruct (Hstep f H') as [?|[? ?]]; [by left|]. right. exists tx. eauto.
    + right. exists tx'. eauto.
Qed.

(** Without a sale the first acquisition found is the earliest one. *)
Lemma scan_firstAcquired_least wallet transactions :
  Forall (fun tx => sold (analyzeTransaction tx wallet) = false) transactions ->
  forall st f,
    s_firstAcquired (scan wallet transactions st) = Some f ->
    (forall f0, s_firstAcquired st = Some f0 -> f <= f0) /\
    (forall tx, In tx transactions ->
                acquired (analyzeTransaction tx wallet) = true ->
                f <= date (analyzeTransaction tx wallet)).
Proof.
  induction 1 as [|tx rest Htx _ IH]; intros st f; simpl.
  - intros ->. split; [intros f0 [= ->]; lia | intros tx []].
  - rewrite Htx. intros Hf. destruct (IH _ _ Hf) as [Hst Hrest]. simpl in Hst.
    set (c := analyzeTransaction tx wallet) in *.
    destruct (acquired c) eqn:Ha; simpl in Hst.
    + destruct (s_firstAcquired st) as [f1|] eqn:Hf1; simpl in Hst.
      * destruct (Z.ltb_spec (date c) f1).
        -- pose proof (Hst _ eq_refl). split.
           ++ intros f0 [= <-]. lia.
           ++ intros tx' [<-|Hin] Ha'; [fold c; lia | by apply Hrest].
        -- pose proof (Hst _ eq_refl). split.
           ++ intros f0 [= <-]. done.
           ++ intros tx' [<-|Hin] Ha'; [fold c; lia | by apply Hrest].
      * pose proof (Hst _ eq_refl). split; [done|].
        intros tx' [<-|Hin] Ha'; [by fold c | by apply Hrest].
    + split; [exact Hst|].
      intros tx' [<-|Hin] Ha'; [fold c in Ha'; congruence | by apply Hrest].
Qed.

(** Two transactions that are no sales can be scanned in either order. *)
Lemma scan_swap wallet x y rest st :
  sold (analyzeTransaction x wallet) = false ->
  sold (analyzeTransaction y wallet) = false ->
  scan wallet (x :: y :: rest) st = scan wallet (y :: x :: rest) st.
Proof.
  intros Hx Hy. simpl. rewrite Hx, Hy. simpl. f_equal.
  set (cx := analyzeTransaction x wallet). set (cy := analyzeTransaction y wallet).
  f_equal; [|lia].
  destruct (acquired cx), (acquired cy), (s_firstAcquired st) as [f|]; simpl; try done;
    repeat (match goal with
            | |- context [?a <? ?b] => destruct (Z.ltb_spec a b); simpl
            end); try done; try lia; f_equal; lia.
Qed.

Lemma scan_Permutation wallet (l l' : list Tx) :
  l ≡ₚ l' ->
  Forall (fun tx => sold (analyzeTransaction tx wallet) = false) l ->
  forall st, scan wallet l st = scan wallet l' st.
Proof.
  induction 1 as [|x l l' Hperm IH|x y l|l l' l'' H1 IH1 H2 IH2]; intros Hno st.
  - done.
  - inversion Hno as [|? ? Hx Hl]; subst. simpl. rewrite Hx. by apply IH.
  - inversion Hno as [|? ? Hy Hl]; subst. inversion Hl as [|? ? Hx Hl']; subst.
    by apply scan_swap.
  - rewrite IH1 by done. apply IH2. by rewrite <- H1.
Qed.

(** X1. The verdict and the reason of [processWalletTransactions] never
    disagree: the analysis is eligible exactly when its reason is the
    success text. *)
Theorem verdict_agrees_with_reason now wallet currentBalance transactions :
  let a := processWalletTransactions now wallet currentBalance transactions in
  isEligible a = true <-> reason a = "Meets all eligibility criteria".
Proof.
  cbn zeta. destruct transactions as [|tx rest]; [by split|].
  cbn [processWalletTransactions isEligible reason]. unfold getEligibilityReason.
  generalize (scan wallet (tx :: rest)
                {| s_firstAcquired := None; s_maxHeld := currentBalance;
                   s_hasSold := false |}).
  intros st. change (of_bool true) with FlagTrue.
  rewrite !js_and_true, !of_bool_true, present_true, !Z.leb_le, negb_true_iff.
  destruct (Z.ltb_spec currentBalance CONFIG.MIN_TOKENS).
  { split; [lia | intros Hr; cbn [String.append] in Hr; discriminate]. }
  destruct (Z.ltb_spec CONFIG.MAX_TOKENS currentBalance).
  { split; [lia | intros Hr; cbn [String.append] in Hr; discriminate]. }
  destruct (s_hasSold st).
  { split; [by intros [[_ ?] _] | discriminate]. }
  destruct (s_firstAcquired st) as [f|]; cbn [negb bool_decide].
  - rewrite bool_decide_eq_true_2 by eauto. cbn [negb].
    destruct (Z.ltb_spec (holdingDaysOf now (Some f)) (CONFIG.MONTHS_REQUIRED * 30)).
    + split; [lia | intros Hr; cbn [String.append] in Hr; discriminate].
    + split; [done|]. intros _. repeat split; eauto; lia.
  - rewrite bool_decide_eq_false_2 by (by intros [? ?]). cbn [negb].
    split; [|discriminate]. intros [[[_ Hs] _] _]. by destruct Hs.
Qed.

(** A transaction [filterRelevantTransactions] drops is a no-op for
    [analyzeTransaction]. *)
Lemma irrelevant_is_noop tx wallet :
  existsb (fun balance => String.eqb (mint balance) CONFIG.KOKO_TOKEN)
    (balancesOrEmpty (meta tx ≫= preTokenBalances) ++
     balancesOrEmpty (meta tx ≫= postTokenBalances)) = false ->
  analyzeTransaction tx wallet =
  {| acquired := false; sold := false; date := blockTime tx * 1000; post_amount := 0 |}.
Proof.
  intros Hno. unfold analyzeTransaction.
  destruct (meta tx) as [[[pres|] [posts|]]|]; simpl in *; try done.
  rewrite existsb_app in Hno. apply orb_false_iff in Hno as [Hpre _].
  assert (Hfind : List.find (tracks wallet) pres = None).
  { clear -Hpre. induction pres as [|b pres IH]; simpl in *; [done|].
    apply orb_false_iff in Hpre as [Hb Hpre]. unfold tracks at 1. rewrite Hb. simpl.
    by apply IH. }
  by rewrite Hfind.
Qed.

Lemma scan_filterRelevantTransactions wallet transactions :
  forall st, 0 <= s_maxHeld st ->
    scan wallet (filterRelevantTransactions transactions) st = scan wallet transactions st.
Proof.
  unfold filterRelevantTransactions.
  induction transactions as [|tx rest IH]; intros st Hst; [done|].
  rewrite filter_cons. case_decide as Hrel.
  - simpl. destruct (sold (analyzeTransaction tx wallet)); [done|].
    apply IH. simpl. lia.
  - rewrite IH by done. simpl.
    rewrite (irrelevant_is_noop tx wallet) by (by destruct (existsb _ _)).
    simpl. rewrite Z.max_l by lia. by destruct st.
Qed.

(** X2. Filtering is transparent to the analysis: for a balance that is
    not negative, the transactions [filterRelevantTransactions] drops
    would not have changed the analysis, as long as the filter leaves
    something to analyse. *)
Theorem filter_keeps_analysis now wallet currentBalance transactions :
  filterRelevantTransactions transactions <> [] ->
  0 <= currentBalance ->
  processWalletTransactions now wallet currentBalance
    (filterRelevantTransactions transactions)
  = processWalletTransactions now wallet currentBalance transactions.
Proof.
  intros Hne Hpos.
  destruct (filterRelevantTransactions transactions) as [|tx rest] eqn:Hf; [done|].
  destruct transactions as [|tx0 rest0]; [done|].
  unfold processWalletTransactions. rewrite <- Hf.
  by rewrite scan_filterRelevantTransactions.
Qed.

Lemma filter_keeps_analysis_witness :
  let unrelated := {| blockTime := 1700000000; meta := None |} in
  let transactions := [unrelated; transfer 200 wallet1 0 60000000] in
  filterRelevantTransactions transactions <> [] /\
  0 <= 60000000 /\
  processWalletTransactions now0 wallet1 60000000 (filterRelevantTransactions transactions)
  = processWalletTransactions now0 wallet1 60000000 transactions.
Proof.
  split; [discriminate|]. split; [lia|].
  apply (filter_keeps_analysis now0 wallet1 60000000
           [{| blockTime := 1700000000; meta := None |}; transfer 200 wallet1 0 60000000]).
  - discriminate.
  - lia.
Defined.

(** When the filter drops everything the analysis does change: the
    unfiltered list is scanned, the filtered one is reported as empty. *)
Example filter_to_empty_changes_reason :
  let transactions := [{| blockTime := 1700000000; meta := None |}] in
  reason (processWalletTransactions now0 wallet1 60000000
            (filterRelevantTransactions transactions))
    = "No transaction history found" /\
  reason (processWalletTransactions now0 wallet1 60000000 transactions)
    = "Unable to determine first acquisition".
Proof. vm_compute. split; reflexivity. Qed.

(** X3. Without a sale the order of the transactions does not matter:
    the first acquisition is a running minimum and the maximum held a
    running maximum. *)
Theorem order_irrelevant_without_sale now wallet currentBalance (l l' : list Tx) :
  l ≡ₚ l' ->
  Forall (fun tx => sold (analyzeTransaction tx wallet) = false) l ->
  processWalletTransactions now wallet currentBalance l
  = processWalletTransactions now wallet currentBalance l'.
Proof.
  intros Hperm Hno.
  destruct l as [|x l0].
  { apply Permutation_nil_l in Hperm. by subst. }
  destruct l' as [|x' l0'].
  { by apply Permutation_nil_r in Hperm. }
  unfold processWalletTransactions.
  by rewrite (scan_Permutation wallet _ _ Hperm Hno).
Qed.

Lemma order_irrelevant_without_sale_witness :
  let l := [transfer 5 wallet1 60000000 80000000; transfer 300 wallet1 0 60000000] in
  let l' := [transfer 300 wallet1 0 60000000; transfer 5 wallet1 60000000 80000000] in
  l ≡ₚ l' /\
  Forall (fun tx => sold (analyzeTransaction tx wallet1) = false) l /\
  processWalletTransactions now0 wallet1 80000000 l
  = processWalletTransactions now0 wallet1 80000000 l'.
Proof.
  assert (Hperm : [transfer 5 wallet1 60000000 80000000; transfer 300 wallet1 0 60000000]
                  ≡ₚ [transfer 300 wallet1 0 60000000; transfer 5 wallet1 60000000 80000000])
    by apply perm_swap.
  assert (Hno : Forall (fun tx => sold (analyzeTransaction tx wallet1) = false)
                  [transfer 5 wallet1 60000000 80000000; transfer 300 wallet1 0 60000000])
    by (repeat constructor).
  split; [exact Hperm|]. split; [exact Hno|].
  exact (order_irrelevant_without_sale now0 wallet1 80000000 _ _ Hperm Hno).
Defined.

(** With a sale the order does matter: the scan stops at the first sale
    it meets. *)
Example order_matters_with_sale :
  let buy := transfer 300 wallet1 0 90000000 in
  let sell := transfer 5 wallet1 90000000 80000000 in
  firstAcquired (processWalletTransactions now0 wallet1 80000000 [sell; buy]) = None /\
  firstAcquired (processWalletTransactions now0 wallet1 80000000 [buy; sell])
    = Some (now0 - 300 * day).
Proof. vm_compute. split; reflexivity. Qed.

(** X4. [hasSold] is set exactly when some transaction of the list is a
    sale. *)
Theorem hasSold_iff_some_sale now wallet currentBalance transactions :
  hasSold (processWalletTransactions now wallet currentBalance transactions) = true <->
  Exists (fun tx => sold (analyzeTransaction tx wallet) = true) transactions.
Proof.
  destruct transactions as [|tx rest].
  - simpl. split; [discriminate | intros H; inversion H].
  - cbn [processWalletTransactions hasSold]. rewrite scan_hasSold_iff. simpl.
    split; [by intros [?|?] | by right].
Qed.

(** X5. What an eligible verdict guarantees: the balance lies between the
    floor and the ceiling, no transaction of the list is a sale, and the
    earliest transaction of the list that raised the balance dates back
    at least 90 days of 86,400,000 ms. *)
Theorem eligible_sound now wallet currentBalance transactions :
  isEligible (processWalletTransactions now wallet currentBalance transactions) = true ->
  (CONFIG.MIN_TOKENS <= currentBalance <= CONFIG.MAX_TOKENS) /\
  Forall (fun tx => sold (analyzeTransaction tx wallet) = false) transactions /\
  exists first,
    In first transactions /\
    acquired (analyzeTransaction first wallet) = true /\
    date (analyzeTransaction first wallet) + 90 * msPerDay <= now /\
    forall tx, In tx transactions -> acquired (analyzeTransaction tx wallet) = true ->
               date (analyzeTransaction first wallet) <= date (analyzeTransaction tx wallet).
Proof.
  intros Helig.
  pose proof (proj1 (processWalletTransactions_isEligible_iff now wallet currentBalance
                       transactions) Helig) as (Hmin & Hmax & Hfa & Hsold & Hdays).
  destruct transactions as [|tx0 rest]; [done|].
  cbn [processWalletTransactions firstAcquired holdingDays hasSold] in Hfa, Hdays, Hsold.
  assert (Hno : Forall (fun tx => sold (analyzeTransaction tx wallet) = false) (tx0 :: rest)).
  { apply Forall_forall. intros tx Hin.
    destruct (sold (analyzeTransaction tx wallet)) eqn:Hs; [|done].
    match type of Hsold with s_hasSold (scan _ ?l ?st) = false =>
      assert (s_hasSold (scan wallet l st) = true) as Hyes; [|congruence] end.
    apply scan_hasSold_iff. right. apply Exists_exists. eauto. }
  split; [lia|]. split; [exact Hno|].
  match type of Hfa with s_firstAcquired (scan _ ?l ?st) <> None =>
    destruct (s_firstAcquired (scan wallet l st)) as [f|] eqn:Hf; [|done];
    destruct (scan_firstAcquired_origin wallet l st f Hf) as [?|(first & Hin & Ha & Hd)];
      [done|];
    destruct (scan_firstAcquired_least wallet l Hno st f Hf) as [_ Hleast]
  end.
  exists first. split; [done|]. split; [done|]. rewrite Hd. split.
  - unfold holdingDaysOf in Hdays. change msPerDay with 86400000 in *.
    change (CONFIG.MONTHS_REQUIRED * 30) with 90 in Hdays.
    pose proof (Z.mul_div_le (now - f) 86400000 ltac:(lia)). lia.
  - exact Hleast.
Qed.

Lemma eligible_sound_witness :
  let transactions := longHeld wallet1 60000000 in
  (isEligible (processWalletTransactions now0 wallet1 60000000 transactions) = true) /\
  (CONFIG.MIN_TOKENS <= 60000000 <= CONFIG.MAX_TOKENS) /\
  Forall (fun tx => sold (analyzeTransaction tx wallet1) = false) transactions /\
  exists first,
    In first transactions /\
    acquired (analyzeTransaction first wallet1) = true /\
    date (analyzeTransaction first wallet1) + 90 * msPerDay <= now0 /\
    forall tx, In tx transactions -> acquired (analyzeTransaction tx wallet1) = true ->
               date (analyzeTransaction first wallet1) <= date (analyzeTransaction tx wallet1).
Proof.
  split; [reflexivity|].
  apply (eligible_sound now0 wallet1 60000000 (longHeld wallet1 60000000)).
  reflexivity.
Defined.

(** X6. The loop of [analyzeHolder] and its own [analyzeTransaction] agree
    with those of the service on every transaction list: same
    classification of each transaction, same first acquisition, same
    [hasSold]; its [maxHeld] is never above the one of the service (it
    leaves out the post-balance of the sale that ends the scan). *)
Theorem analyzer_loop_agrees wallet transactions st :
  (forall tx, analyzeTransaction' tx wallet = analyzeTransaction tx wallet) /\
  s_firstAcquired (scan' wallet transactions st)
    = s_firstAcquired (scan wallet transactions st) /\
  s_hasSold (scan' wallet transactions st) = s_hasSold (scan wallet transactions st) /\
  s_maxHeld (scan' wallet transactions st) <= s_maxHeld (scan wallet transactions st).
Proof.
  split; [intros tx; apply analyzeTransaction_agree|].
  assert (Hgen : forall st' st0,
             s_firstAcquired st' = s_firstAcquired st0 ->
             s_hasSold st' = s_hasSold st0 ->
             s_maxHeld st' <= s_maxHeld st0 ->
             s_firstAcquired (scan' wallet transactions st')
               = s_firstAcquired (scan wallet transactions st0) /\
             s_hasSold (scan' wallet transactions st')
               = s_hasSold (scan wallet transactions st0) /\
             s_maxHeld (scan' wallet transactions st')
               <= s_maxHeld (scan wallet transactions st0)).
  { induction transactions as [|tx rest IH]; intros st' st0 Hfa Hs Hm; [done|].
    simpl. rewrite analyzeTransaction_agree, Hfa.
    destruct (sold (analyzeTransaction tx wallet)); simpl.
    - split; [done|]. split; [done|]. lia.
    - apply IH; simpl; [done|done|].
      destruct (Z.ltb_spec (s_maxHeld st') (post_amount (analyzeTransaction tx wallet))); lia. }
  by apply Hgen.
Qed.

(** The sale's post-balance is where the two differ. *)
Example analyzer_maxHeld_differs :
  let st := {| s_firstAcquired := None; s_maxHeld := 10; s_hasSold := false |} in
  let sale := [transfer 5 wallet1 90 50] in
  s_maxHeld (scan' wallet1 sale st) = 10 /\ s_maxHeld (scan wallet1 sale st) = 50.
Proof. vm_compute. split; reflexivity. Qed.

(** ** Signatures and transaction details *)

Example fetchAllSignatures_pages :
  let w := startWorld deadChain noAccounts in
  let out0 := fetchAllSignatures (ledger (sampleEntries 0) (fun _ => None)) wallet1 5 w in
  let out1 := fetchAllSignatures (ledger (sampleEntries 999) (fun _ => None)) wallet1 5 w in
  let out2 := fetchAllSignatures (ledger (sampleEntries 1000) (fun _ => None)) wallet1 5 w in
  let out3 := fetchAllSignatures (ledger (sampleEntries 2001) (fun _ => None)) wallet1 5 w in
  (out0.1 = Ok (Some []) /\ requests out0.2 = 1%nat /\ trace out0.2 = []) /\
  (option_map length <$> value_of out1.1 = Some (Some 999%nat) /\
   requests out1.2 = 1%nat /\ trace out1.2 = []) /\
  (option_map length <$> value_of out2.1 = Some (Some 1000%nat) /\
   requests out2.2 = 2%nat /\ trace out2.2 = [Sleep 100]) /\
  (option_map length <$> value_of out3.1 = Some (Some 2001%nat) /\
   requests out3.2 = 3%nat /\ trace out3.2 = [Sleep 100; Sleep 100]).
Proof. vm_compute. repeat split. Qed.

Lemma insert_desc_perm {A} (key : A -> Z) x l : insert_desc key x l ≡ₚ x :: l.
Proof.
  induction l as [|y rest IH]; simpl; [done|].
  destruct (key y <=? key x); [done|]. rewrite IH. apply perm_swap.
Qed.

Lemma sort_desc_perm {A} (key : A -> Z) l : sort_desc key l ≡ₚ l.
Proof.
  induction l as [|x rest IH]; simpl; [done|].
  by rewrite insert_desc_perm, IH.
Qed.

Lemma insert_desc_sorted {A} (key : A -> Z) x l :
  StronglySorted (fun a b => key b <= key a) l ->
  StronglySorted (fun a b => key b <= key a) (insert_desc key x l).
Proof.
  induction 1 as [|y rest Hrest IH Hy]; simpl; [repeat constructor|].
  destruct (Z.leb_spec (key y) (key x)).
  - constructor; [by constructor|]. constructor; [done|].
    eapply Forall_impl; [exact Hy|]. simpl. intros. lia.
  - constructor; [done|]. rewrite insert_desc_perm. constructor; [lia | done].
Qed.

Lemma sort_desc_sorted {A} (key : A -> Z) l :
  StronglySorted (fun a b => key b <= key a) (sort_desc key l).
Proof.
  induction l as [|x rest IH]; simpl; [constructor|]. by apply insert_desc_sorted.
Qed.

(** The sort is stable: a list already in order comes back as it is. *)
Lemma sort_desc_sorted_id {A} (key : A -> Z) l :
  StronglySorted (fun a b => key b <= key a) l -> sort_desc key l = l.
Proof.
  induction 1 as [|x rest Hrest IH Hx]; [done|].
  simpl. fold (sort_desc key rest). rewrite IH.
  destruct rest as [|y rest']; [done|]. simpl.
  inversion Hx; subst. by rewrite (proj2 (Z.leb_le _ _)).
Qed.

Lemma entriesAfter_drop (entries : list SignatureInfo) :
  NoDup (map signature entries) ->
  forall i x, entries !! i = Some x ->
              entriesAfter (signature x) entries = drop (S i) entries.
Proof.
  induction entries as [|y rest IH]; intros Hnd i x Hi; [done|].
  apply NoDup_cons in Hnd as [Hy Hnd]. destruct i as [|i]; simpl in *.
  - injection Hi as ->. by rewrite String.eqb_refl.
  - destruct (String.eqb_spec (signature y) (signature x)) as [Heq|_].
    + exfalso. apply Hy. rewrite Heq. apply list_elem_of_fmap. exists x. split; [done|].
      by eapply list_elem_of_lookup_2.
    + by apply IH.
Qed.

(** The loop on a ledger: from a position [k] it collects what is left
    of the entries, in [length / 1000 + 1] requests with a pause between
    two requests. *)
Lemma fetchAllSignatures_loop_ledger entries details pubKey :
  NoDup (map signature entries) ->
  forall fuel k before acc w,
    match before with
    | None => k = 0%nat
    | Some s => exists x, entries !! pred k = Some x /\ s = signature x /\ (1 <= k)%nat
    end ->
    (length (drop k entries) / 1000 < fuel)%nat ->
    exists w',
      fetchAllSignatures_loop (ledger entries details) pubKey fuel before acc w
        = (Ok (Some (acc ++ drop k entries)), w') /\
      requests w' = (requests w + (length (drop k entries) / 1000 + 1))%nat /\
      trace w' = trace w ++ pauses (length (drop k entries) / 1000).
Proof.
  intros Hnd. induction fuel as [|fuel IH]; intros k before acc w Hbefore Hfuel; [lia|].
  assert (Hpage : match before with
                  | None => entries
                  | Some s => entriesAfter s entries
                  end = drop k entries).
  { destruct before as [s|]; [|by subst].
    destruct Hbefore as (x & Hx & -> & Hk).
    rewrite (entriesAfter_drop entries Hnd (pred k) x Hx). f_equal. lia. }
  set (rest := drop k entries) in *.
  cbn [fetchAllSignatures_loop]. unfold bind at 1.
  cbn [getSignaturesForAddress ledger]. rewrite Hpage.
  destruct (Nat.eqb_spec (length (take 1000 rest)) 0) as [Hzero|Hnz].
  { rewrite length_take in Hzero.
    assert (rest = []) as -> by (destruct rest; [done | simpl in Hzero; lia]).
    rewrite app_nil_r. eexists. split; [reflexivity|]. simpl.
    rewrite !app_nil_r. split; [lia|done]. }
  destruct (Nat.ltb_spec (length (take 1000 rest)) 1000) as [Hshort|Hfull].
  { rewrite length_take in Hshort.
    assert (length rest < 1000)%nat as Hlen by lia.
    rewrite take_ge by lia.
    rewrite (Nat.div_small (length rest) 1000) by done.
    eexists. split; [reflexivity|]. simpl. rewrite app_nil_r. split; [lia|done]. }
  rewrite length_take in Hfull.
  assert (1000 <= length rest)%nat as Hlen by lia.
  assert (Hlast : exists x, last (take 1000 rest) = Some x /\ entries !! (k + 999)%nat = Some x).
  { destruct (lookup_lt_is_Some_2 rest 999 ltac:(lia)) as [x Hx].
    exists x. split.
    - rewrite last_lookup, length_take, Nat.min_l by lia. simpl.
      by rewrite lookup_take_lt by lia.
    - subst rest. by rewrite lookup_drop in Hx. }
  destruct Hlast as (x & -> & Hx).
  unfold bind at 1, sleep at 1, modify at 1.
  match goal with |- context [fetchAllSignatures_loop _ _ fuel _ ?acc' ?w1] =>
    destruct (IH (k + 1000)%nat (Some (signature x)) acc' w1) as (w' & Hloop & Hreq & Htr)
  end.
  { exists x. split; [|split; [done|lia]]. rewrite <- Hx. f_equal. lia. }
  { replace (drop (k + 1000) entries) with (drop 1000 rest)
      by (subst rest; rewrite drop_drop; f_equal; lia).
    rewrite length_drop.
    assert (length rest / 1000 = S ((length rest - 1000) / 1000))%nat as Hdiv.
    { replace (length rest) with ((length rest - 1000) + 1 * 1000)%nat at 1 by lia.
      rewrite Nat.div_add by lia. lia. }
    lia. }
  exists w'. rewrite Hloop.
  replace (drop (k + 1000) entries) with (drop 1000 rest) in *
    by (subst rest; rewrite drop_drop; f_equal; lia).
  rewrite length_drop in Hreq, Htr.
  assert (length rest / 1000 = S ((length rest - 1000) / 1000))%nat as Hdiv.
  { replace (length rest) with ((length rest - 1000) + 1 * 1000)%nat at 1 by lia.
    rewrite Nat.div_add by lia. lia. }
  split; [|split].
  - by rewrite <- app_assoc, take_drop.
  - rewrite Hreq, Hdiv. cbn [requests set_requests set_clock set_trace]. lia.
  - rewrite Htr, Hdiv. cbn [trace set_requests set_clock set_trace pauses replicate].
    by rewrite <- app_assoc.
Qed.

(** X7. On a chain that holds the signatures of an address under
    distinct names, [fetchAllSignatures] returns every one of them, sorted
    by block time, newest first, after [n / 1000 + 1] requests separated
    by pauses of 100 ms, [n] being their number; when the chain lists them
    newest first already, it returns them as listed. *)
Theorem fetchAllSignatures_complete entries details pubKey fuel w :
  NoDup (map signature entries) ->
  (length entries / 1000 < fuel)%nat ->
  let out := fetchAllSignatures (ledger entries details) pubKey fuel w in
  out.1 = Ok (Some (sort_desc sig_blockTime entries)) /\
  sort_desc sig_blockTime entries ≡ₚ entries /\
  StronglySorted (fun a b => sig_blockTime b <= sig_blockTime a)
    (sort_desc sig_blockTime entries) /\
  (StronglySorted (fun a b => sig_blockTime b <= sig_blockTime a) entries ->
   sort_desc sig_blockTime entries = entries) /\
  requests out.2 = (requests w + (length entries / 1000 + 1))%nat /\
  trace out.2 = trace w ++ pauses (length entries / 1000).
Proof.
  intros Hnd Hfuel.
  destruct (fetchAllSignatures_loop_ledger entries details pubKey Hnd fuel 0 None [] w
              eq_refl Hfuel) as (w' & Hloop & Hreq & Htr).
  cbn zeta. unfold fetchAllSignatures, bind, ret. rewrite Hloop. cbn [fst snd fmap option_fmap option_map app drop].
  split; [done|]. split; [apply sort_desc_perm|]. split; [apply sort_desc_sorted|].
  split; [apply sort_desc_sorted_id|]. done.
Qed.

Lemma fetchAllSignatures_complete_witness :
  let entries := sampleEntries 3 in
  let out := fetchAllSignatures (ledger entries (fun _ => None)) wallet1 1
               (startWorld deadChain noAccounts) in
  NoDup (map signature entries) /\
  (length entries / 1000 < 1)%nat /\
  out.1 = Ok (Some (sort_desc sig_blockTime entries)) /\
  sort_desc sig_blockTime entries ≡ₚ entries /\
  StronglySorted (fun a b => sig_blockTime b <= sig_blockTime a)
    (sort_desc sig_blockTime entries) /\
  (StronglySorted (fun a b => sig_blockTime b <= sig_blockTime a) entries ->
   sort_desc sig_blockTime entries = entries) /\
  requests out.2 = (0 + (length entries / 1000 + 1))%nat /\
  trace out.2 = [] ++ pauses (length entries / 1000).
Proof.
  assert (Hnd : NoDup (map signature (sampleEntries 3))).
  { apply (bool_decide_unpack _). vm_compute. exact I. }
  assert (Hfuel : (length (sampleEntries 3) / 1000 < 1)%nat).
  { apply (bool_decide_unpack _). vm_compute. exact I. }
  split; [exact Hnd|]. split; [exact Hfuel|].
  exact (fetchAllSignatures_complete (sampleEntries 3) (fun _ => None) wallet1 1
           (startWorld deadChain noAccounts) Hnd Hfuel).
Defined.

(** X8. Whatever the chain answers, a list [fetchAllSignatures] returns is
    in descending order of block time; and a refused first page makes it
    throw the error of the chain after that one request. *)
Theorem fetchAllSignatures_sorted conn pubKey fuel w :
  match (fetchAllSignatures conn pubKey fuel w).1 with
  | Ok (Some signatures) =>
      StronglySorted (fun a b => sig_blockTime b <= sig_blockTime a) signatures
  | _ => True
  end /\
  match getSignaturesForAddress conn (requests w) pubKey None with
  | Refused e =>
      forall fuel', fetchAllSignatures conn pubKey (S fuel') w = (Throw e, set_requests S w)
  | Served _ => True
  end.
Proof.
  split.
  - unfold fetchAllSignatures, bind, ret.
    destruct (fetchAllSignatures_loop conn pubKey fuel None [] w) as [[[l|]|e] w']; simpl;
      [apply sort_desc_sorted | done | done].
  - destruct (getSignaturesForAddress conn (requests w) pubKey None) as [page|e] eqn:Hreq;
      [done|].
    intros fuel'. unfold fetchAllSignatures. cbn [fetchAllSignatures_loop].
    unfold bind. by rewrite Hreq.
Qed.

Lemma servedFrom_app conn n l1 l2 :
  servedFrom conn n (l1 ++ l2) = servedFrom conn n l1 ++ servedFrom conn (n + length l1) l2.
Proof.
  revert n. induction l1 as [|sig l1 IH]; intros n; simpl.
  - by rewrite Nat.add_0_r.
  - rewrite IH, <- Nat.add_succ_comm.
    by destruct (getParsedTransaction conn n (signature sig)) as [[tx|]|e].
Qed.

(** One batch of [fetchTransactionDetails], before its pause. *)
Lemma parsedOrNull_batch conn (batch : list SignatureInfo) :
  forall w, exists results w',
    mapM (parsedOrNull conn) batch w = (Ok results, w') /\
    omap id results = servedFrom conn (requests w) batch /\
    requests w' = (requests w + length batch)%nat /\
    trace w' = trace w.
Proof.
  induction batch as [|sig batch IH]; intros w.
  - exists [], w. simpl. split; [done|]. split; [done|]. split; [lia|done].
  - rewrite mapM_cons. unfold parsedOrNull at 1.
    destruct (IH (set_requests S w)) as (results & w' & Hrest & Hserved & Hreq & Htr).
    rewrite Hrest. eexists _, w'. split; [reflexivity|].
    cbn [requests set_requests trace] in *. split; [|split; [simpl; lia | done]].
    cbn [servedFrom].
    destruct (getParsedTransaction conn (requests w) (signature sig)) as [[tx|]|e];
      simpl; by rewrite <- Hserved.
Qed.

Lemma batches_fuel_length_50 {A} :
  forall fuel (items : list A),
    (length items <= fuel)%nat ->
    length (batches_fuel fuel 50 items) = ((length items + 49) / 50)%nat.
Proof.
  induction fuel as [|fuel IH]; intros items Hlen.
  - destruct items; [done | simpl in Hlen; lia].
  - destruct items as [|x items]; [done|].
    cbn [batches_fuel length]. rewrite IH by (rewrite length_drop; simpl in *; lia).
    rewrite length_drop. cbn [length].
    destruct (Nat.le_gt_cases 50 (S (length items))) as [Hbig|Hsmall].
    + replace (S (length items) + 49)%nat with ((S (length items) - 50 + 49) + 1 * 50)%nat by lia.
      rewrite Nat.div_add by lia. lia.
    + replace (S (length items) - 50)%nat with 0%nat by lia.
      change ((0 + 49) / 50)%nat with 0%nat.
      assert ((S (length items) + 49) / 50 = 1)%nat as ->; [|done].
      symmetry. apply Nat.div_unique with (r := (S (length items) + 49 - 50)%nat); lia.
Qed.

Lemma fetchTransactionDetails_run conn signatures w :
  let out := fetchTransactionDetails conn signatures w in
  out.1 = Ok (servedFrom conn (requests w) signatures) /\
  requests out.2 = (requests w + length signatures)%nat /\
  trace out.2 = trace w ++ pauses ((length signatures + 49) / 50).
Proof.
  cbn zeta. unfold fetchTransactionDetails.
  assert (Hbatches : forall bs w0, exists results w',
             mapM (detailsBatch conn) bs w0 = (Ok results, w') /\
             concat results = servedFrom conn (requests w0) (concat bs) /\
             requests w' = (requests w0 + length (concat bs))%nat /\
             trace w' = trace w0 ++ pauses (length bs)).
  { induction bs as [|b bs IH]; intros w0.
    - exists [], w0. simpl. rewrite app_nil_r. split; [done|]. split; [done|]. split; [lia|done].
    - rewrite mapM_cons.
      destruct (parsedOrNull_batch conn b w0) as (rs & w1 & Hb & Hserved & Hreq & Htr).
      unfold detailsBatch at 1, bind at 1. rewrite Hb.
      unfold bind at 1, sleep at 1, modify at 1. unfold ret at 1.
      match goal with |- context [mapM _ bs ?w2] =>
        destruct (IH w2) as (results & w' & Hrest & Hconcat & Hreq' & Htr') end.
      rewrite Hrest. eexists _, w'. split; [reflexivity|].
      cbn [requests trace set_clock set_trace] in *.
      split; [|split].
      + cbn [concat]. rewrite servedFrom_app, Hserved, Hconcat, Hreq. done.
      + cbn [concat]. rewrite Hreq', Hreq, length_app. lia.
      + rewrite Htr', Htr. cbn [length pauses replicate]. by rewrite <- app_assoc. }
  destruct (Hbatches (batches 50 signatures) w) as (results & w' & Hrun & Hconcat & Hreq & Htr).
  unfold bind, ret. rewrite Hrun. cbn [fst snd].
  unfold batches in *. rewrite batches_fuel_concat in Hconcat, Hreq by lia.
  rewrite batches_fuel_length_50 in Htr by lia. by rewrite Hconcat.
Qed.

(** X9. [fetchTransactionDetails] never throws: it returns, in the order
    of the signatures, the transactions the chain served, a refused or
    [null] answer being left out, after one request per signature and one
    pause of 100 ms per batch of 50. *)
Theorem fetchTransactionDetails_served conn signatures w :
  let out := fetchTransactionDetails conn signatures w in
  out.1 = Ok (servedFrom conn (requests w) signatures) /\
  requests out.2 = (requests w + length signatures)%nat /\
  trace out.2 = trace w ++ pauses ((length signatures + 49) / 50).
Proof. apply fetchTransactionDetails_run. Qed.

Example fetchTransactionDetails_ex :
  let tx := transfer 200 wallet1 0 60000000 in
  let conn := ledger (sampleEntries 120)
                (fun sig => if String.eqb sig "sig7" then Some tx else None) in
  let out := fetchTransactionDetails conn (sampleEntries 120)
               (startWorld deadChain noAccounts) in
  out.1 = Ok [tx] /\ requests out.2 = 120%nat /\
  trace out.2 = [Sleep 100; Sleep 100; Sleep 100].
Proof. vm_compute. repeat split. Qed.

Lemma servedFrom_ledger entries details n signatures :
  servedFrom (ledger entries details) n signatures
  = omap (fun sig => details (signature sig)) signatures.
Proof.
  revert n. induction signatures as [|sig rest IH]; intros n; simpl; [done|].
  rewrite IH. by destruct (details (signature sig)).
Qed.

(** X10. One attempt, end to end, on a chain that holds [n] signatures of
    the address under distinct names: the transactions known for them,
    newest signature first, filtered to those that mention the token,
    after [n / 1000 + 1 + n] requests; the pauses add up to
    [n / 1000 + ceil(n / 50)] times 100 ms. *)
Theorem fetchTransactionsOnce_on_ledger entries details pubKey fuel w :
  NoDup (map signature entries) ->
  (length entries / 1000 < fuel)%nat ->
  let out := fetchTransactionsOnce (ledger entries details) pubKey fuel w in
  out.1 = Ok (Some (filterRelevantTransactions
                      (omap (fun sig => details (signature sig))
                            (sort_desc sig_blockTime entries)))) /\
  requests out.2 = (requests w + (length entries / 1000 + 1) + length entries)%nat /\
  trace out.2 = trace w ++ pauses (length entries / 1000 + (length entries + 49) / 50).
Proof.
  intros Hnd Hfuel.
  destruct (fetchAllSignatures_loop_ledger entries details pubKey Hnd fuel 0 None [] w
              eq_refl Hfuel) as (w1 & Hloop & Hreq & Htr).
  pose proof (fetchTransactionDetails_run (ledger entries details)
                (sort_desc sig_blockTime entries) w1) as (Hout & Hreq2 & Htr2).
  cbn zeta in Hout, Hreq2, Htr2.
  assert (Hrun : exists w2,
             fetchTransactionsOnce (ledger entries details) pubKey fuel w
             = (Ok (Some (filterRelevantTransactions
                            (servedFrom (ledger entries details) (requests w1)
                               (sort_desc sig_blockTime entries)))), w2) /\
             requests w2 = (requests w1 + length (sort_desc sig_blockTime entries))%nat /\
             trace w2 = trace w1
                          ++ pauses ((length (sort_desc sig_blockTime entries) + 49) / 50)).
  { unfold fetchTransactionsOnce, fetchAllSignatures, bind, ret. rewrite Hloop.
    cbn [fmap option_fmap option_map app drop].
    destruct (fetchTransactionDetails _ _ w1) as [r w2]. cbn [fst snd] in *. subst r.
    by exists w2. }
  destruct Hrun as (w2 & Hrun & Hreq3 & Htr3). cbn zeta. rewrite Hrun. cbn [fst snd].
  rewrite servedFrom_ledger. split; [done|].
  rewrite (Permutation_length (sort_desc_perm sig_blockTime entries)) in Hreq3, Htr3.
  change (drop 0 entries) with entries in Hreq, Htr.
  split; [by rewrite Hreq3, Hreq|].
  rewrite Htr3, Htr. unfold pauses. by rewrite <- app_assoc, replicate_add.
Qed.

Lemma fetchTransactionsOnce_on_ledger_witness :
  let entries := sampleEntries 3 in
  let details := fun sig =>
    if String.eqb sig "sig1" then Some (transfer 200 wallet1 0 60000000) else None in
  let w := startWorld deadChain noAccounts in
  let out := fetchTransactionsOnce (ledger entries details) wallet1 1 w in
  NoDup (map signature entries) /\
  (length entries / 1000 < 1)%nat /\
  out.1 = Ok (Some (filterRelevantTransactions
                      (omap (fun sig => details (signature sig))
                            (sort_desc sig_blockTime entries)))) /\
  requests out.2 = (requests w + (length entries / 1000 + 1) + length entries)%nat /\
  trace out.2 = trace w ++ pauses (length entries / 1000 + (length entries + 49) / 50).
Proof.
  assert (Hnd : NoDup (map signature (sampleEntries 3))).
  { apply (bool_decide_unpack _). vm_compute. exact I. }
  assert (Hfuel : (length (sampleEntries 3) / 1000 < 1)%nat).
  { apply (bool_decide_unpack _). vm_compute. exact I. }
  split; [exact Hnd|]. split; [exact Hfuel|].
  exact (fetchTransactionsOnce_on_ledger (sampleEntries 3)
           (fun sig => if String.eqb sig "sig1"
                       then Some (transfer 200 wallet1 0 60000000) else None)
           wallet1 1 (startWorld deadChain noAccounts) Hnd Hfuel).
Defined.

(** ** What the service leaves alone *)

Section Keeps.
Context (R : World -> World -> Prop).
Hypothesis R_refl : forall w, R w w.
Hypothesis R_trans : forall a b c, R a b -> R b c -> R a c.

Lemma keeps_ret {A} (a : A) : keeps R (ret a).
Proof. intros w. apply R_refl. Qed.

Lemma keeps_throw {A} e : keeps R (throw (A := A) e).
Proof. intros w. apply R_refl. Qed.

Lemma keeps_gets {A} (f : World -> A) : keeps R (gets f).
Proof. intros w. apply R_refl. Qed.

Lemma keeps_bind {A B} (m : M A) (k : A -> M B) :
  keeps R m -> (forall a, keeps R (k a)) -> keeps R (bind m k).
Proof.
  intros Hm Hk w. unfold bind. specialize (Hm w).
  destruct (m w) as [[a|e] w1]; simpl in *; [|done].
  eapply R_trans; [exact Hm | apply Hk].
Qed.

Lemma keeps_try_catch {A} (m : M A) (h : JSError -> M A) :
  keeps R m -> (forall e, keeps R (h e)) -> keeps R (try_catch m h).
Proof.
  intros Hm Hh w. unfold try_catch. specialize (Hm w).
  destruct (m w) as [[a|e] w1]; simpl in *; [done|].
  eapply R_trans; [exact Hm | apply Hh].
Qed.

Lemma keeps_when b m : keeps R m -> keeps R (when b m).
Proof. intros Hm. destruct b; [done | apply keeps_ret]. Qed.

Lemma keeps_mapM {A B} (f : A -> M B) l :
  (forall x, keeps R (f x)) -> keeps R (mapM f l).
Proof.
  intros Hf. induction l as [|x l IH]; simpl; [apply keeps_ret|].
  apply keeps_bind; [apply Hf|]. intros y.
  apply keeps_bind; [apply IH|]. intros ys. apply keeps_ret.
Qed.

Hypothesis R_modify_trace : forall f w, (exists tr, forall t, f t = t ++ tr) ->
                                        R w (set_trace f w).
Hypothesis R_modify_clock : forall ms w, 0 <= ms -> R w (set_clock (fun t => t + ms) w).
Hypothesis R_modify_console : forall line w, R w (set_console (fun c => c ++ [line]) w).
Hypothesis R_modify_requests : forall w, R w (set_requests S w).
Hypothesis R_modify_cache : forall key value w,
    R w (set_cache (fun c => <[key := value]> c) w).
Hypothesis R_modify_processed : forall wallet w,
    R w (set_processedWallets (fun s => s ∪ {[wallet]}) w).

Lemma keeps_ghost e : keeps R (ghost e).
Proof. intros w. apply R_modify_trace. by eexists. Qed.

Lemma keeps_sleep ms : 0 <= ms -> keeps R (sleep ms).
Proof.
  intros Hms w. unfold sleep, modify. simpl.
  eapply R_trans; [apply R_modify_trace; by eexists | by apply R_modify_clock].
Qed.

Lemma keeps_Logger line : keeps R (Logger line).
Proof. intros w. apply R_modify_console. Qed.

Lemma keeps_cacheManager_set key value : keeps R (cacheManager_set key value).
Proof. intros w. apply R_modify_cache. Qed.

Lemma keeps_cacheManager_get key : keeps R (cacheManager_get key).
Proof. apply keeps_gets. Qed.

Lemma keeps_retryFrom {A} what (request : M A) :
  keeps R request ->
  forall fuel attempt, keeps R (retryFrom what request fuel attempt).
Proof.
  intros Hreq. induction fuel as [|fuel IH]; intros attempt; cbn [retryFrom].
  - apply keeps_bind; [apply keeps_ghost|]. intros _.
    apply keeps_try_catch; [done|]. intros e.
    apply keeps_bind; [apply keeps_ghost|]. intros _.
    destruct (attempt <? retryLimit)%nat; [|apply keeps_throw].
    apply keeps_bind; [apply keeps_throw|]. intros _.
    apply keeps_bind; [apply keeps_sleep; unfold retryDelay; lia|]. intros _.
    apply keeps_throw.
  - apply keeps_bind; [apply keeps_ghost|]. intros _.
    apply keeps_try_catch; [done|]. intros e.
    apply keeps_bind; [apply keeps_ghost|]. intros _.
    destruct (attempt <? retryLimit)%nat; [|apply keeps_throw].
    apply keeps_bind; [apply keeps_throw|]. intros _.
    apply keeps_bind; [apply keeps_sleep; unfold retryDelay; lia|]. intros _. apply IH.
Qed.

Lemma keeps_requestTransactions pubKey : keeps R (requestTransactions pubKey).
Proof.
  intros w. unfold requestTransactions.
  destruct (transactionsOf w (requests w) pubKey); apply R_modify_requests.
Qed.

Lemma keeps_requestHolders : keeps R requestHolders.
Proof.
  intros w. unfold requestHolders.
  destruct (programAccounts w (requests w)); apply R_modify_requests.
Qed.

Lemma keeps_getTransactionHistory wallet : keeps R (getTransactionHistory wallet).
Proof.
  unfold getTransactionHistory.
  apply keeps_bind; [apply keeps_cacheManager_get|]. intros [v|].
  - destruct v; first [apply keeps_ret | apply keeps_throw].
  - apply keeps_try_catch.
    + apply keeps_bind; [apply keeps_retryFrom, keeps_requestTransactions|]. intros txs.
      apply keeps_bind; [apply keeps_when, keeps_cacheManager_set|]. intros _.
      apply keeps_ret.
    + intros e. apply keeps_bind; [apply keeps_Logger|]. intros _. apply keeps_ret.
Qed.

Lemma keeps_getAllHolders : keeps R getAllHolders.
Proof.
  unfold getAllHolders.
  apply keeps_bind; [apply keeps_cacheManager_get|]. intros [v|].
  - apply keeps_bind; [apply keeps_Logger|]. intros _.
    destruct v; first [apply keeps_ret | apply keeps_throw].
  - apply keeps_try_catch.
    + apply keeps_bind; [apply keeps_retryFrom, keeps_requestHolders|]. intros hs.
      apply keeps_bind; [apply keeps_cacheManager_set|]. intros _. apply keeps_ret.
    + intros e. apply keeps_bind; [apply keeps_Logger|]. intros _. apply keeps_throw.
Qed.

(** The part of [analyzeWallet] that follows the guard. *)
Lemma keeps_analyzeWallet_rest wallet currentBalance :
  keeps R
    (let cacheKey := "analysis_" +:+ wallet in
     let* cachedAnalysis := cacheManager_get cacheKey in
     match cachedAnalysis with
     | Some v => let* a := asAnalysis v in ret (Some a)
     | None =>
         let* transactions := getTransactionHistory wallet in
         let* now := gets clock in
         let analysis :=
           processWalletTransactions now wallet currentBalance transactions in
         when (truthy (isEligible analysis) || (0 <? length transactions)%nat)
           (cacheManager_set cacheKey (CAnalysis analysis)) ;;
         ret (Some analysis)
     end).
Proof.
  cbn zeta. apply keeps_bind; [apply keeps_cacheManager_get|]. intros [v|].
  - apply keeps_bind; [|intros; apply keeps_ret].
    destruct v; first [apply keeps_ret | apply keeps_throw].
  - apply keeps_bind; [apply keeps_getTransactionHistory|]. intros txs.
    apply keeps_bind; [apply keeps_gets|]. intros now.
    apply keeps_bind; [apply keeps_when, keeps_cacheManager_set|]. intros _.
    apply keeps_ret.
Qed.

Lemma keeps_analyzeWallet wallet currentBalance :
  keeps R (analyzeWallet wallet currentBalance).
Proof.
  unfold analyzeWallet. apply keeps_try_catch.
  - apply keeps_bind; [apply keeps_gets|]. intros [|]; [apply keeps_ret|].
    apply keeps_bind; [intros w; apply R_modify_processed|]. intros _.
    apply keeps_analyzeWallet_rest.
  - intros e. apply keeps_bind; [apply keeps_Logger|]. intros _. apply keeps_ret.
Qed.

End Keeps.

Lemma accountingUntouched_refl w : accountingUntouched w w.
Proof. by repeat split. Qed.

Lemma accountingUntouched_trans a b c :
  accountingUntouched a b -> accountingUntouched b c -> accountingUntouched a c.
Proof.
  intros (H1 & H2 & H3 & H4) (H1' & H2' & H3' & H4').
  repeat split; congruence.
Qed.

Lemma grows_refl w : grows w w.
Proof.
  repeat split; try done; by exists []; rewrite app_nil_r.
Qed.

Lemma grows_trans a b c : grows a b -> grows b c -> grows a c.
Proof.
  intros (Hp & Hc & Hr & Ht & (tr & Htr) & (co & Hco) & Hx & Ha)
         (Hp' & Hc' & Hr' & Ht' & (tr' & Htr') & (co' & Hco') & Hx' & Ha').
  repeat split; try (etrans; eassumption); try lia; try congruence.
  - exists (tr ++ tr'). by rewrite Htr', Htr, app_assoc.
  - exists (co ++ co'). by rewrite Hco', Hco, app_assoc.
Qed.

(** The steps of the service touch none of the accounting. *)
Lemma analyzeWallet_accounting wallet currentBalance :
  keeps accountingUntouched (analyzeWallet wallet currentBalance).
Proof.
  apply keeps_analyzeWallet;
    [apply accountingUntouched_refl | apply accountingUntouched_trans | ..];
    intros; by repeat split.
Qed.

Ltac grows_step :=
  intros; repeat split; simpl; try done; try lia; try set_solver;
  try (by exists []; rewrite app_nil_r); try (by eexists).

Lemma grows_modify_trace f w :
  (exists tr, forall t, f t = t ++ tr) -> grows w (set_trace f w).
Proof. intros [tr Hf]. grows_step. Qed.

Lemma grows_modify_clock ms w : 0 <= ms -> grows w (set_clock (fun t => t + ms) w).
Proof. grows_step. Qed.

Lemma grows_modify_console line w : grows w (set_console (fun c => c ++ [line]) w).
Proof. grows_step. Qed.

Lemma grows_modify_requests w : grows w (set_requests S w).
Proof. grows_step. Qed.

Lemma grows_modify_cache key value w :
  grows w (set_cache (fun c => <[key := value]> c) w).
Proof. grows_step. Qed.

Lemma grows_modify_processed wallet w :
  grows w (set_processedWallets (fun s => s ∪ {[wallet]}) w).
Proof. grows_step. Qed.

Lemma analyzeWallet_grows wallet currentBalance :
  keeps grows (analyzeWallet wallet currentBalance).
Proof.
  apply keeps_analyzeWallet;
    eauto using grows_refl, grows_trans, grows_modify_trace, grows_modify_clock,
      grows_modify_console, grows_modify_requests, grows_modify_cache,
      grows_modify_processed.
Qed.

Lemma analyzeWallet_unseen wallet currentBalance w :
  wallet ∉ processedWallets w ->
  analyzeWallet wallet currentBalance w =
  try_catch
    (let cacheKey := "analysis_" +:+ wallet in
     let* cachedAnalysis := cacheManager_get cacheKey in
     match cachedAnalysis with
     | Some v => let* a := asAnalysis v in ret (Some a)
     | None =>
         let* transactions := getTransactionHistory wallet in
         let* now := gets clock in
         let analysis :=
           processWalletTransactions now wallet currentBalance transactions in
         when (truthy (isEligible analysis) || (0 <? length transactions)%nat)
           (cacheManager_set cacheKey (CAnalysis analysis)) ;;
         ret (Some analysis)
     end)
    (fun error =>
       Logger ("Error analyzing " +:+ wallet +:+ ":") ;;
       ret (Some (errorAnalysis currentBalance)))
    (set_processedWallets (fun s => s ∪ {[wallet]}) w).
Proof.
  intros Hnew. unfold analyzeWallet, try_catch.
  unfold bind at 1. unfold gets at 1. cbn beta iota.
  rewrite bool_decide_eq_false_2 by done.
  unfold bind at 1. unfold modify at 1. reflexivity.
Qed.

Lemma grows_primitives :
  (forall f w, (exists tr, forall t, f t = t ++ tr) -> grows w (set_trace f w)) /\
  (forall ms w, 0 <= ms -> grows w (set_clock (fun t => t + ms) w)) /\
  (forall line w, grows w (set_console (fun c => c ++ [line]) w)) /\
  (forall w, grows w (set_requests S w)) /\
  (forall key value w, grows w (set_cache (fun c => <[key := value]> c) w)) /\
  (forall wallet w, grows w (set_processedWallets (fun s => s ∪ {[wallet]}) w)).
Proof.
  eauto 10 using grows_modify_trace, grows_modify_clock, grows_modify_console,
    grows_modify_requests, grows_modify_cache, grows_modify_processed.
Qed.

(** X11. [analyzeWallet] never throws: whatever the cache and the chain
    answer, it returns an analysis or the [null] sentinel. When it
    returns, the wallet is in [processedWallets], and the counters, the
    list and total of eligible holders and the report are as they were. *)
Theorem analyzeWallet_contract wallet currentBalance w :
  let out := analyzeWallet wallet currentBalance w in
  (exists r, out.1 = Ok r) /\
  wallet ∈ processedWallets out.2 /\
  accountingUntouched w out.2.
Proof.
  cbn zeta. split; [|split].
  - unfold analyzeWallet, try_catch.
    match goal with |- context [match ?m w with _ => _ end] => destruct (m w) as [[r|e] w1] end;
      by eexists.
  - destruct (decide (wallet ∈ processedWallets w)) as [Hin|Hnew].
    + pose proof (analyzeWallet_grows wallet currentBalance w) as (Hp & _).
      by apply Hp.
    + rewrite analyzeWallet_unseen by done.
      destruct grows_primitives as (Htr & Hcl & Hco & Hre & Hca & Hpr).
      match goal with |- context [try_catch ?m ?h ?w0] =>
        assert (Hk : keeps grows (try_catch m h)) end.
      { apply (keeps_try_catch grows grows_trans).
        - by apply (keeps_analyzeWallet_rest grows grows_refl grows_trans).
        - intros e. apply (keeps_bind grows grows_trans).
          + by apply keeps_Logger.
          + intros _. apply keeps_ret, grows_refl. }
      match goal with |- context [try_catch ?m ?h ?w0] =>
        destruct (Hk w0) as (Hp & _) end.
      apply Hp. simpl. set_solver.
  - apply analyzeWallet_accounting.
Qed.

Lemma grows_modify_accounting (f : World -> World) :
  (forall w, processedWallets (f w) = processedWallets w /\
             cache (f w) = cache w /\ requests (f w) = requests w /\
             clock (f w) = clock w /\ trace (f w) = trace w /\
             console (f w) = console w /\
             transactionsOf (f w) = transactionsOf w /\
             programAccounts (f w) = programAccounts w) ->
  keeps grows (modify f).
Proof.
  intros Hf w. destruct (Hf w) as (H1 & H2 & H3 & H4 & H5 & H6 & H7 & H8).
  unfold modify. cbn [snd]. unfold grows. rewrite H1, H2, H3, H4, H5, H6, H7, H8.
  apply grows_refl.
Qed.

Lemma processBatch_grows holder : keeps grows (processBatch holder).
Proof.
  destruct grows_primitives as (Htr & Hcl & Hco & Hre & Hca & Hpr).
  pose proof grows_refl as Hrefl. pose proof grows_trans as Htrans.
  unfold processBatch. apply keeps_try_catch; [done| |].
  - apply keeps_bind; [done|by apply keeps_cacheManager_get|]. intros cached.
    apply keeps_bind; [done| |].
    + destruct cached as [v|].
      * apply keeps_bind; [done| |intros; by apply keeps_ret].
        destruct v; first [by apply keeps_ret | by apply keeps_throw].
      * apply keeps_bind; [done|apply analyzeWallet_grows|]. intros [a|].
        -- apply keeps_bind; [done|by apply keeps_cacheManager_set|].
           intros; by apply keeps_ret.
        -- apply keeps_bind; [done|by apply keeps_ret|]. intros; by apply keeps_ret.
    + intros [a|]; [|by apply keeps_ret].
      apply keeps_bind; [done| |].
      * apply keeps_when; [done|].
        repeat (apply keeps_bind; [done|by apply grows_modify_accounting|]; intros _).
        by apply grows_modify_accounting.
      * intros _. apply keeps_bind; [done|by apply grows_modify_accounting|]. intros _.
        apply keeps_bind; [done|by apply grows_modify_accounting|]. intros _.
        by apply keeps_ret.
  - intros e. apply keeps_bind; [done|by apply grows_modify_accounting|]. intros _.
    apply keeps_bind; [done|by apply keeps_Logger|]. intros _. by apply keeps_ret.
Qed.

Lemma process_keeps {A B} (R : World -> World -> Prop) n items (f : A -> M B) :
  (forall w, R w w) -> (forall a b c, R a b -> R b c -> R a c) ->
  (forall x, keeps R (f x)) -> keeps R (process n items f).
Proof.
  intros Hrefl Htrans Hf. unfold process.
  apply keeps_bind; [done| |intros; by apply keeps_ret].
  apply keeps_mapM; [done..|]. intros batch. by apply keeps_mapM.
Qed.

Lemma updateAirdropShares_grows total : keeps grows (updateAirdropShares total).
Proof.
  destruct grows_primitives as (Htr & Hcl & Hco & Hre & Hca & Hpr).
  pose proof grows_refl as Hrefl. pose proof grows_trans as Htrans.
  unfold updateAirdropShares. cbn zeta.
  apply keeps_bind; [done|by apply keeps_gets|]. intros rs.
  apply keeps_bind; [done| |intros; by apply keeps_throw].
  apply keeps_mapM; [done..|]. intros batch. unfold updateBatch.
  apply keeps_bind; [done|by apply grows_modify_accounting|]. intros _.
  by apply keeps_sleep.
Qed.

(** X12. Whatever the chain answers and whatever the cache holds, a run
    of [analyze] only moves the world forward: every wallet processed
    before is still marked processed, every cache key is still there, the
    request counter and the clock have not gone back, the trace and the
    console have only been appended to, and the chain is only read. *)
Theorem analyze_only_moves_forward w : grows w (analyze w).2.
Proof.
  revert w. change (keeps grows analyze).
  destruct grows_primitives as (Htr & Hcl & Hco & Hre & Hca & Hpr).
  pose proof grows_refl as Hrefl. pose proof grows_trans as Htrans.
  unfold analyze. apply keeps_try_catch; [done| |].
  - apply keeps_bind; [done|by apply keeps_getAllHolders|]. intros holders.
    do 3 (apply keeps_bind; [done|by apply grows_modify_accounting|]; intros _).
    apply keeps_bind; [done| |].
    + apply process_keeps; [done..|]. apply processBatch_grows.
    + intros _. apply keeps_bind; [done|by apply keeps_gets|]. intros total.
      apply keeps_when; [done|]. apply updateAirdropShares_grows.
  - intros e. apply keeps_bind; [done|by apply keeps_Logger|]. intros _.
    by apply keeps_throw.
Qed.

(** ** The accounting of the worker and of a run *)

Lemma map_set_elem {V} key (value : V) rs : (key, value) ∈ map_set key value rs.
Proof.
  induction rs as [|[k v] rs IH]; simpl.
  - apply elem_of_cons. by left.
  - destruct (String.eqb_spec k key) as [->|Hne]; apply elem_of_cons; [by left|by right].
Qed.

(** The worker, outcome by outcome. *)
Lemma processBatch_effect holder w :
  let out := processBatch holder w in
  match out.1 with
  | Ok (Some a) =>
      eligibleHolders out.2 =
        eligibleHolders w ++ (if truthy (isEligible a) then [(holder, a)] else []) /\
      totalEligibleKoko out.2 =
        totalEligibleKoko w + (if truthy (isEligible a) then amount holder else 0) /\
      stats out.2 =
        bump_processed
          (if truthy (isEligible a) then bump_eligible (stats w) else stats w) /\
      records out.2 = records (updateCsvRecord holder a w).2
  | Ok None => processed (stats out.2) = processed (stats w)
  | Throw _ => False
  end.
Proof.
  cbn zeta.
  cbv [processBatch try_catch bind cacheManager_get gets when updateCsvRecord
         updateRecord modify ret asAnalysis cacheManager_set throw Logger].
  destruct (cache w !! owner holder) as [v|].
  - destruct v as [| |a]; [simpl; by auto..|].
    destruct (truthy (isEligible a)) eqn:E; simpl; rewrite ?E, ?app_nil_r, ?Z.add_0_r; done.
  - pose proof (analyzeWallet_accounting (owner holder) (amount holder) w)
      as (Hs & He & Ht & Hr).
    destruct (analyzeWallet (owner holder) (amount holder) w) as [[[a|]|e] w1];
      simpl in *.
    + destruct (truthy (isEligible a)) eqn:E; simpl;
        rewrite ?E, ?app_nil_r, ?Z.add_0_r, Hs, He, Ht, Hr; done.
    + by rewrite Hs.
    + by rewrite Hs.
Qed.

(** X13. What the worker [processBatch] does to the accounting. The
    worker never throws. For an analysis it returns, the holder has been
    counted as processed and has a row in the report under its address,
    with the status, the reason and the holding days of that analysis; it
    has entered the list of eligible holders, the eligible counter and,
    with its balance, the total exactly when [isEligible] of the analysis
    is truthy. When the worker returns [null] (a wallet already
    processed, or an error it caught) the holder has not been counted as
    processed. *)
Theorem processBatch_accounting holder w :
  let out := processBatch holder w in
  match out.1 with
  | Ok (Some a) =>
      eligibleHolders out.2 =
        eligibleHolders w ++ (if truthy (isEligible a) then [(holder, a)] else []) /\
      totalEligibleKoko out.2 =
        totalEligibleKoko w + (if truthy (isEligible a) then amount holder else 0) /\
      stats out.2 =
        bump_processed
          (if truthy (isEligible a) then bump_eligible (stats w) else stats w) /\
      exists row,
        (owner holder, row) ∈ records out.2 /\
        status row = (if truthy (isEligible a) then ELIGIBLE else INELIGIBLE) /\
        r_owner row = owner holder /\
        r_reason row = reason a /\
        r_holdingDays row = holdingDays a
  | Ok None => processed (stats out.2) = processed (stats w)
  | Throw _ => False
  end.
Proof.
  pose proof (processBatch_effect holder w) as H. cbn zeta in *.
  destruct (processBatch holder w) as [[[a|]|e] w']; cbn [fst snd] in *; try done.
  destruct H as (He & Ht & Hs & Hr). repeat split; try done.
  rewrite Hr. unfold updateCsvRecord, updateRecord, modify. cbn [snd records set_records].
  eexists. split; [apply map_set_elem|]. done.
Qed.

Lemma map_set_keys {V} key (value : V) rs x :
  x ∈ (map_set key value rs).*1 <-> x = key \/ x ∈ rs.*1.
Proof.
  induction rs as [|[k v] rs IH]; simpl.
  - rewrite elem_of_cons, elem_of_nil. tauto.
  - destruct (String.eqb_spec k key) as [->|Hne]; simpl; rewrite !elem_of_cons.
    + tauto.
    + rewrite IH. tauto.
Qed.

Lemma map_set_NoDup {V} key (value : V) rs :
  NoDup rs.*1 -> NoDup (map_set key value rs).*1.
Proof.
  induction rs as [|[k v] rs IH]; simpl; intros Hnd.
  - apply NoDup_singleton.
  - apply NoDup_cons in Hnd as [Hk Hnd].
    destruct (String.eqb_spec k key) as [->|Hne]; simpl.
    + by apply NoDup_cons.
    + apply NoDup_cons. split; [|by apply IH].
      rewrite map_set_keys. intros [->|Hin]; done.
Qed.

Lemma accounted_untouched w w' : accountingUntouched w w' -> accounted w -> accounted w'.
Proof.
  intros (Hs & He & Ht & Hr) (H1 & H2 & H3).
  unfold accounted. by rewrite He, Ht, Hr.
Qed.

Lemma accountedAfter_refl w : accountedAfter w w.
Proof. by intros H. Qed.

Lemma accountedAfter_trans a b c :
  accountedAfter a b -> accountedAfter b c -> accountedAfter a c.
Proof. unfold accountedAfter. auto. Qed.

Lemma foldr_add_acc (l : list Z) b : foldr Z.add b l = foldr Z.add 0 l + b.
Proof. induction l as [|x l IH]; simpl; [done|]. rewrite IH. lia. Qed.

Lemma accountedAfter_untouched {A} (m : M A) :
  keeps accountingUntouched m -> keeps accountedAfter m.
Proof. intros Hm w Hacc. eapply accounted_untouched; [apply Hm | done]. Qed.

Lemma accountedAfter_cacheManager_set key value :
  keeps accountedAfter (cacheManager_set key value).
Proof. apply accountedAfter_untouched. intros w. by repeat split. Qed.

Lemma processBatch_accountedAfter holder : keeps accountedAfter (processBatch holder).
Proof.
  pose proof accountedAfter_refl as Hrefl. pose proof accountedAfter_trans as Htrans.
  unfold processBatch. apply keeps_try_catch; [done| |].
  - apply keeps_bind; [done|by apply keeps_gets|]. intros cached.
    apply keeps_bind; [done| |].
    + destruct cached as [v|].
      * apply keeps_bind; [done| |intros; by apply keeps_ret].
        destruct v; first [by apply keeps_ret | by apply keeps_throw].
      * apply keeps_bind;
          [done|apply accountedAfter_untouched, analyzeWallet_accounting|].
        intros [a|].
        -- apply keeps_bind; [done|apply accountedAfter_cacheManager_set|].
           intros; by apply keeps_ret.
        -- apply keeps_bind; [done|by apply keeps_ret|]. intros; by apply keeps_ret.
    + intros [a|]; [|by apply keeps_ret].
      intros w (Htotal & Helig & Hnd).
      cbv [bind when modify updateCsvRecord updateRecord ret].
      destruct (truthy (isEligible a)) eqn:E; unfold accounted; simpl.
      * split; [|split].
        -- rewrite map_app, foldr_app. simpl. rewrite foldr_add_acc, Htotal. lia.
        -- apply Forall_app. split; [done|]. constructor; [|done].
           by apply truthy_true.
        -- by apply map_set_NoDup.
      * split; [done|]. split; [done|]. by apply map_set_NoDup.
  - intros e w Hacc. exact Hacc.
Qed.

Lemma updateBatch_keys total (batch : list (string * CsvRecord)) rs :
  (map (fun kv : string * CsvRecord =>
          if existsb (String.eqb kv.1) (map fst batch)
          then (kv.1, updateShare total kv.2) else kv) rs).*1 = rs.*1.
Proof.
  induction rs as [|[k v] rs IH]; [done|].
  rewrite map_cons, !fmap_cons, IH. f_equal.
  cbn [fst snd]. by destruct (existsb _ _).
Qed.

Lemma updateAirdropShares_accountedAfter total :
  keeps accountedAfter (updateAirdropShares total).
Proof.
  pose proof accountedAfter_refl as Hrefl. pose proof accountedAfter_trans as Htrans.
  unfold updateAirdropShares. cbn zeta.
  apply keeps_bind; [done|by apply keeps_gets|]. intros rs.
  apply keeps_bind; [done| |intros; by apply keeps_throw].
  apply keeps_mapM; [done..|]. intros batch w (Htotal & Helig & Hnd).
  unfold updateBatch, accounted. cbv [bind modify sleep]. simpl.
  rewrite updateBatch_keys. done.
Qed.

(** The part of [analyze] that follows the reset of the accounting. *)
Lemma analyze_rest_accountedAfter holders :
  keeps accountedAfter
    (process 50 holders processBatch ;;
     let* totalEligibleKoko := gets totalEligibleKoko in
     when (0 <? totalEligibleKoko) (updateAirdropShares totalEligibleKoko)).
Proof.
  pose proof accountedAfter_refl as Hrefl. pose proof accountedAfter_trans as Htrans.
  apply keeps_bind; [done| |].
  - apply process_keeps; [done..|]. apply processBatch_accountedAfter.
  - intros _. apply keeps_bind; [done|by apply keeps_gets|]. intros total.
    apply keeps_when; [done|]. apply updateAirdropShares_accountedAfter.
Qed.

Lemma getAllHolders_accounting : keeps accountingUntouched getAllHolders.
Proof.
  apply keeps_getAllHolders;
    [apply accountingUntouched_refl | apply accountingUntouched_trans | ..];
    intros; by repeat split.
Qed.

Lemma analyze_unfold w :
  analyze w =
  match getAllHolders w with
  | (Ok holders, w1) =>
      match (process 50 holders processBatch ;;
             let* totalEligibleKoko := gets totalEligibleKoko in
             when (0 <? totalEligibleKoko) (updateAirdropShares totalEligibleKoko))
              (set_eligibleHolders (fun _ => [])
                 (set_totalEligibleKoko (fun _ => 0)
                    (set_records (fun _ => []) w1))) with
      | (Ok a, w2) => (Ok a, w2)
      | (Throw e, w2) => (Throw e, set_console (fun c => c ++ ["Fatal error:"]) w2)
      end
  | (Throw e, w1) => (Throw e, set_console (fun c => c ++ ["Fatal error:"]) w1)
  end.
Proof.
  unfold analyze, try_catch. unfold bind at 1.
  destruct (getAllHolders w) as [[holders|e] w1]; reflexivity.
Qed.

(** X14. The accounting a run of [analyze] leaves behind. When the holder
    list was obtained, from the cache or from the chain, then however the
    run ends the total of eligible KOKO is the sum of the balances of the
    listed eligible holders, every listed holder carries an analysis
    whose [isEligible] is [true], and the report has one row per key.
    When the holder list could not be obtained, the run rethrows that
    error and has touched none of the accounting. *)
Theorem analyze_accounting w :
  match (getAllHolders w).1 with
  | Ok _ => accounted (analyze w).2
  | Throw e => (analyze w).1 = Throw e /\ accountingUntouched w (analyze w).2
  end.
Proof.
  pose proof (getAllHolders_accounting w) as Hlist.
  rewrite analyze_unfold.
  destruct (getAllHolders w) as [[holders|e] w1]; cbn [fst snd] in *.
  - match goal with |- context [bind (process 50 holders processBatch) ?k ?w0] =>
      pose proof (analyze_rest_accountedAfter holders w0) as Hrest;
      destruct (bind (process 50 holders processBatch) k w0) as [[r|e] w2]
    end; cbn [fst snd] in *.
    + apply Hrest. repeat split; simpl; constructor.
    + apply Hrest. repeat split; simpl; constructor.
  - split; [done|]. simpl. destruct Hlist as (Hs & He & Ht & Hr). by repeat split.
Qed.

Lemma bind_ok {A B} (m : M A) (k : A -> M B) w a w' :
  m w = (Ok a, w') -> bind m k w = k a w'.
Proof. intros Hm. unfold bind. by rewrite Hm. Qed.

Lemma updateAirdropShares_throws total w :
  (updateAirdropShares total w).1 =
    Throw (EError "TypeError: this.csvWriter.flush is not a function") /\
  totalEligibleKoko (updateAirdropShares total w).2 = totalEligibleKoko w.
Proof.
  unfold updateAirdropShares, bind, gets, throw.
  destruct (update_batches total (batches 1000 (records w)) (fun _ => false) (records w) w)
    as ([us Hus] & _ & Htot & _).
  { rewrite <- (map_id (records w)) at 1. apply map_ext. by intros [k r]. }
  cbn zeta in *.
  destruct (mapM _ (batches 1000 (records w)) w) as [[us'|e] w1]; [|done].
  by cbn [fst snd] in *.
Qed.

(** X15. How a run of [analyze] can end. It returns normally only with
    no eligible KOKO counted. It throws either the error with which the
    holder listing failed, or, whenever some eligible balance was
    counted, the [TypeError] of the missing [csvWriter.flush] at the end
    of the share pass: a run that found an eligible holder never
    completes. *)
Theorem analyze_outcome w :
  match (analyze w).1 with
  | Ok _ => totalEligibleKoko (analyze w).2 <= 0
  | Throw e =>
      (getAllHolders w).1 = Throw e \/
      (e = EError "TypeError: this.csvWriter.flush is not a function" /\
       0 < totalEligibleKoko (analyze w).2)
  end.
Proof.
  rewrite analyze_unfold.
  destruct (getAllHolders w) as [[holders|e] w1]; cbn [fst snd]; [|by left].
  assert (Hsize : (1 <= 50)%nat) by lia.
  match goal with |- context [bind (process 50 holders processBatch) ?k ?w0] =>
    destruct (process_returns 50 processBatch Hsize processBatch_returns holders w0)
      as (rs & Hrs & _);
    destruct (process 50 holders processBatch w0) as [[rs'|e] w2] eqn:Hp; [|done]
  end.
  rewrite (bind_ok _ _ _ _ _ Hp). unfold bind, gets. cbn beta iota.
  destruct (Z.ltb_spec 0 (totalEligibleKoko w2)) as [Hpos|Hnone]; cbn [when].
  - destruct (updateAirdropShares_throws (totalEligibleKoko w2) w2) as (Hthrow & Htot).
    destruct (updateAirdropShares (totalEligibleKoko w2) w2) as [[u|e] w3];
      cbn [fst snd] in *; [done|].
    injection Hthrow as ->. right. split; [done|]. cbn [totalEligibleKoko set_console]. lia.
  - done.
Qed.

(** ** The holder list and the history *)

Lemma retryFrom_result {A} (P : A -> Prop) what (request : M A) :
  (forall w r w', request w = (Ok r, w') -> P r) ->
  forall fuel attempt w r w',
    retryFrom what request fuel attempt w = (Ok r, w') -> P r.
Proof.
  intros Hreq fuel attempt w r w'. rewrite retryFrom_unfold.
  destruct (request _) as [[a|e] w1] eqn:Hr; [|done].
  intros [= <- <-]. eauto.
Qed.

Lemma retryFrom_leaves_cache {A} what (request : M A) fuel attempt :
  keeps (fun w w' => cache w' = cache w) request ->
  keeps (fun w w' => cache w' = cache w) (retryFrom what request fuel attempt).
Proof.
  intros Hreq. apply keeps_retryFrom; try done.
  intros a b c Hab Hbc. by rewrite Hbc.
Qed.

Lemma getAllHolders_miss w :
  cache w !! "all_holders" = None ->
  getAllHolders w =
  match fetchHoldersWithRetry 1 w with
  | (Ok holders, w1) =>
      (Ok holders, set_cache (fun c => <["all_holders" := CHolders holders]> c) w1)
  | (Throw e, w1) =>
      (Throw e, set_console (fun c => c ++ ["Error fetching holders:"]) w1)
  end.
Proof.
  intros Hmiss. unfold getAllHolders. unfold bind at 1.
  unfold cacheManager_get, gets. rewrite Hmiss. cbn beta iota.
  unfold try_catch. unfold bind at 1.
  by destruct (fetchHoldersWithRetry 1 w) as [[holders|e] w1].
Qed.

(** X17. The holder list fetched from the chain. With no list in the
    cache, a list [getAllHolders] returns holds only accounts of at least
    [MIN_TOKENS], is stored in the cache under [all_holders] and nowhere
    else, and the next call returns that same list from the cache, with
    one console line and no request. When the listing fails, the error is
    rethrown after the line [Error fetching holders:] and nothing is
    cached. *)
Theorem getAllHolders_fetched w :
  cache w !! "all_holders" = None ->
  match getAllHolders w with
  | (Ok holders, w') =>
      Forall (fun h => CONFIG.MIN_TOKENS <= amount h) holders /\
      cache w' = <["all_holders" := CHolders holders]> (cache w) /\
      getAllHolders w' =
        (Ok holders, set_console (fun c => c ++ ["Using cached holders list"]) w')
  | (Throw e, w') =>
      cache w' = cache w /\
      List.last (console w') "" = "Error fetching holders:"
  end.
Proof.
  intros Hmiss. rewrite getAllHolders_miss by done.
  assert (Hcache : cache (fetchHoldersWithRetry 1 w).2 = cache w).
  { apply (retryFrom_leaves_cache "fetchHolders" requestHolders).
    by apply keeps_requestHolders. }
  pose proof (retryFrom_result (Forall (fun h => CONFIG.MIN_TOKENS <= amount h))
                "fetchHolders" requestHolders) as Hmin.
  unfold fetchHoldersWithRetry in *.
  destruct (retryFrom "fetchHolders" requestHolders (retryLimit - 1) 1 w)
    as [[holders|e] w1] eqn:Hfetch; cbn [fst snd] in *.
  - split; [|split].
    + eapply Hmin; [|exact Hfetch]. clear. intros w r w'. unfold requestHolders.
      destruct (programAccounts w (requests w)); [|done]. intros [= <- _].
      apply Forall_forall. intros h [Hh _]%list_elem_of_filter.
      by apply bool_decide_unpack in Hh.
    + simpl. by rewrite Hcache.
    + unfold getAllHolders, bind, cacheManager_get, gets, Logger, modify, asHolders, ret.
      cbn [cache set_cache]. by rewrite lookup_insert_eq.
  - split; [done|]. cbn [console set_console]. by rewrite last_last.
Qed.

Lemma getAllHolders_fetched_witness :
  let w := startWorld deadChain (fun _ => Served [ {| owner := wallet1; amount := 60000000 |};
                                                    {| owner := wallet2; amount := 49999999 |} ]) in
  cache w !! "all_holders" = None /\
  match getAllHolders w with
  | (Ok holders, w') =>
      Forall (fun h => CONFIG.MIN_TOKENS <= amount h) holders /\
      cache w' = <["all_holders" := CHolders holders]> (cache w) /\
      getAllHolders w' =
        (Ok holders, set_console (fun c => c ++ ["Using cached holders list"]) w')
  | (Throw e, w') =>
      cache w' = cache w /\
      List.last (console w') "" = "Error fetching holders:"
  end.
Proof.
  cbn zeta. split; [reflexivity|].
  apply (getAllHolders_fetched
           (startWorld deadChain
              (fun _ => Served [ {| owner := wallet1; amount := 60000000 |};
                                 {| owner := wallet2; amount := 49999999 |} ]))).
  reflexivity.
Defined.

Lemma filterRelevantTransactions_idemp txs :
  filterRelevantTransactions (filterRelevantTransactions txs) =
  filterRelevantTransactions txs.
Proof. unfold filterRelevantTransactions. by apply list_filter_filter_l. Qed.

Lemma getTransactionHistory_miss wallet w :
  cache w !! ("tx_history_" +:+ wallet) = None ->
  getTransactionHistory wallet w =
  match fetchTransactionsWithRetry wallet 1 w with
  | (Ok transactions, w1) =>
      (Ok transactions,
       if (0 <? length transactions)%nat
       then set_cache (fun c => <["tx_history_" +:+ wallet := CTransactions transactions]> c) w1
       else w1)
  | (Throw e, w1) =>
      (Ok [], set_console
                (fun c => c ++ ["Error fetching history for " +:+ wallet +:+ ":"]) w1)
  end.
Proof.
  intros Hmiss. unfold getTransactionHistory. cbn zeta. unfold bind at 1.
  unfold cacheManager_get, gets. rewrite Hmiss. cbn beta iota.
  unfold try_catch. unfold bind at 1.
  destruct (fetchTransactionsWithRetry wallet 1 w) as [[transactions|e] w1]; [|done].
  by destruct (0 <? length transactions)%nat.
Qed.

(** X18. The history fetched from the chain. With no history of the
    wallet in the cache, [getTransactionHistory] never throws; the list
    it returns holds only transactions that mention the KOKO mint; a
    non-empty list is stored under [tx_history_<wallet>] and the next
    call returns it from the cache without any effect, while an empty
    list, also the one that replaces a failed retrieval, leaves the cache
    as it was. *)
Theorem getTransactionHistory_fetched wallet w :
  cache w !! ("tx_history_" +:+ wallet) = None ->
  let out := getTransactionHistory wallet w in
  exists transactions,
    out.1 = Ok transactions /\
    filterRelevantTransactions transactions = transactions /\
    match transactions with
    | [] => cache out.2 = cache w
    | _ :: _ =>
        cache out.2 =
          <["tx_history_" +:+ wallet := CTransactions transactions]> (cache w) /\
        getTransactionHistory wallet out.2 = (Ok transactions, out.2)
    end.
Proof.
  intros Hmiss. cbn zeta. rewrite getTransactionHistory_miss by done.
  assert (Hcache : cache (fetchTransactionsWithRetry wallet 1 w).2 = cache w).
  { apply (retryFrom_leaves_cache ("wallet " +:+ wallet) (requestTransactions wallet)).
    by apply keeps_requestTransactions. }
  pose proof (retryFrom_result (fun txs => filterRelevantTransactions txs = txs)
                ("wallet " +:+ wallet) (requestTransactions wallet)) as Hrel.
  unfold fetchTransactionsWithRetry in *.
  destruct (retryFrom ("wallet " +:+ wallet) (requestTransactions wallet)
              (retryLimit - 1) 1 w) as [[transactions|e] w1] eqn:Hfetch;
    cbn [fst snd] in *.
  - exists transactions. split; [done|]. split.
    + eapply Hrel; [|exact Hfetch]. clear. intros w r w'. unfold requestTransactions.
      destruct (transactionsOf w (requests w) wallet); [|done]. intros [= <- _].
      apply filterRelevantTransactions_idemp.
    + destruct transactions as [|tx transactions]; cbn [length Nat.ltb Nat.leb]; [done|].
      split; [simpl; by rewrite Hcache|].
      unfold getTransactionHistory, bind, cacheManager_get, gets, asTransactions, ret.
      cbn [cache set_cache]. by rewrite lookup_insert_eq.
  - exists []. by repeat split.
Qed.

Lemma getTransactionHistory_fetched_witness :
  let w := startWorld (chainOf (fun _ => longHeld wallet1 60000000)) noAccounts in
  cache w !! ("tx_history_" +:+ wallet1) = None /\
  exists transactions,
    (getTransactionHistory wallet1 w).1 = Ok transactions /\
    filterRelevantTransactions transactions = transactions /\
    match transactions with
    | [] => cache (getTransactionHistory wallet1 w).2 = cache w
    | _ :: _ =>
        cache (getTransactionHistory wallet1 w).2 =
          <["tx_history_" +:+ wallet1 := CTransactions transactions]> (cache w) /\
        getTransactionHistory wallet1 (getTransactionHistory wallet1 w).2 =
          (Ok transactions, (getTransactionHistory wallet1 w).2)
    end.
Proof.
  cbn zeta. split; [reflexivity|].
  apply (getTransactionHistory_fetched wallet1
           (startWorld (chainOf (fun _ => longHeld wallet1 60000000)) noAccounts)).
  reflexivity.
Defined.

(** ** The cache manager beyond the round trip *)

Section CacheBehaviour.
Import CacheManager.

Lemma JSON_nested_ind (P : JSON -> Prop) :
  P JNull -> (forall b, P (JBool b)) -> (forall n, P (JNum n)) -> (forall s, P (JStr s)) ->
  (forall items, Forall P items -> P (JArr items)) ->
  (forall fields, Forall (fun kv => P kv.2) fields -> P (JObj fields)) ->
  forall d, P d.
Proof.
  intros Hn Hb Hnum Hs Harr Hobj. fix IH 1.
  intros [ | b | n | s | items | fields];
    [exact Hn | apply Hb | apply Hnum | apply Hs | | ].
  - apply Harr. induction items as [|x items IHitems]; constructor; [apply IH | exact IHitems].
  - apply Hobj. induction fields as [|[k x] fields IHfields]; constructor;
      [apply IH | exact IHfields].
Qed.

Lemma parse_stringify d : stringify (parse d) = Some d.
Proof.
  induction d as [ | b | n | s | items IH | fields IH] using JSON_nested_ind;
    simpl; try done.
  - do 2 f_equal. induction IH as [|x items Hx _ IHitems]; simpl; [done|].
    by rewrite Hx, IHitems.
  - do 2 f_equal. induction IH as [|[k x] fields Hx _ IHfields]; simpl in *; [done|].
    by rewrite Hx, IHfields.
Qed.

(** X19. The cache file is read once it could be loaded. After a first
    access that resolved, whatever file is then on the disk, [get]
    answers from the map in memory and leaves the instance as it is:
    entries the file gains or loses later are not seen. A first access
    that rejected, with the [ReferenceError] of the missing [Logger],
    left the instance as it was, not initialized, and the next access
    reads the file again. *)
Theorem file_read_once disk disk' first key c :
  match get disk first c with
  | (Ok _, c1) => get disk' key c1 = ((get disk key c).1, c1)
  | (Throw e, c1) =>
      e = LoggerNotDefined /\ c1 = c /\ initialized c = false /\ load disk = None /\
      get disk' key c1 =
        match load disk' with
        | Some loaded =>
            (Ok (default VUndefined (loaded !! key)),
             {| cache := loaded; initialized := true; writeTimeout := writeTimeout c |})
        | None => (Throw LoggerNotDefined, c)
        end
  end.
Proof.
  unfold get. destruct (init disk c) as [[[]|e] c1] eqn:Hinit.
  - apply init_returns in Hinit as (_ & _ & _ & Hagain). by rewrite Hagain.
  - apply init_throws in Hinit as (-> & -> & Hfresh & Hload).
    repeat split; try done.
    unfold init. rewrite Hfresh. by destruct (load disk').
Qed.

(** X20. Read your writes. Within one instance, a [get] that follows a
    [set] that resolved answers the value just set for that key and, for
    any other key, what a [get] would have answered before the [set]; the
    file on the disk at the time of the [get] plays no part. A [set] that
    rejected, which it does exactly when the instance was not initialized
    and the file cannot be loaded, has stored nothing and set no timer. *)
Theorem set_then_get disk disk' now key key' value c :
  match set disk now key value c with
  | (Ok _, c1) =>
      (get disk' key' c1).1 =
        if decide (key' = key) then Ok value else (get disk key' c).1
  | (Throw e, c1) =>
      e = LoggerNotDefined /\ c1 = c /\ initialized c = false /\ load disk = None
  end.
Proof.
  unfold set, get. destruct (init disk c) as [[[]|e] c1] eqn:Hinit.
  - apply init_returns in Hinit as (Hready & _ & _ & _).
    unfold init, scheduleWrite. cbn [initialized cache fst]. rewrite Hready.
    cbn [fst cache]. destruct (decide (key' = key)) as [->|Hne].
    + by rewrite lookup_insert_eq.
    + by rewrite lookup_insert_ne.
  - by apply init_throws in Hinit.
Qed.

(** X21. A cache that cannot be loaded makes every access fail. When the
    cache directory cannot be used, or the file holds no JSON text or the
    document [null], [get] and [set] on a fresh instance reject with
    [ReferenceError: Logger is not defined], the error of the [catch]
    block of [init], and leave the instance as it was: not initialized,
    the value not stored, no timer set. *)
Theorem unloadable_cache_rejects disk now key value :
  usable disk = false \/
  content disk = Some Garbled \/
  content disk = Some (Text JNull) ->
  get disk key new = (Throw (EError "ReferenceError: Logger is not defined"), new) /\
  set disk now key value new =
    (Throw (EError "ReferenceError: Logger is not defined"), new).
Proof.
  intros Hbad.
  assert (Hload : load disk = None).
  { unfold load. destruct Hbad as [-> | [-> | ->]]; [done|by destruct (usable disk)..]. }
  unfold get, set, init. cbn [initialized new]. by rewrite Hload.
Qed.

Lemma unloadable_cache_rejects_witness :
  let disk := {| usable := true; content := Some (Text JNull) |} in
  (usable disk = false \/
   content disk = Some Garbled \/
   content disk = Some (Text JNull)) /\
  get disk "all_holders" new =
    (Throw (EError "ReferenceError: Logger is not defined"), new) /\
  set disk 0 "all_holders" (VArray []) new =
    (Throw (EError "ReferenceError: Logger is not defined"), new).
Proof.
  cbn zeta.
  assert (H : usable {| usable := true; content := Some (Text JNull) |} = false \/
              content {| usable := true; content := Some (Text JNull) |} = Some Garbled \/
              content {| usable := true; content := Some (Text JNull) |}
                = Some (Text JNull)).
  { right. right. reflexivity. }
  split; [exact H|].
  exact (unloadable_cache_rejects
           {| usable := true; content := Some (Text JNull) |} 0 "all_holders"
           (VArray []) H).
Defined.

(** A missing file, and a document that is a boolean or a number, read as
    an empty cache. *)
Example empty_cache_files :
  let missing := {| usable := true; content := None |} in
  let number := {| usable := true; content := Some (Text (JNum 3)) |} in
  let boolean := {| usable := true; content := Some (Text (JBool true)) |} in
  (get missing "all_holders" new).1 = Ok VUndefined /\
  (get number "all_holders" new).1 = Ok VUndefined /\
  (get boolean "all_holders" new).1 = Ok VUndefined.
Proof. vm_compute. repeat split. Qed.

(** X22. What comes back from the file, for any value. Once the map of an
    instance has been written to a usable directory, a fresh instance
    answers for each key the value [JSON.parse] gives for what
    [JSON.stringify] printed of the stored value: a [Date] comes back as
    its ISO string, [NaN] as [null], and a key whose value was
    [undefined], like a key never set, as [undefined]. *)
Theorem written_value_comes_back_printed disk c key :
  usable disk = true ->
  (flush disk c).1 = Ok tt /\
  (get (flush disk c).2 key new).1 =
  Ok match cache c !! key with
     | Some v => default VUndefined (parse <$> stringify v)
     | None => VUndefined
     end.
Proof.
  intros Husable. split; [by apply flush_writes|].
  rewrite flush_get by done.
  by destruct (cache c !! key) as [v|]; cbn [mbind option_bind];
    [destruct (stringify v)|].
Qed.

Lemma written_value_comes_back_printed_witness :
  let disk := {| usable := true; content := None |} in
  let c := (set disk 0 "analysis_w" (VObject [("firstAcquired", VDate 1700000000123);
                                              ("share", VNaN);
                                              ("note", VUndefined)]) new).2 in
  usable disk = true /\
  (flush disk c).1 = Ok tt /\
  (get (flush disk c).2 "analysis_w" new).1 =
  Ok match cache c !! "analysis_w" with
     | Some v => default VUndefined (parse <$> stringify v)
     | None => VUndefined
     end.
Proof.
  cbn zeta. split; [reflexivity|].
  apply (written_value_comes_back_printed
           {| usable := true; content := None |}
           (set {| usable := true; content := None |} 0 "analysis_w"
              (VObject [("firstAcquired", VDate 1700000000123);
                        ("share", VNaN);
                        ("note", VUndefined)]) new).2
           "analysis_w").
  reflexivity.
Defined.

Lemma Map_of_elem (es : list (string * JSValue)) k v :
  Map_of es !! k = Some v -> (k, v) ∈ es.
Proof.
  unfold Map_of.
  assert (Hgen : forall (m : gmap string JSValue),
             foldl (fun m kv => <[kv.1 := kv.2]> m) m es !! k = Some v ->
             (k, v) ∈ es \/ m !! k = Some v).
  { induction es as [|[k0 v0] es IH]; intros m; simpl; [by right|].
    intros [Hin|Hm]%IH.
    - left. apply elem_of_cons. by right.
    - destruct (decide (k0 = k)) as [->|Hne].
      + rewrite lookup_insert_eq in Hm. injection Hm as ->. left. apply elem_of_cons. by left.
      + rewrite lookup_insert_ne in Hm by done. by right. }
  intros [Hin|Hm]%Hgen; [done|]. by rewrite lookup_empty in Hm.
Qed.

Lemma indexed_elem {A} (l : list A) i k x : (k, x) ∈ indexed i l -> x ∈ l.
Proof.
  revert i. induction l as [|y l IH]; intros i; simpl; [by intros ?%elem_of_nil|].
  intros [[= _ ->]|Hin]%elem_of_cons; apply elem_of_cons; [by left|].
  right. by eapply IH.
Qed.

(** Every value loaded from the file is the reading of a document. *)
Lemma entries_parse d es k v :
  entries (parse d) = Some es -> (k, v) ∈ es -> exists d', v = parse d'.
Proof.
  destruct d as [ | b | n | s | items | fields]; simpl; try done;
    intros [= <-]; try (by intros ?%elem_of_nil).
  - intros Hin%indexed_elem.
    apply list_elem_of_fmap in Hin as (c & -> & _).
    by exists (JStr (String c EmptyString)).
  - intros Hin%indexed_elem.
    apply list_elem_of_fmap in Hin as (d & -> & _). by exists d.
  - intros Hin.
    apply list_elem_of_fmap in Hin as ([k' d] & [= _ ->] & _). by exists d.
Qed.

Lemma load_values_parsed disk loaded k v :
  load disk = Some loaded -> loaded !! k = Some v -> exists d, v = parse d.
Proof.
  unfold load. destruct (usable disk); [|done].
  destruct (default (Text (JObj [])) (content disk)) as [|d]; [done|].
  destruct (entries (parse d)) as [es|] eqn:Hes; [|done].
  intros [= <-] Hin%Map_of_elem. by eapply entries_parse.
Qed.

(** X23. Writing does not lose what was loaded. When a fresh instance
    could load the file, so that its [set] resolved, and its map is
    written out to the usable directory, every other key reads from the
    new file as it read from the old one: the entries a previous run left
    in the file survive, value for value. *)
Theorem loaded_entries_survive disk now key key' value :
  usable disk = true ->
  (set disk now key value new).1 = Ok tt ->
  key' <> key ->
  exists v,
    (get disk key' new).1 = Ok v /\
    (get (flush disk (set disk now key value new).2).2 key' new).1 = Ok v.
Proof.
  intros Husable Hset Hne.
  apply set_resolves in Hset as [Hinit | [loaded Hload]]; [done|].
  rewrite flush_get by done. rewrite get_new.
  unfold set, init. cbn [initialized new]. rewrite Hload.
  unfold scheduleWrite. cbn [fst snd cache]. rewrite lookup_insert_ne by done.
  eexists. split; [reflexivity|]. f_equal.
  destruct (loaded !! key') as [v|] eqn:Hv; cbn [mbind option_bind]; [|done].
  destruct (load_values_parsed disk loaded key' v Hload Hv) as [d ->].
  by rewrite parse_stringify.
Qed.

Lemma loaded_entries_survive_witness :
  let disk := {| usable := true;
                 content := Some (Text (JObj [("all_holders", JArr [JStr wallet1]);
                                              ("n", JNum 3)])) |} in
  usable disk = true /\
  (set disk 0 "tx_history_w" (VArray []) new).1 = Ok tt /\
  "all_holders" <> "tx_history_w" /\
  exists v,
    (get disk "all_holders" new).1 = Ok v /\
    (get (flush disk (set disk 0 "tx_history_w" (VArray []) new).2).2 "all_holders" new).1
    = Ok v.
Proof.
  cbn zeta. split; [reflexivity|]. split; [reflexivity|]. split; [discriminate|].
  apply (loaded_entries_survive
           {| usable := true;
              content := Some (Text (JObj [("all_holders", JArr [JStr wallet1]);
                                           ("n", JNum 3)])) |}
           0 "tx_history_w" "all_holders" (VArray [])).
  - reflexivity.
  - reflexivity.
  - discriminate.
Defined.

Lemma setAll_cons op ops disk c :
  setAll (op :: ops) disk c =
  match elapse op.1.1 disk c with
  | (Ok _, (disk1, c1)) =>
      match set disk1 op.1.1 op.1.2 op.2 c1 with
      | (Ok _, c2) => setAll ops disk1 c2
      | (Throw e, c2) => (Throw e, (disk1, c2))
      end
  | (Throw e, dc) => (Throw e, dc)
  end.
Proof.
  assert (Hstuck : forall e dc,
             foldl (fun run op =>
                      match run with
                      | (Ok _, (disk, c)) =>
                          match elapse op.1.1 disk c with
                          | (Ok _, (disk, c)) =>
                              let stored := set disk op.1.1 op.1.2 op.2 c in
                              (stored.1, (disk, stored.2))
                          | (Throw e, dc) => (Throw e, dc)
                          end
                      | (Throw e, dc) => (Throw e, dc)
                      end) (Throw e, dc) ops = (Throw e, dc)).
  { induction ops as [|op' ops IH]; intros e dc; [done|]. cbn [foldl]. apply IH. }
  unfold setAll. cbn [foldl].
  destruct (elapse op.1.1 disk c) as [[[]|e] [disk1 c1]]; [|apply Hstuck].
  cbn zeta. destruct (set disk1 op.1.1 op.1.2 op.2 c1) as [[[]|e] c2]; [done|].
  apply Hstuck.
Qed.

(** X24. Writes are debounced. On an instance that is initialized or
    whose file can be loaded, while every [set] arrives before the timer
    pending at that moment is due, that is less than 5000 ms after the
    [set] before it, every [set] resolves and no write reaches the file:
    each [set] clears the pending timer and starts a new one, and the
    timer left pending is the one of the last [set]. *)
Theorem burst_postpones_write ops disk c :
  initialized c = true \/ is_Some (load disk) ->
  withinWindow (writeTimeout c) (map (fun op => op.1.1) ops) ->
  (setAll ops disk c).1 = Ok tt /\
  (setAll ops disk c).2.1 = disk /\
  writeTimeout (setAll ops disk c).2.2 =
    foldl (fun _ op => Some (op.1.1 + 5000)) (writeTimeout c) ops.
Proof.
  revert c. induction ops as [|[[t k] v] ops IH]; intros c Hready; [done|].
  cbn [map withinWindow fst snd]. intros [Hdue Hrest].
  rewrite setAll_cons. cbn [fst snd foldl].
  assert (Hquiet : elapse t disk c = (Ok tt, (disk, c))).
  { unfold elapse. destruct (writeTimeout c) as [due|]; [|done].
    destruct (Z.leb_spec due t); [lia|done]. }
  rewrite Hquiet. unfold set.
  destruct (init_loadable disk c Hready) as [c1 Hinit]. rewrite Hinit.
  apply init_returns in Hinit as (Hc1 & _ & _ & _).
  apply IH; [by left | exact Hrest].
Qed.

Lemma burst_postpones_write_witness :
  let disk := {| usable := true; content := None |} in
  let ops := [(0, "a", VNumber 1); (3000, "b", VNumber 2); (7999, "a", VNumber 3)] in
  (initialized new = true \/ is_Some (load disk)) /\
  withinWindow (writeTimeout new) (map (fun op => op.1.1) ops) /\
  (setAll ops disk new).1 = Ok tt /\
  (setAll ops disk new).2.1 = disk /\
  writeTimeout (setAll ops disk new).2.2 =
    foldl (fun _ op => Some (op.1.1 + 5000)) (writeTimeout new) ops.
Proof.
  cbn zeta.
  assert (Hready : initialized new = true \/
                   is_Some (load {| usable := true; content := None |})).
  { right. by eexists. }
  assert (H : withinWindow (writeTimeout new)
                (map (fun op : Z * string * JSValue => op.1.1)
                   [(0, "a", VNumber 1); (3000, "b", VNumber 2); (7999, "a", VNumber 3)])).
  { simpl. lia. }
  split; [exact Hready|]. split; [exact H|].
  exact (burst_postpones_write
           [(0, "a", VNumber 1); (3000, "b", VNumber 2); (7999, "a", VNumber 3)]
           {| usable := true; content := None |} new Hready H).
Defined.

(** On a file that cannot be loaded the first [set] of the client
    rejects: nothing is stored and no timer is pending. *)
Example burst_on_garbled_file :
  let garbled := {| usable := true; content := Some Garbled |} in
  setAll [(0, "a", VNumber 1); (3000, "b", VNumber 2)] garbled new
  = (Throw LoggerNotDefined, (garbled, new)).
Proof. vm_compute. reflexivity. Qed.

End CacheBehaviour.

(** ** The waits of [withRetry] *)

Lemma sleeps_app tr1 tr2 : sleeps (tr1 ++ tr2) = sleeps tr1 ++ sleeps tr2.
Proof. unfold sleeps. apply flat_map_app. Qed.

Lemma sleeps_retry_events options limit failures :
  forall attempt,
    Forall (fun ms => ms <= CONFIG.maxTimeout options)
      (sleeps (retry_events (backoff options) limit attempt failures)) /\
    (length (sleeps (retry_events (backoff options) limit attempt failures))
     <= limit - attempt)%nat.
Proof.
  induction failures as [|e failures IH]; intros attempt; [split; [constructor|simpl; lia]|].
  cbn [retry_events]. destruct (IH (S attempt)) as [Hall Hlen].
  change (Invoke attempt :: Failed attempt e :: ?l) with ([Invoke attempt; Failed attempt e] ++ l).
  rewrite !sleeps_app. cbn [sleeps flat_map app].
  destruct (Nat.ltb_spec attempt limit) as [Hlt|Hge]; cbn [sleeps flat_map app length].
  - split; [|lia]. constructor; [|done]. unfold backoff. apply Z.le_min_r.
  - split; [done|lia].
Qed.

(** X29. The waits of [withRetry] are bounded. Whatever the operation
    does (it sets no timer of its own), [withRetry] sleeps at most
    [retries - 1] times and never longer than [maxTimeout] at a time,
    whether it ends with a result or with the last error; with
    [retries = 0] it does not invoke the operation at all and throws
    [undefined]. *)
Theorem withRetry_waits_bounded {A} (fn : M A) options w :
  quiet fn ->
  let out := withRetry fn options w in
  (exists slept,
     sleeps (trace out.2) = sleeps (trace w) ++ slept /\
     Forall (fun ms => ms <= CONFIG.maxTimeout options) slept /\
     (length slept <= CONFIG.retries options - 1)%nat) /\
  match CONFIG.retries options with
  | O => out = (Throw EUndefined, w)
  | S _ => True
  end.
Proof.
  intros Hquiet. cbn zeta. split.
  - unfold withRetry.
    destruct (withRetry_loop_outcome fn options Hquiet (CONFIG.retries options) 1
                EUndefined w ltac:(lia)) as (failures & Hout).
    cbn zeta in Hout.
    destruct (sleeps_retry_events options (CONFIG.retries options) failures 1)
      as [Hall Hlen].
    exists (sleeps (retry_events (backoff options) (CONFIG.retries options) 1 failures)).
    destruct (withRetry_loop fn options (CONFIG.retries options) 1 EUndefined w)
      as [[a|e] w']; cbn [fst snd] in Hout |- *.
    + destruct Hout as [_ ->]. rewrite !sleeps_app. cbn [sleeps flat_map].
      by rewrite app_nil_r.
    + destruct Hout as (_ & _ & ->). by rewrite sleeps_app.
  - unfold withRetry. by destruct (CONFIG.retries options).
Qed.

Lemma withRetry_waits_bounded_witness :
  let fn := throw (A := unit) (EError "ECONNRESET") in
  let out := withRetry fn CONFIG.RETRY_OPTIONS (startWorld deadChain noAccounts) in
  quiet fn /\
  (exists slept,
     sleeps (trace out.2) = sleeps (trace (startWorld deadChain noAccounts)) ++ slept /\
     Forall (fun ms => ms <= CONFIG.maxTimeout CONFIG.RETRY_OPTIONS) slept /\
     (length slept <= CONFIG.retries CONFIG.RETRY_OPTIONS - 1)%nat) /\
  match CONFIG.retries CONFIG.RETRY_OPTIONS with
  | O => out = (Throw EUndefined, startWorld deadChain noAccounts)
  | S _ => True
  end.
Proof.
  cbn zeta.
  assert (Hq : quiet (throw (A := unit) (EError "ECONNRESET"))) by (intros w; reflexivity).
  split; [exact Hq|].
  exact (withRetry_waits_bounded (throw (A := unit) (EError "ECONNRESET"))
           CONFIG.RETRY_OPTIONS (startWorld deadChain noAccounts) Hq).
Defined.

(** ** The contract of [withRetry] *)

Lemma withRetry_loop_Retried {A} (fn : M A) options :
  forall remaining attempt lastError w,
    (1 <= attempt)%nat ->
    (1 <= remaining)%nat ->
    (attempt + remaining = S (CONFIG.retries options))%nat ->
    exists n,
      (n <= remaining)%nat /\
      Retried fn options attempt w n
        (withRetry_loop fn options remaining attempt lastError w).
Proof.
  induction remaining as [|remaining IH]; intros attempt lastError w Hpos Hrem Hsum; [lia|].
  rewrite withRetry_loop_S.
  destruct (fn (set_trace (fun tr => tr ++ [Invoke attempt]) w)) as [[a|e] w1] eqn:Hfn.
  - exists 1%nat. split; [lia|]. apply Retried_returned; [lia|done].
  - cbn zeta. destruct remaining as [|remaining].
    + assert (Hlast : attempt = CONFIG.retries options) by lia.
      destruct (Nat.ltb_spec attempt (CONFIG.retries options)) as [|_]; [lia|].
      exists 1%nat. split; [lia|]. cbn [withRetry_loop]. unfold throw.
      by apply Retried_exhausted.
    + destruct (Nat.ltb_spec attempt (CONFIG.retries options)) as [Hlt|]; [|lia].
      match goal with |- context [withRetry_loop fn options _ (S attempt) e ?w3] =>
        destruct (IH (S attempt) e w3 ltac:(lia) ltac:(lia) ltac:(lia)) as (n & Hn & Hrun)
      end.
      exists (S n). split; [lia|].
      apply (Retried_again fn options attempt w e w1 n _ Hlt Hfn).
      unfold sleep, modify. cbn [snd].
      replace (Z.of_nat attempt - 1) with (Z.of_nat (attempt - 1)) by lia.
      exact Hrun.
Qed.

(** X30. [withRetry] keeps the retry contract. With at least one attempt
    allowed, a run of [withRetry] on any operation is one the contract
    allows: it invokes the operation, returns what it returns, follows
    each failed attempt [k] below [retries] by a sleep of exactly
    [min (minTimeout * 2 ^ (k - 1)) maxTimeout] and the next attempt,
    throws the error of the attempt number [retries] as it is, and
    invokes the operation at most [retries] times. *)
Theorem withRetry_meets_contract {A} (fn : M A) options w :
  (1 <= CONFIG.retries options)%nat ->
  exists n,
    (n <= CONFIG.retries options)%nat /\
    Retried fn options 1 w n (withRetry fn options w).
Proof.
  intros Hretries. unfold withRetry.
  apply withRetry_loop_Retried; lia.
Qed.

Lemma withRetry_meets_contract_witness :
  let fn : M nat := fun w =>
    if (requests w <? 2)%nat then (Throw (EError "ECONNRESET"), set_requests S w)
    else (Ok (requests w), w) in
  let w := startWorld deadChain noAccounts in
  (1 <= CONFIG.retries CONFIG.RETRY_OPTIONS)%nat /\
  (withRetry fn CONFIG.RETRY_OPTIONS w).1 = Ok 2%nat /\
  sleeps (trace (withRetry fn CONFIG.RETRY_OPTIONS w).2) = [1000; 2000] /\
  exists n,
    (n <= CONFIG.retries CONFIG.RETRY_OPTIONS)%nat /\
    Retried fn CONFIG.RETRY_OPTIONS 1 w n (withRetry fn CONFIG.RETRY_OPTIONS w).
Proof.
  cbn zeta.
  assert (Hretries : (1 <= CONFIG.retries CONFIG.RETRY_OPTIONS)%nat) by (simpl; lia).
  split; [exact Hretries|]. split; [reflexivity|]. split; [reflexivity|].
  exact (withRetry_meets_contract
           (fun w => if (requests w <? 2)%nat
                     then (Throw (EError "ECONNRESET"), set_requests S w)
                     else (Ok (requests w), w))
           CONFIG.RETRY_OPTIONS (startWorld deadChain noAccounts) Hretries).
Defined.
